(** * ChatLab: presentation helpers, store actions and the import-progress queue

    A shallow embedding of the renderer-side helpers, the Pinia chat store,
    the tab components' loaders and the Electron auto-update wiring of
    ChatLab, followed by the properties established about them.

    Conventions of the embedding:
    - a JavaScript string is the list of its UTF-16 code units;
    - a JavaScript number that the code uses as a length or an index is an
      integer in [Z]; a number that enters a division is a rational in [Q]
      (every finite double is one) and the arithmetic on it is exact;
    - [null] and [undefined] are [None];
    - an awaited bridge call is answered by an oracle with a [completion]:
      the promise is fulfilled with a value or rejected with an error. *)

From Stdlib Require Import ZArith NArith QArith Qround Lia Lqa List Ascii String.
From stdpp Require Import base option list numbers strings gmap.

Set Default Proof Using "Type".
Local Open Scope Z_scope.

(* ===================================================================== *)
(** * Part I: the model                                                    *)
(* ===================================================================== *)

(** ** JavaScript strings *)

Module JsString.

Definition code_unit := N.

(** A string value: its UTF-16 code units, in order. *)
Definition t := list code_unit.

(** An ASCII literal of the source, as a string value. *)
Definition lit (s : string) : t := map N_of_ascii (list_ascii_of_string s).

(** [s.length] *)
Definition length (s : t) : Z := Z.of_nat (List.length s).

(** Truthiness of a string: every string but the empty one. *)
Definition truthy (s : t) : bool :=
  match s with
  | [] => false
  | _ :: _ => true
  end.

(** The clamping of a relative index done by [slice]: a negative index
    counts from the end, and the result stays within [0, len]. *)
Definition rel_index (len i : Z) : Z :=
  if i <? 0 then Z.max (len + i) 0 else Z.min i len.

(** [s.slice(start, end)] *)
Definition slice (s : t) (start end_ : Z) : t :=
  let len := length s in
  let from := rel_index len start in
  let to := rel_index len end_ in
  take (Z.to_nat (Z.max (to - from) 0)) (drop (Z.to_nat from) s).

(** [a + b] on strings *)
Definition concat (a b : t) : t := a ++ b.

(** WhiteSpace and LineTerminator code points of ECMAScript, the ones
    [trim] removes. All of them are single code units. *)
Definition is_white (c : code_unit) : bool :=
  ((9 <=? c) && (c <=? 13) ||
   (c =? 32) || (c =? 160) || (c =? 5760) ||
   (8192 <=? c) && (c <=? 8202) ||
   (c =? 8232) || (c =? 8233) || (c =? 8239) || (c =? 8287) ||
   (c =? 12288) || (c =? 65279))%N.

Fixpoint trimStart (s : t) : t :=
  match s with
  | [] => []
  | c :: s' => if is_white c then trimStart s' else s
  end.

Definition trimEnd (s : t) : t := rev (trimStart (rev s)).

(** [s.trim()] *)
Definition trim (s : t) : t := trimEnd (trimStart s).

(** The code units matched by the pattern [v] under the [i] flag. *)
Definition is_v (c : code_unit) : bool := ((c =? 118) || (c =? 86))%N.

(** [s.replace(/^v/i, '')]: the pattern is anchored at the start and is
    not global, so at most one code unit goes. *)
Definition replace_leading_v (s : t) : t :=
  match s with
  | [] => []
  | c :: s' => if is_v c then s' else s
  end.

(** [parts.join(sep)] *)
Fixpoint join (sep : t) (parts : list t) : t :=
  match parts with
  | [] => []
  | [p] => p
  | p :: rest => p ++ sep ++ join sep rest
  end.

End JsString.

Abbreviation jsstring := JsString.t.
Arguments JsString.lit s%_string.
Notation "'js:' s" := (JsString.lit s) (at level 1, s at level 0, format "'js:' s").

(** ** Changelog modal: version normalisation (ChangelogModal.vue) *)

Module Changelog.

(** [normalizeVersion(version?: string | null)] *)
Definition normalizeVersion (version : option jsstring) : option jsstring :=
  match version with
  | Some v =>
      if JsString.truthy v
      then Some (JsString.replace_leading_v (JsString.trim v))
      else None
  | None => None
  end.

(** Truthiness of a [string | null]. *)
Definition truthy (v : option jsstring) : bool :=
  match v with
  | Some s => JsString.truthy s
  | None => false
  end.

(** [isCurrentVersion(version)], with the value of the
    [currentAppVersion] ref as a parameter. *)
Definition isCurrentVersion (currentAppVersion : option jsstring)
    (version : jsstring) : bool :=
  let current := normalizeVersion currentAppVersion in
  if truthy current
  then bool_decide (normalizeVersion (Some version) = current)
  else false.


End Changelog.

(** ** JavaScript arrays *)

Module JsArray.

(** [a.slice(start, end)], with the same index clamping as on strings. *)
Definition slice {A} (a : list A) (start end_ : Z) : list A :=
  let len := Z.of_nat (length a) in
  let from := JsString.rel_index len start in
  let to := JsString.rel_index len end_ in
  take (Z.to_nat (Z.max (to - from) 0)) (drop (Z.to_nat from) a).

(** [a.find(p)]: the first element that satisfies [p], if any. *)
Definition find {A} (p : A → bool) (a : list A) : option A :=
  snd <$> list_find (λ x, p x = true) a.

(** [a.findIndex(p)]: the index of that element, or -1. *)
Definition findIndex {A} (p : A → bool) (a : list A) : Z :=
  match list_find (λ x, p x = true) a with
  | Some (i, _) => Z.of_nat i
  | None => -1
  end.

(** [a.splice(index, 1)] for an index that [findIndex] returned. *)
Definition splice1 {A} (index : Z) (a : list A) : list A :=
  delete (Z.to_nat index) a.

(** [a.includes(x)] *)
Definition includes `{EqDecision A} (x : A) (a : list A) : bool :=
  bool_decide (x ∈ a).

End JsArray.

(** ** Completions, the console and the bridge *)

Module Js.

(** What a [throw] or a rejected promise carries. *)
Inductive exn : Type :=
| TypeError (what : string)
| Rejection (reason : jsstring).

(** How an evaluation ends: with a value, or by throwing. An awaited
    promise ends the same way: fulfilled, or rejected (and [await]
    rethrows the rejection). *)
Inductive completion (A : Type) : Type :=
| Normal (a : A)
| Throw (e : exn).
Arguments Normal {A} a.
Arguments Throw {A} e.

(** [Math.round]: the nearest integer, ties towards +infinity. *)
Definition Math_round (x : Q) : Z := Qfloor (x + (1 # 2))%Q.

(** [String(error)] *)
Definition String_of (e : exn) : jsstring :=
  match e with
  | TypeError what => JsString.lit ("TypeError: " ++ what)
  | Rejection reason => reason
  end.

End Js.

Export Js (completion, Normal, Throw).

Module Bridge.

(** [interface TimeFilter { startTs?: number; endTs?: number }] *)
Record TimeFilter := { startTs : option Z; endTs : option Z }.

(** The display objects of [@/types/chat] and the fields of them that the
    code under study never reads: they are parameters of the model. *)
Class Types := {
  RepeatAnalysis : Type;
  CatchphraseAnalysis : Type;
  MemberNameHistory : Type;
  SessionFields : Type;
  MemberFields : Type;
  TemplateFields : Type;
  TemplateUpdates : Type;
  (** [{ ...template, ...updates }] on the fields other than [id] *)
  spread : TemplateFields → TemplateUpdates → TemplateFields
}.

(** [AnalysisSession]: the store reads [id] and writes [name]. *)
Record AnalysisSession `{Types} := {
  id : jsstring;
  name : jsstring;
  session_fields : SessionFields
}.

(** [ImportProgress], with the fields of the literal in
    [importFileFromPath]. *)
Record ImportProgress := {
  stage : jsstring;
  progress : Q;
  message : jsstring
}.

(** The object [window.chatApi.import] resolves to. *)
Record ImportResult := {
  success : bool;
  sessionId : option jsstring;
  error : option jsstring
}.

(** [MemberActivity]: the timeline reads [memberId] and [name]. *)
Record MemberActivity `{Types} := {
  memberId : Z;
  member_name : jsstring;
  member_fields : MemberFields
}.

(** The calls on [window.chatApi] that the code issues, as recorded in
    the order they are made. *)
Inductive call : Type :=
| GetSessions
| DeleteSession (id : jsstring)
| RenameSession (id newName : jsstring)
| GetRepeatAnalysis (sessionId : jsstring) (timeFilter : option TimeFilter)
| GetCatchphraseAnalysis (sessionId : jsstring) (timeFilter : option TimeFilter)
| GetMemberNameHistory (sessionId : jsstring) (memberId : Z)
| Import (filePath : jsstring).

(** How the main process answers during one run of an action: what each
    promise settles to. *)
Record oracle `{Types} := {
  getSessions : completion (list AnalysisSession);
  deleteSession : jsstring → completion bool;
  renameSession : jsstring → jsstring → completion bool;
  getRepeatAnalysis : jsstring → option TimeFilter → completion RepeatAnalysis;
  getCatchphraseAnalysis :
    jsstring → option TimeFilter → completion CatchphraseAnalysis;
  getMemberNameHistory : jsstring → Z → completion (list MemberNameHistory)
}.

End Bridge.

(** ** A monad for actions: state, console, bridge calls and exceptions *)

Module Act.

Inductive log_entry : Type :=
| ConsoleError (label : string) (e : Js.exn)
| ConsoleLog (text : string).

(** The reactive state [St] of a store or a component, next to what the
    action leaves on the console and on the bridge. *)
Record world (St : Type) := World {
  state : St;
  console : list log_entry;
  calls : list Bridge.call
}.
Arguments World {St} _ _ _.
Arguments state {St} _.
Arguments console {St} _.
Arguments calls {St} _.

Definition M (St A : Type) : Type := world St → completion A * world St.

Definition ret {St A} (a : A) : M St A := λ w, (Normal a, w).

Definition bind {St A B} (m : M St A) (k : A → M St B) : M St B :=
  λ w, match m w with
       | (Normal a, w') => k a w'
       | (Throw e, w') => (Throw e, w')
       end.

Definition throw {St A} (e : Js.exn) : M St A := λ w, (Throw e, w).

(** Reading and writing refs. *)
Definition gets {St A} (f : St → A) : M St A := λ w, (Normal (f (state w)), w).

Definition modify {St} (f : St → St) : M St unit :=
  λ w, (Normal tt, World (f (state w)) (console w) (calls w)).

(** [console.error(label, error)] *)
Definition console_error {St} (label : string) (e : Js.exn) : M St unit :=
  λ w, (Normal tt, World (state w) (console w ++ [ConsoleError label e]) (calls w)).

(** Calling a bridge function: the call is recorded and a promise comes
    back, already paired with what it will settle to. *)
Definition issue {St A} (c : Bridge.call) (answer : completion A)
  : M St (completion A) :=
  λ w, (Normal answer, World (state w) (console w) (calls w ++ [c])).

(** [await p] *)
Definition await {St A} (p : completion A) : M St A := λ w, (p, w).

(** [try { body } catch (error) { handler error }] *)
Definition try_catch {St A} (body : M St A) (handler : Js.exn → M St A) : M St A :=
  λ w, match body w with
       | (Normal a, w') => (Normal a, w')
       | (Throw e, w') => handler e w'
       end.

(** [try { body } finally { cleanup }] *)
Definition try_finally {St A} (body : M St A) (cleanup : M St unit) : M St A :=
  λ w, match body w with
       | (r, w') =>
           match cleanup w' with
           | (Normal _, w'') => (r, w'')
           | (Throw e, w'') => (Throw e, w'')
           end
       end.

(** [Promise.all(ps)]: every value, in the order of [ps], or a rejection
    when one of them rejects. *)
Fixpoint Promise_all {A} (ps : list (completion A)) : completion (list A) :=
  match ps with
  | [] => Normal []
  | Normal a :: ps' =>
      match Promise_all ps' with
      | Normal l => Normal (a :: l)
      | Throw e => Throw e
      end
  | Throw e :: _ => Throw e
  end.

(** [a.map(f)] for an effectful [f], left to right. *)
Fixpoint mapM {St A B} (f : A → M St B) (l : list A) : M St (list B) :=
  match l with
  | [] => ret []
  | x :: l' => bind (f x) (λ y, bind (mapM f l') (λ ys, ret (y :: ys)))
  end.

(** [a.forEach((x, index) => ...)] where the callback updates a local
    variable of type [B]; [from] is the index of the head of [l]. *)
Fixpoint forEach_from {St A B} (from : nat) (l : list A)
    (f : B → A → nat → M St B) (acc : B) : M St B :=
  match l with
  | [] => ret acc
  | x :: l' => bind (f acc x from) (forEach_from (S from) l' f)
  end.

Definition forEach {St A B} (l : list A) (f : B → A → nat → M St B) (acc : B)
  : M St B := forEach_from 0 l f acc.

(** Running an action from a state, with an empty console and no call
    made yet. *)
Definition run {St A} (m : M St A) (s : St) : completion A * world St :=
  m (World s [] []).

End Act.

#[global] Instance Act_ret {St} : MRet (Act.M St) := @Act.ret St.
#[global] Instance Act_bind {St} : MBind (Act.M St) := λ A B k m, Act.bind m k.

(** ** The ranking list component *)

Module RankList.

(** [interface RankItem] *)
Record RankItem := {
  id : jsstring;
  name : jsstring;
  value : Q;
  percentage : Q
}.

(** [interface Props], after [withDefaults]. *)
Record Props := {
  members : list RankItem;
  showAvatar : bool;
  rankLimit : Z;
  unit_ : jsstring
}.

(** The computed [displayMembers]. *)
Definition displayMembers (props : Props) : list RankItem :=
  if 0 <? rankLimit props
  then JsArray.slice (members props) 0 (rankLimit props)
  else members props.

(** [a[index]] for a number [index]: [undefined] off the array. *)
Definition element {A} (a : list A) (index : Z) : option A :=
  if index <? 0 then None else a !! Z.to_nat index.



End RankList.

(** ** The repeat tab and the quotes tab *)

Module RepeatTab.
Section Model.
Context `{Bridge.Types}.

Record Props := {
  sessionId : jsstring;
  timeFilter : option Bridge.TimeFilter
}.

Record state := {
  repeatAnalysis : option Bridge.RepeatAnalysis;
  isLoading : bool
}.

Definition set_repeatAnalysis (v : option Bridge.RepeatAnalysis) (s : state) : state :=
  {| repeatAnalysis := v; isLoading := isLoading s |}.

Definition set_isLoading (v : bool) (s : state) : state :=
  {| repeatAnalysis := repeatAnalysis s; isLoading := v |}.

(** [loadRepeatAnalysis()] *)
Definition loadRepeatAnalysis (props : Props) (api : Bridge.oracle) : Act.M state unit :=
  if negb (JsString.truthy (sessionId props)) then mret tt
  else
    Act.modify (set_isLoading true);;
    Act.try_finally
      (Act.try_catch
         (p ← Act.issue (Bridge.GetRepeatAnalysis (sessionId props) (timeFilter props))
                (Bridge.getRepeatAnalysis api (sessionId props) (timeFilter props));
          r ← Act.await p;
          Act.modify (set_repeatAnalysis (Some r)))
         (λ error, Act.console_error "加载复读分析失败:" error))
      (Act.modify (set_isLoading false)).

(** [truncateContent(content, maxLength = 30)]; an omitted [maxLength]
    is [None]. *)
Definition truncateContent (content : jsstring) (maxLength : option Z) : jsstring :=
  let maxLength := default 30 maxLength in
  if JsString.length content <=? maxLength then content
  else JsString.concat (JsString.slice content 0 maxLength) js:"...".

End Model.
End RepeatTab.

Module QuotesTab.
Section Model.
Context `{Bridge.Types}.

Record Props := {
  sessionId : jsstring;
  timeFilter : option Bridge.TimeFilter
}.

Record state := {
  catchphraseAnalysis : option Bridge.CatchphraseAnalysis;
  isLoadingCatchphrase : bool;
  repeatAnalysis : option Bridge.RepeatAnalysis;
  isLoadingRepeat : bool
}.

Definition set_catchphraseAnalysis (v : option Bridge.CatchphraseAnalysis) (s : state) : state :=
  {| catchphraseAnalysis := v; isLoadingCatchphrase := isLoadingCatchphrase s;
     repeatAnalysis := repeatAnalysis s; isLoadingRepeat := isLoadingRepeat s |}.

Definition set_isLoadingCatchphrase (v : bool) (s : state) : state :=
  {| catchphraseAnalysis := catchphraseAnalysis s; isLoadingCatchphrase := v;
     repeatAnalysis := repeatAnalysis s; isLoadingRepeat := isLoadingRepeat s |}.

Definition set_repeatAnalysis (v : option Bridge.RepeatAnalysis) (s : state) : state :=
  {| catchphraseAnalysis := catchphraseAnalysis s;
     isLoadingCatchphrase := isLoadingCatchphrase s;
     repeatAnalysis := v; isLoadingRepeat := isLoadingRepeat s |}.

Definition set_isLoadingRepeat (v : bool) (s : state) : state :=
  {| catchphraseAnalysis := catchphraseAnalysis s;
     isLoadingCatchphrase := isLoadingCatchphrase s;
     repeatAnalysis := repeatAnalysis s; isLoadingRepeat := v |}.

(** [loadCatchphraseAnalysis()] *)
Definition loadCatchphraseAnalysis (props : Props) (api : Bridge.oracle)
  : Act.M state unit :=
  if negb (JsString.truthy (sessionId props)) then mret tt
  else
    Act.modify (set_isLoadingCatchphrase true);;
    Act.try_finally
      (Act.try_catch
         (p ← Act.issue (Bridge.GetCatchphraseAnalysis (sessionId props) (timeFilter props))
                (Bridge.getCatchphraseAnalysis api (sessionId props) (timeFilter props));
          r ← Act.await p;
          Act.modify (set_catchphraseAnalysis (Some r)))
         (λ error, Act.console_error "加载口头禅分析失败:" error))
      (Act.modify (set_isLoadingCatchphrase false)).

(** [loadRepeatAnalysis()] *)
Definition loadRepeatAnalysis (props : Props) (api : Bridge.oracle) : Act.M state unit :=
  if negb (JsString.truthy (sessionId props)) then mret tt
  else
    Act.modify (set_isLoadingRepeat true);;
    Act.try_finally
      (Act.try_catch
         (p ← Act.issue (Bridge.GetRepeatAnalysis (sessionId props) (timeFilter props))
                (Bridge.getRepeatAnalysis api (sessionId props) (timeFilter props));
          r ← Act.await p;
          Act.modify (set_repeatAnalysis (Some r)))
         (λ error, Act.console_error "加载复读分析失败:" error))
      (Act.modify (set_isLoadingRepeat false)).

(** [truncateContent(content, maxLength = 30)], the second copy. *)
Definition truncateContent (content : jsstring) (maxLength : option Z) : jsstring :=
  let maxLength := default 30 maxLength in
  if JsString.length content <=? maxLength then content
  else JsString.concat (JsString.slice content 0 maxLength) js:"...".

End Model.
End QuotesTab.

(** ** The timeline tab: nickname histories *)

Module TimelineTab.
Section Model.
Context `{Bridge.Types}.

(** The props that [loadMembersWithNicknameChanges] reads. *)
Record Props := {
  sessionId : jsstring;
  memberActivity : list Bridge.MemberActivity
}.

(** [interface MemberWithHistory] *)
Record MemberWithHistory := {
  memberId : Z;
  name : jsstring;
  history : list Bridge.MemberNameHistory
}.

Record state := {
  membersWithNicknameChanges : list MemberWithHistory;
  isLoadingHistory : bool
}.

Definition set_membersWithNicknameChanges (v : list MemberWithHistory) (s : state) : state :=
  {| membersWithNicknameChanges := v; isLoadingHistory := isLoadingHistory s |}.

Definition set_isLoadingHistory (v : bool) (s : state) : state :=
  {| membersWithNicknameChanges := membersWithNicknameChanges s; isLoadingHistory := v |}.

(** The callback of [forEach]: [membersWithChanges] is the local array it
    pushes to. *)
Definition collect (allHistories : list (list Bridge.MemberNameHistory))
    (membersWithChanges : list MemberWithHistory)
    (member : Bridge.MemberActivity) (index : nat)
  : Act.M state (list MemberWithHistory) :=
  match allHistories !! index with
  | None => Act.throw (Js.TypeError "Cannot read properties of undefined")
  | Some history =>
      if 1 <? Z.of_nat (length history)
      then mret (membersWithChanges ++
                 [{| memberId := Bridge.memberId member;
                     name := Bridge.member_name member;
                     history := history |}])
      else mret membersWithChanges
  end.

(** [loadMembersWithNicknameChanges()] *)
Definition loadMembersWithNicknameChanges (props : Props) (api : Bridge.oracle)
  : Act.M state unit :=
  if negb (JsString.truthy (sessionId props))
     || (Z.of_nat (length (memberActivity props)) =? 0)
  then mret tt
  else
    Act.modify (set_isLoadingHistory true);;
    Act.try_finally
      (Act.try_catch
         (historyPromises ←
            Act.mapM
              (λ member,
                 Act.issue
                   (Bridge.GetMemberNameHistory (sessionId props) (Bridge.memberId member))
                   (Bridge.getMemberNameHistory api (sessionId props) (Bridge.memberId member)))
              (memberActivity props);
          allHistories ← Act.await (Act.Promise_all historyPromises);
          membersWithChanges ←
            Act.forEach (memberActivity props) (collect allHistories) [];
          Act.modify (set_membersWithNicknameChanges membersWithChanges))
         (λ error, Act.console_error "加载昵称变更记录失败:" error))
      (Act.modify (set_isLoadingHistory false)).

(** The list the specification describes: the members whose history has
    more than one entry, each with its own history, in the order of
    [memberActivity]. *)
Definition members_with_changes (ms : list Bridge.MemberActivity)
    (hs : list (list Bridge.MemberNameHistory)) : list MemberWithHistory :=
  (λ mh, {| memberId := Bridge.memberId mh.1; name := Bridge.member_name mh.1;
            history := mh.2 |})
  <$> filter (λ mh, (1 < length mh.2)%nat) (zip ms hs).

End Model.
End TimelineTab.

(** ** The chat store *)

Module ChatStore.
Section Model.
Context `{Bridge.Types}.

(** [KeywordTemplate]: the store reads [id]. *)
Record KeywordTemplate := {
  template_id : jsstring;
  template_fields : Bridge.TemplateFields
}.

Record state := {
  sessions : list Bridge.AnalysisSession;
  currentSessionId : option jsstring;
  isImporting : bool;
  importProgress : option Bridge.ImportProgress;
  isInitialized : bool;
  isSidebarCollapsed : bool;
  showSettingModal : bool;
  customKeywordTemplates : list KeywordTemplate;
  deletedPresetTemplateIds : list jsstring
}.

(** The state the store is created with. *)
Definition initial : state :=
  {| sessions := []; currentSessionId := None; isImporting := false;
     importProgress := None; isInitialized := false; isSidebarCollapsed := false;
     showSettingModal := false; customKeywordTemplates := [];
     deletedPresetTemplateIds := [] |}.

Definition set_sessions (v : list Bridge.AnalysisSession) (s : state) : state :=
  {| sessions := v; currentSessionId := currentSessionId s; isImporting := isImporting s;
     importProgress := importProgress s; isInitialized := isInitialized s;
     isSidebarCollapsed := isSidebarCollapsed s; showSettingModal := showSettingModal s;
     customKeywordTemplates := customKeywordTemplates s;
     deletedPresetTemplateIds := deletedPresetTemplateIds s |}.

Definition set_currentSessionId (v : option jsstring) (s : state) : state :=
  {| sessions := sessions s; currentSessionId := v; isImporting := isImporting s;
     importProgress := importProgress s; isInitialized := isInitialized s;
     isSidebarCollapsed := isSidebarCollapsed s; showSettingModal := showSettingModal s;
     customKeywordTemplates := customKeywordTemplates s;
     deletedPresetTemplateIds := deletedPresetTemplateIds s |}.

Definition set_isImporting (v : bool) (s : state) : state :=
  {| sessions := sessions s; currentSessionId := currentSessionId s; isImporting := v;
     importProgress := importProgress s; isInitialized := isInitialized s;
     isSidebarCollapsed := isSidebarCollapsed s; showSettingModal := showSettingModal s;
     customKeywordTemplates := customKeywordTemplates s;
     deletedPresetTemplateIds := deletedPresetTemplateIds s |}.

Definition set_importProgress (v : option Bridge.ImportProgress) (s : state) : state :=
  {| sessions := sessions s; currentSessionId := currentSessionId s;
     isImporting := isImporting s; importProgress := v; isInitialized := isInitialized s;
     isSidebarCollapsed := isSidebarCollapsed s; showSettingModal := showSettingModal s;
     customKeywordTemplates := customKeywordTemplates s;
     deletedPresetTemplateIds := deletedPresetTemplateIds s |}.

Definition set_isInitialized (v : bool) (s : state) : state :=
  {| sessions := sessions s; currentSessionId := currentSessionId s;
     isImporting := isImporting s; importProgress := importProgress s; isInitialized := v;
     isSidebarCollapsed := isSidebarCollapsed s; showSettingModal := showSettingModal s;
     customKeywordTemplates := customKeywordTemplates s;
     deletedPresetTemplateIds := deletedPresetTemplateIds s |}.

Definition set_isSidebarCollapsed (v : bool) (s : state) : state :=
  {| sessions := sessions s; currentSessionId := currentSessionId s;
     isImporting := isImporting s; importProgress := importProgress s;
     isInitialized := isInitialized s; isSidebarCollapsed := v;
     showSettingModal := showSettingModal s;
     customKeywordTemplates := customKeywordTemplates s;
     deletedPresetTemplateIds := deletedPresetTemplateIds s |}.

Definition set_customKeywordTemplates (v : list KeywordTemplate) (s : state) : state :=
  {| sessions := sessions s; currentSessionId := currentSessionId s;
     isImporting := isImporting s; importProgress := importProgress s;
     isInitialized := isInitialized s; isSidebarCollapsed := isSidebarCollapsed s;
     showSettingModal := showSettingModal s; customKeywordTemplates := v;
     deletedPresetTemplateIds := deletedPresetTemplateIds s |}.

Definition set_deletedPresetTemplateIds (v : list jsstring) (s : state) : state :=
  {| sessions := sessions s; currentSessionId := currentSessionId s;
     isImporting := isImporting s; importProgress := importProgress s;
     isInitialized := isInitialized s; isSidebarCollapsed := isSidebarCollapsed s;
     showSettingModal := showSettingModal s;
     customKeywordTemplates := customKeywordTemplates s; deletedPresetTemplateIds := v |}.

(** Truthiness of a [string | null] ref. *)
Definition truthy (v : option jsstring) : bool :=
  match v with
  | Some s => JsString.truthy s
  | None => false
  end.

(** The predicate [(s) => s.id === x]; [x] is a ref that may hold [null],
    which equals no string. *)
Definition has_id (x : option jsstring) (s : Bridge.AnalysisSession) : bool :=
  bool_decide (Some (Bridge.id s) = x).

(** The computed [currentSession]. *)
Definition currentSession (st : state) : option Bridge.AnalysisSession :=
  if negb (truthy (currentSessionId st)) then None
  else JsArray.find (has_id (currentSessionId st)) (sessions st).

(** [loadSessions()] *)
Definition loadSessions (api : Bridge.oracle) : Act.M state unit :=
  Act.try_catch
    (p ← Act.issue Bridge.GetSessions (Bridge.getSessions api);
     list ← Act.await p;
     Act.modify (set_sessions list);;
     cid ← Act.gets currentSessionId;
     (if truthy cid && negb (bool_decide (is_Some (JsArray.find (has_id cid) list)))
      then Act.modify (set_currentSessionId None)
      else mret tt);;
     Act.modify (set_isInitialized true))
    (λ error,
       Act.console_error "加载会话列表失败:" error;;
       Act.modify (set_isInitialized true)).

(** [selectSession(id)] *)
Definition selectSession (id : jsstring) : Act.M state unit :=
  Act.modify (set_currentSessionId (Some id)).

(** [deleteSession(id)] *)
Definition deleteSession (id : jsstring) (api : Bridge.oracle) : Act.M state bool :=
  Act.try_catch
    (p ← Act.issue (Bridge.DeleteSession id) (Bridge.deleteSession api id);
     success ← Act.await p;
     (if success : bool
      then
        ss ← Act.gets sessions;
        let index := JsArray.findIndex (has_id (Some id)) ss in
        (if negb (index =? -1)
         then Act.modify (set_sessions (JsArray.splice1 index ss))
         else mret tt);;
        cid ← Act.gets currentSessionId;
        if bool_decide (cid = Some id)
        then Act.modify (set_currentSessionId None)
        else mret tt
      else mret tt);;
     mret success)
    (λ error,
       Act.console_error "删除会话失败:" error;;
       mret false).

(** [session.name = newName] *)
Definition set_name (newName : jsstring) (s : Bridge.AnalysisSession)
  : Bridge.AnalysisSession :=
  {| Bridge.id := Bridge.id s; Bridge.name := newName;
     Bridge.session_fields := Bridge.session_fields s |}.

(** [renameSession(id, newName)]. The object that [find] returns is the
    element of the array itself, so the assignment to its [name] shows in
    [sessions] at the position where it was found. *)
Definition renameSession (id newName : jsstring) (api : Bridge.oracle)
  : Act.M state bool :=
  Act.try_catch
    (p ← Act.issue (Bridge.RenameSession id newName) (Bridge.renameSession api id newName);
     success ← Act.await p;
     (if success : bool
      then
        ss ← Act.gets sessions;
        match list_find (λ s, has_id (Some id) s = true) ss with
        | Some (i, _) => Act.modify (set_sessions (alter (set_name newName) i ss))
        | None => mret tt
        end
      else mret tt);;
     mret success)
    (λ error,
       Act.console_error "重命名会话失败:" error;;
       mret false).

(** [clearSelection()] *)
Definition clearSelection : Act.M state unit :=
  Act.modify (set_currentSessionId None).

(** [toggleSidebar()] *)
Definition toggleSidebar : Act.M state unit :=
  Act.modify (λ s, set_isSidebarCollapsed (negb (isSidebarCollapsed s)) s).

(** [addCustomKeywordTemplate(template)] *)
Definition addCustomKeywordTemplate (template : KeywordTemplate) : Act.M state unit :=
  Act.modify (λ s, set_customKeywordTemplates (customKeywordTemplates s ++ [template]) s).

Definition has_template_id (x : jsstring) (t : KeywordTemplate) : bool :=
  bool_decide (template_id t = x).

(** [{ ...template, ...updates }] *)
Definition apply_updates (updates : Bridge.TemplateUpdates) (t : KeywordTemplate)
  : KeywordTemplate :=
  {| template_id := template_id t;
     template_fields := Bridge.spread (template_fields t) updates |}.

(** [updateCustomKeywordTemplate(templateId, updates)] *)
Definition updateCustomKeywordTemplate (templateId : jsstring)
    (updates : Bridge.TemplateUpdates) : Act.M state unit :=
  ts ← Act.gets customKeywordTemplates;
  let index := JsArray.findIndex (has_template_id templateId) ts in
  if negb (index =? -1)
  then Act.modify (set_customKeywordTemplates (alter (apply_updates updates) (Z.to_nat index) ts))
  else mret tt.

(** [removeCustomKeywordTemplate(templateId)] *)
Definition removeCustomKeywordTemplate (templateId : jsstring) : Act.M state unit :=
  ts ← Act.gets customKeywordTemplates;
  let index := JsArray.findIndex (has_template_id templateId) ts in
  if negb (index =? -1)
  then Act.modify (set_customKeywordTemplates (JsArray.splice1 index ts))
  else mret tt.

(** [addDeletedPresetTemplateId(id)] *)
Definition addDeletedPresetTemplateId (id : jsstring) : Act.M state unit :=
  ids ← Act.gets deletedPresetTemplateIds;
  if negb (JsArray.includes id ids)
  then Act.modify (set_deletedPresetTemplateIds (ids ++ [id]))
  else mret tt.

(** The actions of the store that run in one task each. The two import
    actions span several tasks; they are the subject of [ImportQueue]. *)
Inductive action : Type :=
| LoadSessions
| SelectSession (id : jsstring)
| DeleteSession (id : jsstring)
| RenameSession (id newName : jsstring)
| ClearSelection
| ToggleSidebar
| AddCustomKeywordTemplate (template : KeywordTemplate)
| UpdateCustomKeywordTemplate (templateId : jsstring) (updates : Bridge.TemplateUpdates)
| RemoveCustomKeywordTemplate (templateId : jsstring)
| AddDeletedPresetTemplateId (id : jsstring).

Definition dispatch (a : action) (api : Bridge.oracle) : Act.M state unit :=
  match a with
  | LoadSessions => loadSessions api
  | SelectSession id => selectSession id
  | DeleteSession id => deleteSession id api;; mret tt
  | RenameSession id newName => renameSession id newName api;; mret tt
  | ClearSelection => clearSelection
  | ToggleSidebar => toggleSidebar
  | AddCustomKeywordTemplate template => addCustomKeywordTemplate template
  | UpdateCustomKeywordTemplate templateId updates =>
      updateCustomKeywordTemplate templateId updates
  | RemoveCustomKeywordTemplate templateId => removeCustomKeywordTemplate templateId
  | AddDeletedPresetTemplateId id => addDeletedPresetTemplateId id
  end.

(** The invariant of the specification: [currentSession] is [null], or a
    session of the list that carries the selected id. *)
Definition selection_consistent (st : state) : Prop :=
  currentSession st = None ∨
  ∃ s, currentSession st = Some s ∧ s ∈ sessions st ∧
       currentSessionId st = Some (Bridge.id s).

(** [s], at index [i], is the first session of [ss] with the id [x]. *)
Definition first_with_id (x : jsstring) (ss : list Bridge.AnalysisSession)
    (i : nat) (s : Bridge.AnalysisSession) : Prop :=
  ss !! i = Some s ∧ Bridge.id s = x ∧
  ∀ k s0, ss !! k = Some s0 → (k < i)%nat → Bridge.id s0 ≠ x.

End Model.
End ChatStore.

(** ** [importFileFromPath] and its progress queue

    The function is asynchronous: it runs in tasks of the event loop, and
    between two tasks the listener of [onImportProgress] and the timers of
    [setTimeout] may run. A task runs to completion at one instant of the
    clock ([Date.now()] is the time of the running task), the clock never
    goes back, and a timer set for a delay [d] at time [t] fires at a time
    no earlier than [t + d]. *)

Module ImportQueue.
Section Model.
Context `{Bridge.Types}.

(** The literal ['准备导入...'], in code units. *)
Definition preparing : jsstring := [20934; 22791; 23548; 20837; 46; 46; 46]%N.

(** The literal ['导入失败'], in code units. *)
Definition import_failed : jsstring := [23548; 20837; 22833; 36133]%N.

(** [const MIN_STAGE_TIME = 1000] *)
Definition MIN_STAGE_TIME : Z := 1000.

(** An activation of [processQueue] suspended in its [await]: it holds its
    local [next] and goes on when its timer fires. *)
Record sleeper := {
  next : Bridge.ImportProgress;
  wake_at : Z
}.

(** What the function returns. *)
Record result := {
  success : bool;
  error : option jsstring
}.

(** Where the body of [importFileFromPath] stands. *)
Inductive main_phase : Type :=
| AwaitImport
| Polling (r : Bridge.ImportResult) (wake_at : Z)
| FinalStage (r : Bridge.ImportResult) (wake_at : Z)
| Show100 (r : Bridge.ImportResult) (wake_at : Z)
| Returned (r : result).

(** Who wrote to [importProgress]. *)
Inductive writer : Type :=
| Initial
| ByQueue
| Force100
| Cleared.

#[global] Instance writer_eq_dec : EqDecision writer.
Proof. solve_decision. Defined.

(** One write to [importProgress], with the time of the task that did it. *)
Record write := {
  at_time : Z;
  writer_of : writer;
  written : option Bridge.ImportProgress
}.

Record state := {
  world : Act.world ChatStore.state;
  (** the variables of the closure *)
  queue : list Bridge.ImportProgress;
  isProcessing : bool;
  currentStage : jsstring;
  lastStageTime : Z;
  (** the event loop *)
  sleepers : list sleeper;
  subscribed : bool;
  main : main_phase;
  clear_at : option Z;
  now : Z;
  (** history: what was pushed to the queue and what was written *)
  enqueued : list Bridge.ImportProgress;
  writes : list write
}.

Definition store (s : state) : ChatStore.state := Act.state (world s).

Definition set_world (v : Act.world ChatStore.state) (s : state) : state :=
  {| world := v; queue := queue s; isProcessing := isProcessing s;
     currentStage := currentStage s; lastStageTime := lastStageTime s;
     sleepers := sleepers s; subscribed := subscribed s; main := main s;
     clear_at := clear_at s; now := now s; enqueued := enqueued s; writes := writes s |}.

Definition set_store (f : ChatStore.state → ChatStore.state) (s : state) : state :=
  set_world (Act.World (f (Act.state (world s))) (Act.console (world s))
               (Act.calls (world s))) s.

Definition set_queue (v : list Bridge.ImportProgress) (s : state) : state :=
  {| world := world s; queue := v; isProcessing := isProcessing s;
     currentStage := currentStage s; lastStageTime := lastStageTime s;
     sleepers := sleepers s; subscribed := subscribed s; main := main s;
     clear_at := clear_at s; now := now s; enqueued := enqueued s; writes := writes s |}.

Definition set_isProcessing (v : bool) (s : state) : state :=
  {| world := world s; queue := queue s; isProcessing := v;
     currentStage := currentStage s; lastStageTime := lastStageTime s;
     sleepers := sleepers s; subscribed := subscribed s; main := main s;
     clear_at := clear_at s; now := now s; enqueued := enqueued s; writes := writes s |}.

(** [currentStage = stage; lastStageTime = Date.now()] *)
Definition set_stage (stage : jsstring) (t : Z) (s : state) : state :=
  {| world := world s; queue := queue s; isProcessing := isProcessing s;
     currentStage := stage; lastStageTime := t;
     sleepers := sleepers s; subscribed := subscribed s; main := main s;
     clear_at := clear_at s; now := now s; enqueued := enqueued s; writes := writes s |}.

Definition set_sleepers (v : list sleeper) (s : state) : state :=
  {| world := world s; queue := queue s; isProcessing := isProcessing s;
     currentStage := currentStage s; lastStageTime := lastStageTime s;
     sleepers := v; subscribed := subscribed s; main := main s;
     clear_at := clear_at s; now := now s; enqueued := enqueued s; writes := writes s |}.

Definition set_subscribed (v : bool) (s : state) : state :=
  {| world := world s; queue := queue s; isProcessing := isProcessing s;
     currentStage := currentStage s; lastStageTime := lastStageTime s;
     sleepers := sleepers s; subscribed := v; main := main s;
     clear_at := clear_at s; now := now s; enqueued := enqueued s; writes := writes s |}.

Definition set_main (v : main_phase) (s : state) : state :=
  {| world := world s; queue := queue s; isProcessing := isProcessing s;
     currentStage := currentStage s; lastStageTime := lastStageTime s;
     sleepers := sleepers s; subscribed := subscribed s; main := v;
     clear_at := clear_at s; now := now s; enqueued := enqueued s; writes := writes s |}.

Definition set_clear_at (v : option Z) (s : state) : state :=
  {| world := world s; queue := queue s; isProcessing := isProcessing s;
     currentStage := currentStage s; lastStageTime := lastStageTime s;
     sleepers := sleepers s; subscribed := subscribed s; main := main s;
     clear_at := v; now := now s; enqueued := enqueued s; writes := writes s |}.

Definition set_now (v : Z) (s : state) : state :=
  {| world := world s; queue := queue s; isProcessing := isProcessing s;
     currentStage := currentStage s; lastStageTime := lastStageTime s;
     sleepers := sleepers s; subscribed := subscribed s; main := main s;
     clear_at := clear_at s; now := v; enqueued := enqueued s; writes := writes s |}.

Definition record_enqueued (p : Bridge.ImportProgress) (s : state) : state :=
  {| world := world s; queue := queue s; isProcessing := isProcessing s;
     currentStage := currentStage s; lastStageTime := lastStageTime s;
     sleepers := sleepers s; subscribed := subscribed s; main := main s;
     clear_at := clear_at s; now := now s; enqueued := enqueued s ++ [p];
     writes := writes s |}.

Definition record_write (w : write) (s : state) : state :=
  {| world := world s; queue := queue s; isProcessing := isProcessing s;
     currentStage := currentStage s; lastStageTime := lastStageTime s;
     sleepers := sleepers s; subscribed := subscribed s; main := main s;
     clear_at := clear_at s; now := now s; enqueued := enqueued s;
     writes := writes s ++ [w] |}.

(** [importProgress.value = v], by the writer [who]. *)
Definition assign (t : Z) (who : writer) (v : option Bridge.ImportProgress)
    (s : state) : state :=
  record_write {| at_time := t; writer_of := who; written := v |}
    (set_store (ChatStore.set_importProgress v) s).

(** The [while] loop of [processQueue] from its head, in a task at time
    [t]; [q] is the queue. It ends when the queue is empty, or suspends at
    the [await]. *)
Fixpoint loop (t : Z) (q : list Bridge.ImportProgress) (s : state) : state :=
  match q with
  | [] => set_isProcessing false (set_queue [] s)
  | next :: q' =>
      if negb (bool_decide (Bridge.stage next = currentStage s)) then
        let elapsed := t - lastStageTime s in
        if elapsed <? MIN_STAGE_TIME then
          set_sleepers
            (sleepers s ++ [{| next := next; wake_at := t + (MIN_STAGE_TIME - elapsed) |}])
            (set_queue q s)
        else
          loop t q' (assign t ByQueue (Some next) (set_stage (Bridge.stage next) t s))
      else
        loop t q' (assign t ByQueue (Some next) s)
  end.

(** [processQueue()] *)
Definition processQueue (t : Z) (s : state) : state :=
  if isProcessing s then s
  else loop t (queue s) (set_isProcessing true s).

(** An activation going on after its [await], in a task at time [t]:
    the stage is taken from its local [next] and the value from
    [queue.shift()], which is [undefined] on an empty queue. *)
Definition resume (t : Z) (sl : sleeper) (s : state) : state :=
  let s := set_stage (Bridge.stage (next sl)) t s in
  match queue s with
  | [] => loop t [] (assign t ByQueue None s)
  | x :: q' => loop t q' (assign t ByQueue (Some x) s)
  end.

(** The listener given to [onImportProgress]. *)
Definition onProgress (t : Z) (p : Bridge.ImportProgress) (s : state) : state :=
  if bool_decide (Bridge.stage p = js:"done") then s
  else processQueue t (record_enqueued p (set_queue (queue s ++ [p]) s)).

(** The [finally] block: the flag goes down and the timer that clears
    the progress is set. *)
Definition finally_block (t : Z) (r : result) (s : state) : state :=
  set_clear_at (Some (t + 500))
    (set_store (ChatStore.set_isImporting false) (set_main (Returned r) s)).

(** From line 209 to the end of the [try] block. *)
Definition finish (api : Bridge.oracle) (t : Z) (r : Bridge.ImportResult)
    (s : state) : state :=
  if Bridge.success r && ChatStore.truthy (Bridge.sessionId r) then
    let s := set_world (snd (ChatStore.loadSessions api (world s))) s in
    let s := set_store (ChatStore.set_currentSessionId (Bridge.sessionId r)) s in
    finally_block t {| success := true; error := None |} s
  else
    finally_block t
      {| success := false;
         error := if ChatStore.truthy (Bridge.error r) then Bridge.error r
                  else Some import_failed |} s.

(** [importProgress.value.progress = 100] *)
Definition full (p : Bridge.ImportProgress) : Bridge.ImportProgress :=
  {| Bridge.stage := Bridge.stage p; Bridge.progress := 100;
     Bridge.message := Bridge.message p |}.

(** Lines 201 to 207. *)
Definition force100 (t : Z) (r : Bridge.ImportResult) (s : state) : state :=
  let s :=
    match ChatStore.importProgress (store s) with
    | Some p => assign t Force100 (Some (full p)) s
    | None => s
    end in
  set_main (Show100 r (t + 300)) s.

(** Lines 195 to 199. *)
Definition final_stage (t : Z) (r : Bridge.ImportResult) (s : state) : state :=
  let elapsed := t - lastStageTime s in
  if elapsed <? MIN_STAGE_TIME
  then set_main (FinalStage r (t + (MIN_STAGE_TIME - elapsed))) s
  else force100 t r s.

(** One test of the [while] at line 191. *)
Definition poll (t : Z) (r : Bridge.ImportResult) (s : state) : state :=
  if negb (bool_decide (queue s = [])) || isProcessing s
  then set_main (Polling r (t + 100)) s
  else final_stage t r s.

(** The start of [importFileFromPath(filePath)] up to its first [await],
    in a task at [t]. *)
Definition start (t : Z) (filePath : jsstring) (st : ChatStore.state) : state :=
  assign t Initial
    (Some {| Bridge.stage := js:"detecting"; Bridge.progress := 0;
             Bridge.message := preparing |})
    {| world := Act.World (ChatStore.set_isImporting true st) [] [Bridge.Import filePath];
       queue := []; isProcessing := false; currentStage := js:"reading";
       lastStageTime := t; sleepers := []; subscribed := true; main := AwaitImport;
       clear_at := None; now := t; enqueued := []; writes := [] |}.

(** The tasks that can run while the function is in progress. *)
Inductive task : Type :=
| Progress (p : Bridge.ImportProgress)
| Wake (i : nat)
| ImportSettled (r : completion Bridge.ImportResult)
| MainTimer
| ClearTimer.

(** What the main body does when the timer it awaits fires. *)
Definition main_timer (api : Bridge.oracle) (t : Z) (s : state) : option state :=
  match main s with
  | Polling r w => if w <=? t then Some (poll t r s) else None
  | FinalStage r w => if w <=? t then Some (force100 t r s) else None
  | Show100 r w => if w <=? t then Some (finish api t r s) else None
  | AwaitImport | Returned _ => None
  end.

(** One task at time [t]; [None] when the task cannot run then. *)
Definition step (api : Bridge.oracle) (t : Z) (k : task) (s : state) : option state :=
  if t <? now s then None
  else
    let s := set_now t s in
    match k with
    | Progress p =>
        if subscribed s then Some (onProgress t p s) else None
    | Wake i =>
        match sleepers s !! i with
        | Some sl =>
            if wake_at sl <=? t
            then Some (resume t sl (set_sleepers (delete i (sleepers s)) s))
            else None
        | None => None
        end
    | ImportSettled (Normal r) =>
        match main s with
        | AwaitImport => Some (poll t r (set_subscribed false s))
        | _ => None
        end
    | ImportSettled (Throw e) =>
        match main s with
        | AwaitImport =>
            Some (finally_block t {| success := false; error := Some (Js.String_of e) |} s)
        | _ => None
        end
    | MainTimer => main_timer api t s
    | ClearTimer =>
        match clear_at s with
        | Some w =>
            if w <=? t then Some (assign t Cleared None (set_clear_at None s)) else None
        | None => None
        end
    end.

(** A schedule: tasks with their times, in the order they run. *)
Fixpoint run (api : Bridge.oracle) (sched : list (Z * task)) (s : state) : option state :=
  match sched with
  | [] => Some s
  | (t, k) :: sched' =>
      match step api t k s with
      | Some s' => run api sched' s'
      | None => None
      end
  end.

(** The values that [processQueue] wrote to [importProgress]. *)
Definition queue_writes (s : state) : list (option Bridge.ImportProgress) :=
  written <$> filter (λ w, writer_of w = ByQueue) (writes s).

(** The events of a schedule that the listener pushes to the queue. *)
Definition pushed (sched : list (Z * task)) : list Bridge.ImportProgress :=
  omap (λ tk, match tk.2 with
              | Progress p => if bool_decide (Bridge.stage p = js:"done") then None else Some p
              | _ => None
              end) sched.

(** What is on display: nothing, or a stage and the time since which it
    has been showing. *)
Definition display : Type := option (jsstring * Z).

(** The display after a write. *)
Definition display_step (shown : display) (w : write) : display :=
  match written w with
  | None => None
  | Some p =>
      match shown with
      | Some (stage, since) =>
          if bool_decide (Bridge.stage p = stage) then shown
          else Some (Bridge.stage p, at_time w)
      | None => Some (Bridge.stage p, at_time w)
      end
  end.

(** The minimum display time, as the specification words it, at one
    write: a write that changes the stage on display, and the write that
    forces the progress to 100, come at least [MIN_STAGE_TIME] after the
    stage on display first showed. *)
Definition display_ok (shown : display) (w : write) : bool :=
  match shown, written w with
  | Some (stage, since), Some p =>
      match writer_of w with
      | Force100 => MIN_STAGE_TIME <=? at_time w - since
      | _ =>
          if bool_decide (Bridge.stage p = stage) then true
          else MIN_STAGE_TIME <=? at_time w - since
      end
  | _, _ => true
  end.

(** The same along a history of writes. *)
Fixpoint min_display (ws : list write) (shown : display) : bool :=
  match ws with
  | [] => true
  | w :: ws' => display_ok shown w && min_display ws' (display_step shown w)
  end.

Definition min_display_time_kept (ws : list write) : bool := min_display ws None.

(** The invariant of the queue: no activation of [processQueue] is
    suspended while [isProcessing] is down, and then the queue is empty;
    while it is up exactly one is suspended, on the head of the queue;
    and what the queue wrote, followed by what it holds, is what was
    pushed. *)
Definition queue_inv (s : state) : Prop :=
  (isProcessing s = false → sleepers s = [] ∧ queue s = []) ∧
  (isProcessing s = true →
   ∃ sl q', sleepers s = [sl] ∧ queue s = next sl :: q') ∧
  queue_writes s ++ (Some <$> queue s) = Some <$> enqueued s.

(** [s'] differs from [s] in nothing that the queue reads or writes. *)
Definition same_queue (s s' : state) : Prop :=
  queue s' = queue s ∧ isProcessing s' = isProcessing s ∧
  sleepers s' = sleepers s ∧ enqueued s' = enqueued s ∧
  queue_writes s' = queue_writes s.







End Model.
End ImportQueue.

(** ** The auto-update wiring of the main process *)

Module Updater.

(** A browser window, the [win] that [checkUpdate] is given. *)
Definition window := nat.

(** [ReleaseNoteInfo] of electron-updater *)
Record ReleaseNoteInfo := {
  note_version : jsstring;
  note : option jsstring
}.

(** [info.releaseNotes]: a string, an array of notes, or nothing. *)
Inductive release_notes : Type :=
| NotesText (text : jsstring)
| NotesList (notes : list ReleaseNoteInfo).

(** [UpdateInfo] of electron-updater, the fields the listeners read. *)
Record UpdateInfo := {
  version : jsstring;
  releaseNotes : option release_notes
}.

(** [ProgressInfo] of electron-updater *)
Record ProgressInfo := {
  total : Q;
  delta : Q;
  transferred : Q;
  percent : Q;
  bytesPerSecond : Q
}.

(** What [autoUpdater] emits, with the arguments the listeners get. *)
Inductive event : Type :=
| checking_for_update
| update_available (info : UpdateInfo)
| update_not_available (info : UpdateInfo)
| download_progress (progressObj : ProgressInfo)
| update_downloaded (info : UpdateInfo)
| update_cancelled (info : UpdateInfo)
| error (err : Js.exn) (ev : option jsstring).

(** The name an event is emitted under. *)
Definition event_name (e : event) : string :=
  match e with
  | checking_for_update => "checking-for-update"
  | update_available _ => "update-available"
  | update_not_available _ => "update-not-available"
  | download_progress _ => "download-progress"
  | update_downloaded _ => "update-downloaded"
  | update_cancelled _ => "update-cancelled"
  | error _ _ => "error"
  end.

(** The five arrow functions that [checkUpdate] passes to [autoUpdater.on],
    each with the variables it closes over: the window, and the cell of
    the local [showUpdateMessageBox]. *)
Inductive listener : Type :=
| OnUpdateAvailable (flag : nat)
| OnDownloadProgress (win : window)
| OnUpdateDownloaded (win : window)
| OnUpdateNotAvailable (win : window)
| OnError.

(** The callbacks given to [then] on the promise of a message box. *)
Inductive continuation : Type :=
| AfterUpdateAvailable (flag : nat)
| AfterUpdateDownloaded (win : window).

(** The [detail] of the update dialog: the question alone, or the release
    notes before it. *)
Inductive detail : Type :=
| Question
| NotesThenQuestion (releaseNotes : jsstring).

(** What is sent to the renderer next to the channel name, or printed. *)
Inductive payload : Type :=
| NoPayload
| Number (n : Q)
| Message (type message : string)
| Failure (err : Js.exn)
| Text (text : option jsstring).

(** What the main process does to the outside, in order. *)
Inductive effect : Type :=
| Send (win : window) (channel : string) (data : payload)
| ConsoleLog (text : string) (values : list payload)
| UpdateDialog (version : jsstring) (d : detail) (k : continuation)
| InstallDialog (k : continuation)
| ErrorBox (title : string) (content : list payload)
| DownloadUpdate
| QuitAndInstallIn (ms : Z)
| CheckForUpdatesIn (ms : Z).

Record state := {
  (** the listeners of [autoUpdater], by event name, in the order added *)
  listeners : gmap string (list listener);
  autoDownload : bool;
  autoInstallOnAppQuit : bool;
  (** the module variable [isFirstShow] *)
  isFirstShow : bool;
  (** the [showUpdateMessageBox] of each call of [checkUpdate] *)
  flags : list bool;
  (** [app.isQuiting] *)
  isQuiting : bool;
  effects : list effect
}.

(** The state when the module is loaded. The defaults of electron-updater
    for the two settings are [true] and [true]. *)
Definition initial : state :=
  {| listeners := ∅; autoDownload := true; autoInstallOnAppQuit := true;
     isFirstShow := true; flags := []; isQuiting := false; effects := [] |}.

Definition set_listeners (v : gmap string (list listener)) (s : state) : state :=
  {| listeners := v; autoDownload := autoDownload s;
     autoInstallOnAppQuit := autoInstallOnAppQuit s; isFirstShow := isFirstShow s;
     flags := flags s; isQuiting := isQuiting s; effects := effects s |}.

Definition set_settings (download install : bool) (s : state) : state :=
  {| listeners := listeners s; autoDownload := download;
     autoInstallOnAppQuit := install; isFirstShow := isFirstShow s;
     flags := flags s; isQuiting := isQuiting s; effects := effects s |}.

Definition set_isFirstShow (v : bool) (s : state) : state :=
  {| listeners := listeners s; autoDownload := autoDownload s;
     autoInstallOnAppQuit := autoInstallOnAppQuit s; isFirstShow := v;
     flags := flags s; isQuiting := isQuiting s; effects := effects s |}.

Definition set_flags (v : list bool) (s : state) : state :=
  {| listeners := listeners s; autoDownload := autoDownload s;
     autoInstallOnAppQuit := autoInstallOnAppQuit s; isFirstShow := isFirstShow s;
     flags := v; isQuiting := isQuiting s; effects := effects s |}.

Definition set_isQuiting (v : bool) (s : state) : state :=
  {| listeners := listeners s; autoDownload := autoDownload s;
     autoInstallOnAppQuit := autoInstallOnAppQuit s; isFirstShow := isFirstShow s;
     flags := flags s; isQuiting := v; effects := effects s |}.

Definition perform (e : effect) (s : state) : state :=
  {| listeners := listeners s; autoDownload := autoDownload s;
     autoInstallOnAppQuit := autoInstallOnAppQuit s; isFirstShow := isFirstShow s;
     flags := flags s; isQuiting := isQuiting s; effects := effects s ++ [e] |}.

(** [autoUpdater.on(name, l)] *)
Definition on (name : string) (l : listener) (s : state) : state :=
  set_listeners (<[name := default [] (listeners s !! name) ++ [l]]> (listeners s)) s.

(** [text.replace(/<[^>]*>/g, '')]: [inside] tells whether the scan is
    within a match, between its [<] and its [>]. A [<] opens a match only
    when a [>] follows somewhere. *)
Fixpoint strip_tags_from (inside : bool) (text : jsstring) : jsstring :=
  match text with
  | [] => []
  | c :: rest =>
      if inside then
        if (c =? 62)%N then strip_tags_from false rest else strip_tags_from true rest
      else if (c =? 60)%N && bool_decide (62%N ∈ rest) then strip_tags_from true rest
      else c :: strip_tags_from false rest
  end.

Definition strip_tags (text : jsstring) : jsstring := strip_tags_from false text.

(** [note.note || note]: the text of the note, or the note object itself,
    which [join] turns into a string. *)
Definition note_text (n : ReleaseNoteInfo) : jsstring :=
  match note n with
  | Some text => if JsString.truthy text then text else js:"[object Object]"
  | None => js:"[object Object]"
  end.

(** The parsing of the release notes in the [update-available] listener. *)
Definition parse_release_notes (info : UpdateInfo) : jsstring :=
  match releaseNotes info with
  | Some (NotesText text) =>
      if JsString.truthy text then JsString.trim (strip_tags text) else []
  | Some (NotesList notes) =>
      JsString.trim (strip_tags (JsString.join [10%N] (note_text <$> notes)))
  | None => []
  end.

Definition detail_of (releaseNotes : jsstring) : detail :=
  if JsString.truthy releaseNotes then NotesThenQuestion releaseNotes else Question.

(** The body of a listener, called with the arguments of [e]. The emitter
    calls a listener only for events of the name it was added under; the
    bodies below are those of the source for these events, and a listener
    does nothing on the arguments of another event. *)
Definition call (l : listener) (e : event) (s : state) : state :=
  match l, e with
  | OnUpdateAvailable flag, update_available info =>
      if default false (flags s !! flag) then s
      else
        let s := set_flags (<[flag := true]> (flags s)) s in
        perform (UpdateDialog (version info) (detail_of (parse_release_notes info))
                   (AfterUpdateAvailable flag)) s
  | OnDownloadProgress win, download_progress progressObj =>
      let s := perform (ConsoleLog "更新下载进度: %" [Number (percent progressObj)]) s in
      perform (Send win "update-download-progress" (Number (percent progressObj))) s
  | OnUpdateDownloaded win, update_downloaded _ =>
      perform (InstallDialog (AfterUpdateDownloaded win)) s
  | OnUpdateNotAvailable win, update_not_available _ =>
      if isFirstShow s then set_isFirstShow false s
      else perform (Send win "show-message" (Message "success" "已是最新版本")) s
  | OnError, error err ev =>
      let s := perform (ConsoleLog "error事件：" [Failure err; Text ev]) s in
      perform (ErrorBox "遇到错误" [Failure err; Text ev]) s
  | _, _ => s
  end.

(** [autoUpdater.emit(...)], as electron-updater does it: the listeners
    added under the name of the event run in the order they were added. *)
Definition emit (e : event) (s : state) : state :=
  foldl (λ s l, call l e s) s (default [] (listeners s !! event_name e)).

(** The callback of a message box, once the user has answered. *)
Definition dialog_closed (k : continuation) (response : Z) (s : state) : state :=
  match k with
  | AfterUpdateAvailable flag =>
      let s := set_flags (<[flag := false]> (flags s)) s in
      if response =? 0 then perform DownloadUpdate s else s
  | AfterUpdateDownloaded win =>
      if response =? 0 then
        let s := perform (Send win "begin-install" NoPayload) s in
        let s := set_isQuiting true s in
        perform (QuitAndInstallIn 100) s
      else s
  end.

(** The callbacks on the promise of [downloadUpdate()]. *)
Definition download_settled (r : completion unit) (s : state) : state :=
  match r with
  | Normal _ => perform (ConsoleLog "wait for post download operation" []) s
  | Throw downloadError => perform (ErrorBox "客户端下载失败" [Failure downloadError]) s
  end.

(** The callback on the promise of [checkForUpdates()], when it rejects. *)
Definition check_failed (err : Js.exn) (s : state) : state :=
  perform (ConsoleLog "[Update] 检查更新失败:" [Failure err]) s.

(** [checkUpdate(win)] *)
Definition checkUpdate (win : window) (s : state) : state :=
  let s := set_settings false true s in
  let flag := length (flags s) in
  let s := set_flags (flags s ++ [false]) s in
  let s := on "update-available" (OnUpdateAvailable flag) s in
  let s := on "download-progress" (OnDownloadProgress win) s in
  let s := on "update-downloaded" (OnUpdateDownloaded win) s in
  let s := on "update-not-available" (OnUpdateNotAvailable win) s in
  let s := on "error" OnError s in
  perform (CheckForUpdatesIn 3000) s.

(** What has been sent to the renderer, in order. *)
Definition sent (s : state) : list (window * string * payload) :=
  omap (λ e, match e with
             | Send win channel data => Some (win, channel, data)
             | _ => None
             end) (effects s).

(** The five events of the specification, by name. *)
Definition update_events : list string :=
  ["update-available"; "download-progress"; "update-downloaded";
   "update-not-available"; "error"].

End Updater.

(** ** The chat store: choosing a file to import *)

Module ImportFile.

(** What [window.chatApi.selectFile] resolves to, when not to [null]. *)
Record SelectResult := {
  filePath : option jsstring;
  error : option jsstring
}.

(** The literal ['未选择文件'], in code units. *)
Definition no_file_selected : jsstring := [26410; 36873; 25321; 25991; 20214]%N.

(** How [importFile] goes on after the dialog: it returns at once, the
    store as it was, or it is inside [importFileFromPath]. *)
Inductive outcome `{Bridge.Types} : Type :=
| Returns (r : ImportQueue.result)
| Imports (s : ImportQueue.state).

Section Model.
Context `{Bridge.Types}.

(** [importFile()], the dialog closing in a task at [t]. *)
Definition importFile (t : Z) (selected : completion (option SelectResult))
    (st : ChatStore.state) : outcome :=
  match selected with
  | Normal None =>
      Returns {| ImportQueue.success := false;
                 ImportQueue.error := Some no_file_selected |}
  | Normal (Some result) =>
      if negb (Changelog.truthy (filePath result))
      then Returns {| ImportQueue.success := false;
                      ImportQueue.error := Some no_file_selected |}
      else if Changelog.truthy (error result)
      then Returns {| ImportQueue.success := false;
                      ImportQueue.error := error result |}
      else Imports (ImportQueue.start t (default [] (filePath result)) st)
  | Throw e =>
      Returns {| ImportQueue.success := false;
                 ImportQueue.error := Some (Js.String_of e) |}
  end.

End Model.
End ImportFile.

(** ** The course of an import

    What a schedule does to the import as a whole: whether the promise
    of the import settles in it, what the body of [importFileFromPath]
    has touched of the store, and who has written to [importProgress]. *)

Module ImportFlow.
Section Model.
Context `{Bridge.Types}.

(** Who wrote to [importProgress], in the order of the writes. *)
Definition writers (s : ImportQueue.state) : list ImportQueue.writer :=
  ImportQueue.writer_of <$> ImportQueue.writes s.

(** The promise of the import is fulfilled with [r], or rejected with
    [e], by a task of the schedule. *)
Definition resolved (sched : list (Z * ImportQueue.task)) (r : Bridge.ImportResult) : Prop :=
  ∃ t, (t, ImportQueue.ImportSettled (Normal r)) ∈ sched.

Definition rejected (sched : list (Z * ImportQueue.task)) (e : Js.exn) : Prop :=
  ∃ t, (t, ImportQueue.ImportSettled (Throw e)) ∈ sched.

(** The sessions and the selection are those of the store [st] that the
    import started from, and the bridge has been asked for the import of
    [filePath] and nothing else. *)
Definition untouched (filePath : jsstring) (st : ChatStore.state)
    (s : ImportQueue.state) : Prop :=
  ChatStore.sessions (ImportQueue.store s) = ChatStore.sessions st ∧
  ChatStore.currentSessionId (ImportQueue.store s) = ChatStore.currentSessionId st ∧
  Act.calls (ImportQueue.world s) = [Bridge.Import filePath].

(** Only the start of the import and the queue have written so far. *)
Definition before_100 (s : ImportQueue.state) : Prop :=
  Forall (λ who, who = ImportQueue.Initial ∨ who = ImportQueue.ByQueue) (writers s).

(** The progress has been forced to 100, once: after the writes of the
    start and of the queue, and with nothing but the clearing after it. *)
Definition at_100 (s : ImportQueue.state) : Prop :=
  ∃ ws cs, writers s = ws ++ ImportQueue.Force100 :: cs ∧
    Forall (λ who, who = ImportQueue.Initial ∨ who = ImportQueue.ByQueue) ws ∧
    Forall (λ who, who = ImportQueue.Cleared) cs.

(** What [importFileFromPath] returns when the import is fulfilled with
    [ir]. *)
Definition returns_for (ir : Bridge.ImportResult) (r : ImportQueue.result) : Prop :=
  ImportQueue.success r = Bridge.success ir && ChatStore.truthy (Bridge.sessionId ir) ∧
  ImportQueue.error r
  = if ImportQueue.success r then None
    else if ChatStore.truthy (Bridge.error ir) then Bridge.error ir
         else Some ImportQueue.import_failed.

(** [s'] differs from [s] in nothing that the body of the function sets
    outside the queue. *)
Definition same_flow (s s' : ImportQueue.state) : Prop :=
  ImportQueue.main s' = ImportQueue.main s ∧
  ImportQueue.subscribed s' = ImportQueue.subscribed s ∧
  ImportQueue.clear_at s' = ImportQueue.clear_at s ∧
  ChatStore.isImporting (ImportQueue.store s') = ChatStore.isImporting (ImportQueue.store s) ∧
  ChatStore.sessions (ImportQueue.store s') = ChatStore.sessions (ImportQueue.store s) ∧
  ChatStore.currentSessionId (ImportQueue.store s')
  = ChatStore.currentSessionId (ImportQueue.store s) ∧
  Act.calls (ImportQueue.world s') = Act.calls (ImportQueue.world s).

(** The import is under way: the flag is up, no clearing is set, the
    store is untouched and a progress is on display. *)
Definition running (filePath : jsstring) (st : ChatStore.state)
    (s : ImportQueue.state) : Prop :=
  ImportQueue.clear_at s = None ∧
  ChatStore.isImporting (ImportQueue.store s) = true ∧
  untouched filePath st s ∧ before_100 s ∧
  ChatStore.importProgress (ImportQueue.store s) ≠ None.

(** The invariant of the course of an import, by where the body stands. *)
Definition flow_inv (filePath : jsstring) (st : ChatStore.state)
    (s : ImportQueue.state) : Prop :=
  match ImportQueue.main s with
  | ImportQueue.AwaitImport =>
      ImportQueue.subscribed s = true ∧ running filePath st s
  | ImportQueue.Polling _ _ =>
      ImportQueue.subscribed s = false ∧ running filePath st s
  | ImportQueue.FinalStage _ _ =>
      ImportQueue.subscribed s = false ∧ running filePath st s ∧
      ImportQueue.isProcessing s = false
  | ImportQueue.Show100 _ _ =>
      ImportQueue.subscribed s = false ∧ ImportQueue.clear_at s = None ∧
      ChatStore.isImporting (ImportQueue.store s) = true ∧
      untouched filePath st s ∧ at_100 s ∧ ImportQueue.isProcessing s = false
  | ImportQueue.Returned r =>
      ChatStore.isImporting (ImportQueue.store s) = false ∧
      if ImportQueue.subscribed s
      then ImportQueue.success r = false ∧ untouched filePath st s ∧
           ImportQueue.Force100 ∉ writers s
      else ImportQueue.isProcessing s = false ∧ at_100 s ∧
           if ImportQueue.success r
           then Act.calls (ImportQueue.world s)
                = [Bridge.Import filePath; Bridge.GetSessions]
           else untouched filePath st s
  end.

(** The import has been fulfilled with [ir], and the body is past it. *)
Definition carries (ir : Bridge.ImportResult) (s : ImportQueue.state) : Prop :=
  ImportQueue.subscribed s = false ∧
  match ImportQueue.main s with
  | ImportQueue.AwaitImport => False
  | ImportQueue.Polling r _ | ImportQueue.FinalStage r _ | ImportQueue.Show100 r _ => r = ir
  | ImportQueue.Returned r =>
      returns_for ir r ∧
      (ImportQueue.success r = true →
       ChatStore.currentSessionId (ImportQueue.store s) = Bridge.sessionId ir)
  end.

(** The import has been rejected with [e], and the function has
    returned. *)
Definition failed (e : Js.exn) (s : ImportQueue.state) : Prop :=
  ImportQueue.subscribed s = true ∧
  ImportQueue.main s
  = ImportQueue.Returned {| ImportQueue.success := false;
                            ImportQueue.error := Some (Js.String_of e) |}.

End Model.
End ImportFlow.

(** ** The timeline tab: statistics of the daily activity *)

Module TimelineStats.

(** The functions of dayjs that the statistics call: parameters of the
    model. *)
Class Dayjs := {
  (** [dayjs(date).year()] *)
  year : jsstring → Z;
  (** [dayjs(date).format(template)] *)
  format : jsstring → string → jsstring;
  (** [dayjs.unix(end).diff(dayjs.unix(start), 'day')] *)
  diff_days : Z → Z → Z
}.

(** [DailyActivity]: a day and the number of its messages. *)
Record DailyActivity := {
  date : jsstring;
  messageCount : Q
}.

Record TimeRange := {
  start : Z;
  end_ : Z
}.

(** The props that the statistics read. *)
Record Props := {
  dailyActivity : list DailyActivity;
  timeRange : option TimeRange
}.

(** [LineChartData] *)
Record LineChartData := {
  labels : list jsstring;
  values : list Q
}.

Section Model.
Context `{Dayjs}.

(** [Math.ceil] and [Math.floor] *)
Definition Math_ceil (x : Q) : Z := Qceiling x.
Definition Math_floor (x : Q) : Z := Qfloor x.

(** The computed [isMultiYear]: the [Set] of the years has more than one
    element. *)
Definition isMultiYear (props : Props) : bool :=
  if Z.of_nat (length (dailyActivity props)) <? 2 then false
  else
    let years : gset Z := list_to_set ((λ d, year (date d)) <$> dailyActivity props) in
    1 <? Z.of_nat (size years).

Definition dateFormat (props : Props) : string :=
  if isMultiYear props then "YYYY/MM/DD" else "MM/DD".

(** [chunk.reduce((sum, d) => sum + d.messageCount, 0)] *)
Definition total (chunk : list DailyActivity) : Q :=
  foldl (λ sum d, (sum + messageCount d)%Q) 0%Q chunk.

(** [const maxPoints = 50] *)
Definition maxPoints : Z := 50.

(** The [for] loop of [dailyChartData], from the index [i] on; [acc] holds
    the two arrays it pushes to. [None] when [fuel] iterations do not end
    the loop. Reading [.date] off [undefined] throws a TypeError. *)
Fixpoint aggregate (fuel : nat) (props : Props) (groupSize i : Z)
    (acc : LineChartData) : option (completion LineChartData) :=
  let rawData := dailyActivity props in
  if i <? Z.of_nat (length rawData) then
    match fuel with
    | O => None
    | S fuel' =>
        let chunk := JsArray.slice rawData i (i + groupSize) in
        if Z.of_nat (length chunk) =? 0
        then aggregate fuel' props groupSize (i + groupSize) acc
        else
          let midIndex := Math_floor (inject_Z (Z.of_nat (length chunk)) / 2) in
          match RankList.element chunk midIndex with
          | None => Some (Throw (Js.TypeError "Cannot read properties of undefined"))
          | Some mid =>
              let totalMessages := total chunk in
              let avgMessages :=
                Js.Math_round (totalMessages / inject_Z (Z.of_nat (length chunk))) in
              aggregate fuel' props groupSize (i + groupSize)
                {| labels := labels acc ++ [format (date mid) (dateFormat props)];
                   values := values acc ++ [inject_Z avgMessages] |}
          end
    end
  else Some (Normal acc).

(** The computed [dailyChartData]. As many iterations as there are days
    are given to the loop. *)
Definition dailyChartData (props : Props) : option (completion LineChartData) :=
  let rawData := dailyActivity props in
  if Z.of_nat (length rawData) <=? maxPoints then
    Some (Normal
            {| labels := (λ d, format (date d) (dateFormat props)) <$> rawData;
               values := messageCount <$> rawData |})
  else
    let groupSize := Math_ceil (inject_Z (Z.of_nat (length rawData)) / inject_Z maxPoints) in
    aggregate (length rawData) props groupSize 0 {| labels := []; values := [] |}.

(** [d.messageCount > max.messageCount] *)
Definition more_messages (d max : DailyActivity) : bool :=
  negb (Qle_bool (messageCount d) (messageCount max)).

(** The computed [peakDay]. *)
Definition peakDay (props : Props) : option DailyActivity :=
  match dailyActivity props with
  | [] => None
  | first :: _ =>
      Some (foldl (λ max d, if more_messages d max then d else max) first
              (dailyActivity props))
  end.

(** The computed [avgDailyMessages]. *)
Definition avgDailyMessages (props : Props) : Z :=
  match dailyActivity props with
  | [] => 0
  | _ :: _ =>
      Js.Math_round (total (dailyActivity props)
                     / inject_Z (Z.of_nat (length (dailyActivity props))))
  end.





End Model.
End TimelineStats.

(** ** The changelog modal *)

Module ChangelogModal.

Inductive change_type : Type := Feat | Fix | Chore | Style.

Record Change := {
  type : change_type;
  items : list jsstring
}.

(** [interface ChangelogItem] *)
Record ChangelogItem := {
  version : jsstring;
  date : jsstring;
  summary : jsstring;
  changes : list Change
}.

(** What [window.api.app.fetchRemoteConfig] resolves to. *)
Record RemoteConfig := {
  success : bool;
  data : option (list ChangelogItem);
  error : option jsstring
}.

(** What the main process answers to the two calls of the component. *)
Record app_api := {
  getVersion : completion jsstring;
  fetchRemoteConfig : jsstring → completion RemoteConfig
}.

Inductive request : Type :=
| GetVersion
| FetchRemoteConfig (url : jsstring).

(** A callback handed to [setTimeout] by [checkNewVersion]: the two
    variables it closes over. *)
Record timer := {
  timer_data : list ChangelogItem;
  timer_version : jsstring
}.

(** The refs of the component, the part of [localStorage] it uses, the
    timers it has set and the calls it has made to the main process. *)
Record state := {
  showModal : bool;
  isLoading : bool;
  loadError : option jsstring;
  expandedState : gmap jsstring bool;
  currentAppVersion : option jsstring;
  changelogs : list ChangelogItem;
  localStorage : gmap string jsstring;
  timers : list timer;
  requests : list request
}.

Definition initial (storage : gmap string jsstring) : state :=
  {| showModal := false; isLoading := false; loadError := None;
     expandedState := ∅; currentAppVersion := None; changelogs := [];
     localStorage := storage; timers := []; requests := [] |}.

Definition set_showModal (v : bool) (s : state) : state :=
  {| showModal := v; isLoading := isLoading s; loadError := loadError s;
     expandedState := expandedState s; currentAppVersion := currentAppVersion s;
     changelogs := changelogs s; localStorage := localStorage s;
     timers := timers s; requests := requests s |}.

Definition set_isLoading (v : bool) (s : state) : state :=
  {| showModal := showModal s; isLoading := v; loadError := loadError s;
     expandedState := expandedState s; currentAppVersion := currentAppVersion s;
     changelogs := changelogs s; localStorage := localStorage s;
     timers := timers s; requests := requests s |}.

Definition set_loadError (v : option jsstring) (s : state) : state :=
  {| showModal := showModal s; isLoading := isLoading s; loadError := v;
     expandedState := expandedState s; currentAppVersion := currentAppVersion s;
     changelogs := changelogs s; localStorage := localStorage s;
     timers := timers s; requests := requests s |}.

Definition set_expandedState (v : gmap jsstring bool) (s : state) : state :=
  {| showModal := showModal s; isLoading := isLoading s; loadError := loadError s;
     expandedState := v; currentAppVersion := currentAppVersion s;
     changelogs := changelogs s; localStorage := localStorage s;
     timers := timers s; requests := requests s |}.

Definition set_currentAppVersion (v : option jsstring) (s : state) : state :=
  {| showModal := showModal s; isLoading := isLoading s; loadError := loadError s;
     expandedState := expandedState s; currentAppVersion := v;
     changelogs := changelogs s; localStorage := localStorage s;
     timers := timers s; requests := requests s |}.

Definition set_changelogs (v : list ChangelogItem) (s : state) : state :=
  {| showModal := showModal s; isLoading := isLoading s; loadError := loadError s;
     expandedState := expandedState s; currentAppVersion := currentAppVersion s;
     changelogs := v; localStorage := localStorage s;
     timers := timers s; requests := requests s |}.

Definition set_localStorage (v : gmap string jsstring) (s : state) : state :=
  {| showModal := showModal s; isLoading := isLoading s; loadError := loadError s;
     expandedState := expandedState s; currentAppVersion := currentAppVersion s;
     changelogs := changelogs s; localStorage := v;
     timers := timers s; requests := requests s |}.

Definition set_timers (v : list timer) (s : state) : state :=
  {| showModal := showModal s; isLoading := isLoading s; loadError := loadError s;
     expandedState := expandedState s; currentAppVersion := currentAppVersion s;
     changelogs := changelogs s; localStorage := localStorage s;
     timers := v; requests := requests s |}.

Definition set_requests (v : list request) (s : state) : state :=
  {| showModal := showModal s; isLoading := isLoading s; loadError := loadError s;
     expandedState := expandedState s; currentAppVersion := currentAppVersion s;
     changelogs := changelogs s; localStorage := localStorage s;
     timers := timers s; requests := v |}.

Definition CHANGELOG_READ_KEY : string := "chatlab_changelog_read_version".
Definition AGREEMENT_KEY : string := "chatlab_agreement_version".

(** [isCurrentVersion(version)] on the [currentAppVersion] ref. *)
Definition isCurrentVersion (s : state) (version : jsstring) : bool :=
  Changelog.isCurrentVersion (currentAppVersion s) version.

(** [isExpanded(version, index)] *)
Definition isExpanded (s : state) (version : jsstring) (index : Z) : bool :=
  match expandedState s !! version with
  | Some expanded => expanded
  | None =>
      if Changelog.truthy (currentAppVersion s)
      then isCurrentVersion s version
      else index =? 0
  end.

(** [toggleVersion(version, index)] *)
Definition toggleVersion (version : jsstring) (index : Z) (s : state) : state :=
  let currentState := isExpanded s version index in
  set_expandedState (<[version := negb currentState]> (expandedState s)) s.

(** [getChangelogUrl(lang)] *)
Definition getChangelogUrl (lang : jsstring) : jsstring :=
  let langPath := if bool_decide (lang = js:"zh-CN") then js:"cn" else js:"en" in
  JsString.concat (JsString.concat js:"https://chatlab.fun/" langPath)
                  js:"/changelogs.json".

(** [markVersionAsRead(version)] *)
Definition markVersionAsRead (version : jsstring) (s : state) : state :=
  set_localStorage (<[CHANGELOG_READ_KEY := version]> (localStorage s)) s.

(** [openWithData(data, appVersion)]; [appVersion || null] turns the empty
    string into [null]. *)
Definition openWithData (data : list ChangelogItem) (appVersion : option jsstring)
    (s : state) : state :=
  let s := set_changelogs data s in
  let s := set_currentAppVersion
             (if Changelog.truthy appVersion then appVersion else None) s in
  let s := set_expandedState ∅ s in
  set_showModal true s.

(** [close()] *)
Definition close (s : state) : state := set_showModal false s.

(** [getLatestVersion()]: [changelogs.value[0]?.version || null] *)
Definition getLatestVersion (s : state) : option jsstring :=
  match changelogs s with
  | [] => None
  | latest :: _ => if JsString.truthy (version latest) then Some (version latest) else None
  end.

(** The callback that [checkNewVersion] hands to [setTimeout], and the
    event loop running the oldest timer that is set. *)
Definition timer_fires (tm : timer) (s : state) : state :=
  markVersionAsRead (timer_version tm)
    (openWithData (timer_data tm) (Some (timer_version tm)) s).

Definition fire_timer (s : state) : option state :=
  match timers s with
  | [] => None
  | tm :: rest => Some (timer_fires tm (set_timers rest s))
  end.

Section Model.
(** [locale] of the settings store and [t] of vue-i18n. *)
Variable locale : jsstring.
Variable t : string → jsstring.

(** Awaiting a call to the main process: the call is recorded, then the
    answer comes. *)
Definition call {A} (r : request) (answer : completion A) : Act.M state A :=
  Act.modify (λ s, set_requests (requests s ++ [r]) s);;
  Act.await answer.

(** [new Error(message)], kept by what [String] makes of it. *)
Definition Error (message : jsstring) : Js.exn :=
  Js.Rejection (JsString.concat js:"Error: " message).

(** [result.error || 'Failed to fetch'] *)
Definition failure_message (result : RemoteConfig) : jsstring :=
  if Changelog.truthy (error result) then default [] (error result)
  else js:"Failed to fetch".

(** [fetchChangelogs()] *)
Definition fetchChangelogs (api : app_api) : Act.M state unit :=
  Act.modify (set_isLoading true);;
  Act.modify (set_loadError None);;
  Act.try_finally
    (Act.try_catch
       (let url := getChangelogUrl locale in
        result ← call (FetchRemoteConfig url) (fetchRemoteConfig api url);
        match success result, data result with
        | true, Some items => Act.modify (set_changelogs items)
        | _, _ => Act.throw (Error (failure_message result))
        end)
       (λ error,
          Act.console_error "Failed to fetch changelogs:" error;;
          Act.modify (set_loadError (Some (t "home.changelog.loadError")))))
    (Act.modify (set_isLoading false)).

(** The watcher of [locale]. *)
Definition locale_changed (api : app_api) : Act.M state unit :=
  s ← Act.gets (λ s, s);
  if showModal s && (0 <? Z.of_nat (length (changelogs s)))
  then fetchChangelogs api
  else mret tt.

(** [checkNewVersion()]; each [return] of the source ends a branch with
    [mret tt]. *)
Definition checkNewVersion (api : app_api) : Act.M state unit :=
  Act.try_catch
    (acceptedAgreement ← Act.gets (λ s, localStorage s !! AGREEMENT_KEY);
     if negb (Changelog.truthy acceptedAgreement) then mret tt else
     rawVersion ← call GetVersion (getVersion api);
     let currentVersion := Changelog.normalizeVersion (Some rawVersion) in
     if negb (Changelog.truthy currentVersion) then mret tt else
     stored ← Act.gets (λ s, localStorage s !! CHANGELOG_READ_KEY);
     let readVersion := Changelog.normalizeVersion stored in
     if Changelog.truthy readVersion && bool_decide (readVersion = currentVersion)
     then mret tt else
     let url := getChangelogUrl locale in
     result ← call (FetchRemoteConfig url) (fetchRemoteConfig api url);
     match success result, data result with
     | true, Some data =>
         let latestChangelogVersion := version <$> head data in
         if negb (Changelog.truthy latestChangelogVersion) then mret tt else
         let currentVersionExists :=
           existsb (λ log, bool_decide
                      (Changelog.normalizeVersion (Some (version log)) = currentVersion))
                   data in
         if negb currentVersionExists then mret tt else
         Act.modify (λ s, set_timers
                            (timers s ++ [{| timer_data := data;
                                             timer_version := default [] currentVersion |}])
                            s)
     | _, _ => mret tt
     end)
    (λ error, Act.console_error "Failed to check new version:" error).

(** When [checkNewVersion] finds the changelog due: the agreement is
    accepted, the version of the application is known and has not been
    read, and the changelog fetched begins with a version and has an entry
    for the version of the application. *)
Definition due (api : app_api) (storage : gmap string jsstring) (tm : timer) : Prop :=
  Changelog.truthy (storage !! AGREEMENT_KEY) = true ∧
  (∃ rawVersion, getVersion api = Normal rawVersion ∧
     Changelog.normalizeVersion (Some rawVersion) = Some (timer_version tm)) ∧
  timer_version tm ≠ [] ∧
  Changelog.normalizeVersion (storage !! CHANGELOG_READ_KEY) ≠ Some (timer_version tm) ∧
  (∃ result, fetchRemoteConfig api (getChangelogUrl locale) = Normal result ∧
     success result = true ∧ data result = Some (timer_data tm)) ∧
  (∃ latest, head (timer_data tm) = Some latest ∧ version latest ≠ []) ∧
  (∃ log, log ∈ timer_data tm ∧
     Changelog.normalizeVersion (Some (version log)) = Some (timer_version tm)).

(** [open()]. The call of [fetchChangelogs] is not awaited; nothing of
    [open] follows it, so its steps are taken here as they come. *)
Definition open (api : app_api) : Act.M state unit :=
  Act.try_catch
    (v ← call GetVersion (getVersion api);
     Act.modify (set_currentAppVersion (Changelog.normalizeVersion (Some v))))
    (λ _, Act.modify (set_currentAppVersion None));;
  Act.modify (set_expandedState ∅);;
  Act.modify (set_showModal true);;
  s ← Act.gets (λ s, s);
  if Z.of_nat (length (changelogs s)) =? 0
  then fetchChangelogs api
  else mret tt.

End Model.
End ChangelogModal.

(** ** Sample data

    A small instance of the display types, and values over it, on which
    the properties below are exercised. *)

Module Sample.

#[global] Instance types : Bridge.Types :=
  {| Bridge.RepeatAnalysis := list jsstring;
     Bridge.CatchphraseAnalysis := list jsstring;
     Bridge.MemberNameHistory := jsstring;
     Bridge.SessionFields := Z;
     Bridge.MemberFields := Z;
     Bridge.TemplateFields := list jsstring;
     Bridge.TemplateUpdates := list jsstring;
     Bridge.spread := λ fields updates, updates ++ fields |}.

Definition session (id name : jsstring) (messages : Z) : Bridge.AnalysisSession :=
  {| Bridge.id := id; Bridge.name := name; Bridge.session_fields := messages |}.

Definition member (memberId : Z) (name : jsstring) : Bridge.MemberActivity :=
  {| Bridge.memberId := memberId; Bridge.member_name := name;
     Bridge.member_fields := 0 |}.

(** A store with two sessions, the second one selected. *)
Definition store : ChatStore.state :=
  ChatStore.set_currentSessionId (Some js:"s2")
    (ChatStore.set_sessions [session js:"s1" js:"family" 120; session js:"s2" js:"work" 45]
       ChatStore.initial).

(** A bridge on which every call fails. *)
Definition offline : Bridge.oracle :=
  {| Bridge.getSessions := Throw (Js.Rejection js:"offline");
     Bridge.deleteSession := λ _, Throw (Js.Rejection js:"offline");
     Bridge.renameSession := λ _ _, Throw (Js.Rejection js:"offline");
     Bridge.getRepeatAnalysis := λ _ _, Throw (Js.Rejection js:"offline");
     Bridge.getCatchphraseAnalysis := λ _ _, Throw (Js.Rejection js:"offline");
     Bridge.getMemberNameHistory := λ _ _, Throw (Js.Rejection js:"offline") |}.

(** A bridge that answers every call: member 7 has changed nickname once,
    no other member has. *)
Definition online : Bridge.oracle :=
  {| Bridge.getSessions := Normal [session js:"s1" js:"family" 120];
     Bridge.deleteSession := λ _, Normal true;
     Bridge.renameSession := λ _ _, Normal true;
     Bridge.getRepeatAnalysis := λ _ _, Normal [js:"+1"];
     Bridge.getCatchphraseAnalysis := λ _ _, Normal [js:"ok"];
     Bridge.getMemberNameHistory :=
       λ _ memberId, Normal (if memberId =? 7 then [js:"old"; js:"new"] else [js:"only"]) |}.

(** A bridge that answers [false] to the two session updates. *)
Definition refusing : Bridge.oracle :=
  {| Bridge.getSessions := Normal [];
     Bridge.deleteSession := λ _, Normal false;
     Bridge.renameSession := λ _ _, Normal false;
     Bridge.getRepeatAnalysis := λ _ _, Normal [];
     Bridge.getCatchphraseAnalysis := λ _ _, Normal [];
     Bridge.getMemberNameHistory := λ _ _, Normal [] |}.

Definition progress (stage : jsstring) (percent : Z) : Bridge.ImportProgress :=
  {| Bridge.stage := stage; Bridge.progress := inject_Z percent;
     Bridge.message := [] |}.

Definition imported : Bridge.ImportResult :=
  {| Bridge.success := true; Bridge.sessionId := Some js:"s1"; Bridge.error := None |}.

End Sample.

(** ** Sample days

    A calendar for ISO dates, and a few days of activity. *)

Module SampleDays.

(** The number that the decimal digits of [s] write. *)
Definition decimal (s : jsstring) : Z :=
  foldl (λ n c, 10 * n + (Z.of_N c - 48)) 0 s.

#[global] Instance calendar : TimelineStats.Dayjs :=
  {| TimelineStats.year := λ date, decimal (take 4 date);
     TimelineStats.format := λ date template,
       if bool_decide (template = "MM/DD"%string)
       then JsString.concat (JsString.concat (take 2 (drop 5 date)) js:"/")
                            (take 2 (drop 8 date))
       else JsString.concat
              (JsString.concat
                 (JsString.concat (JsString.concat (take 4 date) js:"/")
                                  (take 2 (drop 5 date))) js:"/")
              (take 2 (drop 8 date));
     TimelineStats.diff_days := λ end_ start, Z.quot (end_ - start) 86400 |}.

Definition day (date : jsstring) (messages : Z) : TimelineStats.DailyActivity :=
  {| TimelineStats.date := date; TimelineStats.messageCount := inject_Z messages |}.

(** Four days around a new year, one of them silent. *)
Definition new_year : TimelineStats.Props :=
  {| TimelineStats.dailyActivity :=
       [day js:"2023-12-30" 12; day js:"2023-12-31" 40; day js:"2024-01-01" 0;
        day js:"2024-01-02" 40];
     TimelineStats.timeRange :=
       Some {| TimelineStats.start := 1703894400; TimelineStats.end_ := 1704196800 |} |}.

End SampleDays.

(** ** A sample changelog

    A main process that reports version [v1.2.0] and serves a changelog of
    two entries, and a user who has accepted the agreement. *)

Module SampleChangelog.

Definition entry (version : jsstring) : ChangelogModal.ChangelogItem :=
  {| ChangelogModal.version := version; ChangelogModal.date := js:"2025-01-01";
     ChangelogModal.summary := js:"summary"; ChangelogModal.changes := [] |}.

Definition entries : list ChangelogModal.ChangelogItem :=
  [entry js:"1.2.0"; entry js:"1.1.0"].

Definition api : ChangelogModal.app_api :=
  {| ChangelogModal.getVersion := Normal js:"v1.2.0";
     ChangelogModal.fetchRemoteConfig := λ _,
       Normal {| ChangelogModal.success := true;
                 ChangelogModal.data := Some entries;
                 ChangelogModal.error := None |} |}.

Definition storage : gmap string jsstring :=
  {[ ChangelogModal.AGREEMENT_KEY := js:"1" ]}.

Definition shown : ChangelogModal.timer :=
  {| ChangelogModal.timer_data := entries; ChangelogModal.timer_version := js:"1.2.0" |}.

End SampleChangelog.

(* ===================================================================== *)
(** * Part II: properties                                                  *)
(* ===================================================================== *)

(** ** Strings *)

Section StringFacts.
Implicit Types (s t : jsstring) (c : JsString.code_unit).

Lemma slice_prefix s n :
  0 ≤ n → JsString.slice s 0 n = take (Z.to_nat n) s.
Proof.
  intros Hn. unfold JsString.slice, JsString.rel_index, JsString.length.
  cbv zeta. rewrite Z.ltb_irrefl.
  rewrite (proj2 (Z.ltb_ge n 0)) by lia.
  rewrite (Z.min_l 0) by lia. cbn [Z.to_nat drop].
  destruct (Z.min_spec n (Z.of_nat (length s))) as [[Hlt ->]|[Hge ->]].
  - rewrite Z.sub_0_r, Z.max_l by lia. done.
  - rewrite Z.sub_0_r, Z.max_l, Nat2Z.id by lia.
    change (drop (Z.to_nat 0) s) with s.
    rewrite !take_ge; [done | lia | lia].
Qed.








End StringFacts.

(** ** Version normalisation *)

Example normalizeVersion_v_prefix :
  Changelog.normalizeVersion (Some js:" v1.2.3 ") = Some js:"1.2.3".
Proof. reflexivity. Qed.







(** ** Truncation of list entries *)

(** C3, as stated, fails for a negative [maxLength]: [slice] counts a
    negative end from the end of the string, so four of the five code
    units stay, and the result is longer than [maxLength + 3]. *)
Lemma truncateContent_negative_maxLength :
  RepeatTab.truncateContent js:"abcde" (Some (-1)) = js:"abcd..." ∧
  ¬ (JsString.length (RepeatTab.truncateContent js:"abcde" (Some (-1))) ≤ -1 + 3).
Proof. split; [reflexivity|]. vm_compute. intros Hle. by apply Hle. Qed.

(** C3, amended: for every string [content] and every [maxLength] that is
    not negative (30 when omitted), [truncateContent] returns a string of
    length at most [maxLength + 3]; it returns [content] unchanged when
    [content.length <= maxLength], and otherwise the first [maxLength]
    code units of [content] followed by ['...']. Both copies of the
    function agree. *)
Theorem truncateContent_spec (content : jsstring) (maxLength : Z) :
  0 ≤ maxLength →
  JsString.length (RepeatTab.truncateContent content (Some maxLength)) ≤ maxLength + 3 ∧
  (JsString.length content ≤ maxLength →
   RepeatTab.truncateContent content (Some maxLength) = content) ∧
  (maxLength < JsString.length content →
   RepeatTab.truncateContent content (Some maxLength)
   = take (Z.to_nat maxLength) content ++ js:"...") ∧
  RepeatTab.truncateContent content None = RepeatTab.truncateContent content (Some 30) ∧
  QuotesTab.truncateContent content (Some maxLength)
  = RepeatTab.truncateContent content (Some maxLength).
Proof.
  intros Hmax. unfold RepeatTab.truncateContent, QuotesTab.truncateContent.
  cbv [default from_option id]. split; [|split; [|split; [|split; reflexivity]]].
  - destruct (Z.leb_spec (JsString.length content) maxLength) as [Hle|Hgt]; [lia|].
    rewrite slice_prefix by done. unfold JsString.concat, JsString.length in *.
    rewrite length_app, length_take. cbn. lia.
  - intros Hle. by rewrite (proj2 (Z.leb_le _ _) Hle).
  - intros Hgt. rewrite (proj2 (Z.leb_gt _ _) Hgt).
    by rewrite slice_prefix.
Qed.

Lemma truncateContent_spec_witness :
  JsString.length (RepeatTab.truncateContent js:"hello world" (Some 5)) ≤ 5 + 3 ∧
  RepeatTab.truncateContent js:"hello world" (Some 5) = js:"hello...".
Proof.
  destruct (truncateContent_spec js:"hello world" 5) as (Hlen & _ & Hcut & _);
    [lia|].
  split; [exact Hlen|]. rewrite Hcut; [reflexivity | vm_compute; reflexivity].
Defined.

(** ** The relative percentage of the ranking list *)

Section RankListFacts.
Local Open Scope Q_scope.




End RankListFacts.




(** ** Failures of the bridge in the loaders *)

Section LoaderFacts.
Context `{Bridge.Types}.

(** C5: when the bridge call of [loadRepeatAnalysis] (in either tab) or of
    [loadCatchphraseAnalysis] throws, the exception is caught and logged,
    the loading flag is [false] afterwards and the analysis held before is
    still there; when [getSessions] throws in [loadSessions], the error is
    caught and logged, [sessions] is unchanged and [isInitialized] is
    [true]. *)
Theorem loaders_catch_log_and_reset :
  (∀ (props : RepeatTab.Props) api (st : RepeatTab.state) e,
     JsString.truthy (RepeatTab.sessionId props) = true →
     Bridge.getRepeatAnalysis api (RepeatTab.sessionId props) (RepeatTab.timeFilter props)
     = Throw e →
     let after := Act.run (RepeatTab.loadRepeatAnalysis props api) st in
     after.1 = Normal tt ∧
     Act.console after.2 = [Act.ConsoleError "加载复读分析失败:" e] ∧
     RepeatTab.isLoading (Act.state after.2) = false ∧
     RepeatTab.repeatAnalysis (Act.state after.2) = RepeatTab.repeatAnalysis st) ∧
  (∀ (props : QuotesTab.Props) api (st : QuotesTab.state) e,
     JsString.truthy (QuotesTab.sessionId props) = true →
     Bridge.getRepeatAnalysis api (QuotesTab.sessionId props) (QuotesTab.timeFilter props)
     = Throw e →
     let after := Act.run (QuotesTab.loadRepeatAnalysis props api) st in
     after.1 = Normal tt ∧
     Act.console after.2 = [Act.ConsoleError "加载复读分析失败:" e] ∧
     QuotesTab.isLoadingRepeat (Act.state after.2) = false ∧
     QuotesTab.repeatAnalysis (Act.state after.2) = QuotesTab.repeatAnalysis st ∧
     QuotesTab.catchphraseAnalysis (Act.state after.2) = QuotesTab.catchphraseAnalysis st) ∧
  (∀ (props : QuotesTab.Props) api (st : QuotesTab.state) e,
     JsString.truthy (QuotesTab.sessionId props) = true →
     Bridge.getCatchphraseAnalysis api (QuotesTab.sessionId props)
       (QuotesTab.timeFilter props) = Throw e →
     let after := Act.run (QuotesTab.loadCatchphraseAnalysis props api) st in
     after.1 = Normal tt ∧
     Act.console after.2 = [Act.ConsoleError "加载口头禅分析失败:" e] ∧
     QuotesTab.isLoadingCatchphrase (Act.state after.2) = false ∧
     QuotesTab.catchphraseAnalysis (Act.state after.2) = QuotesTab.catchphraseAnalysis st ∧
     QuotesTab.repeatAnalysis (Act.state after.2) = QuotesTab.repeatAnalysis st) ∧
  (∀ api (st : ChatStore.state) e,
     Bridge.getSessions api = Throw e →
     let after := Act.run (ChatStore.loadSessions api) st in
     after.1 = Normal tt ∧
     Act.console after.2 = [Act.ConsoleError "加载会话列表失败:" e] ∧
     ChatStore.sessions (Act.state after.2) = ChatStore.sessions st ∧
     ChatStore.isInitialized (Act.state after.2) = true ∧
     Act.state after.2 = ChatStore.set_isInitialized true st).
Proof.
  split; [|split; [|split]].
  - intros props api st e Hid Hthrow.
    unfold RepeatTab.loadRepeatAnalysis, Act.run. rewrite Hid, Hthrow. done.
  - intros props api st e Hid Hthrow.
    unfold QuotesTab.loadRepeatAnalysis, Act.run. rewrite Hid, Hthrow. done.
  - intros props api st e Hid Hthrow.
    unfold QuotesTab.loadCatchphraseAnalysis, Act.run. rewrite Hid, Hthrow. done.
  - intros api st e Hthrow.
    unfold ChatStore.loadSessions, Act.run. rewrite Hthrow. done.
Qed.

End LoaderFacts.

Lemma loaders_catch_log_and_reset_witness :
  RepeatTab.isLoading
    (Act.state
       (Act.run
          (RepeatTab.loadRepeatAnalysis
             {| RepeatTab.sessionId := js:"s1"; RepeatTab.timeFilter := None |}
             Sample.offline)
          {| RepeatTab.repeatAnalysis := Some [js:"+1"]; RepeatTab.isLoading := false |}).2)
  = false ∧
  QuotesTab.repeatAnalysis
    (Act.state
       (Act.run
          (QuotesTab.loadRepeatAnalysis
             {| QuotesTab.sessionId := js:"s1"; QuotesTab.timeFilter := None |}
             Sample.offline)
          {| QuotesTab.catchphraseAnalysis := None; QuotesTab.isLoadingCatchphrase := true;
             QuotesTab.repeatAnalysis := Some [js:"+1"];
             QuotesTab.isLoadingRepeat := false |}).2)
  = Some [js:"+1"] ∧
  QuotesTab.catchphraseAnalysis
    (Act.state
       (Act.run
          (QuotesTab.loadCatchphraseAnalysis
             {| QuotesTab.sessionId := js:"s1"; QuotesTab.timeFilter := None |}
             Sample.offline)
          {| QuotesTab.catchphraseAnalysis := Some [js:"ok"];
             QuotesTab.isLoadingCatchphrase := false;
             QuotesTab.repeatAnalysis := None; QuotesTab.isLoadingRepeat := false |}).2)
  = Some [js:"ok"] ∧
  ChatStore.sessions (Act.state (Act.run (ChatStore.loadSessions Sample.offline) Sample.store).2)
  = ChatStore.sessions Sample.store.
Proof.
  destruct (loaders_catch_log_and_reset (H := Sample.types))
    as (Hrepeat & Hquotes & Hcatch & Hsessions).
  split; [|split; [|split]].
  - eapply (Hrepeat {| RepeatTab.sessionId := js:"s1"; RepeatTab.timeFilter := None |}
              Sample.offline); reflexivity.
  - eapply (Hquotes {| QuotesTab.sessionId := js:"s1"; QuotesTab.timeFilter := None |}
              Sample.offline); reflexivity.
  - eapply (Hcatch {| QuotesTab.sessionId := js:"s1"; QuotesTab.timeFilter := None |}
              Sample.offline); reflexivity.
  - eapply (Hsessions Sample.offline); reflexivity.
Defined.

(** ** The chat store *)

Section StoreFacts.
Context `{Bridge.Types}.
Implicit Types (st : ChatStore.state) (ss : list Bridge.AnalysisSession).

Lemma has_id_true (x : jsstring) (s : Bridge.AnalysisSession) :
  ChatStore.has_id (Some x) s = true ↔ Bridge.id s = x.
Proof.
  unfold ChatStore.has_id. rewrite bool_decide_eq_true. split; congruence.
Qed.

Lemma list_find_first_with_id (x : jsstring) ss i s :
  list_find (λ s, ChatStore.has_id (Some x) s = true) ss = Some (i, s)
  ↔ ChatStore.first_with_id x ss i s.
Proof.
  rewrite list_find_Some. unfold ChatStore.first_with_id.
  rewrite has_id_true. split; intros (Hi & Hs & Hmin); (split; [done|split; [done|]]).
  - intros k s0 Hk Hlt Hid. by apply (Hmin k s0 Hk Hlt), has_id_true.
  - intros k s0 Hk Hlt Hid. by apply (Hmin k s0 Hk Hlt), has_id_true.
Qed.

Lemma list_find_no_id (x : jsstring) ss :
  list_find (λ s, ChatStore.has_id (Some x) s = true) ss = None
  ↔ ∀ s, s ∈ ss → Bridge.id s ≠ x.
Proof.
  rewrite list_find_None, Forall_forall. split.
  - intros Hno s Hs Hid. by apply (Hno s Hs), has_id_true.
  - intros Hno s Hs Hid. by apply (Hno s Hs), has_id_true.
Qed.

Lemma set_sessions_same st : ChatStore.set_sessions (ChatStore.sessions st) st = st.
Proof. by destruct st. Qed.

(** What [renameSession] comes to, by the answer of the bridge. *)
Lemma renameSession_run st (id newName : jsstring) (api : Bridge.oracle) :
  Act.run (ChatStore.renameSession id newName api) st
  = match Bridge.renameSession api id newName with
    | Normal true =>
        (Normal true,
         Act.World
           (match list_find (λ s, ChatStore.has_id (Some id) s = true)
                    (ChatStore.sessions st) with
            | Some (i, _) =>
                ChatStore.set_sessions
                  (alter (ChatStore.set_name newName) i (ChatStore.sessions st)) st
            | None => st
            end) [] [Bridge.RenameSession id newName])
    | Normal false => (Normal false, Act.World st [] [Bridge.RenameSession id newName])
    | Throw e =>
        (Normal false,
         Act.World st [Act.ConsoleError "重命名会话失败:" e]
           [Bridge.RenameSession id newName])
    end.
Proof.
  unfold ChatStore.renameSession, Act.run.
  destruct (Bridge.renameSession api id newName) as [[|]|e]; [|done|done].
  cbv [mbind Act_bind Act.bind Act.issue Act.await Act.try_catch Act.gets mret Act_ret Act.ret].
  cbn [Act.state Act.console Act.calls app].
  by destruct (list_find _ (ChatStore.sessions st)) as [[i s]|].
Qed.

(** C9: [renameSession] changes the store only when the bridge answers
    [true], and then only the [name] of the first session with the given
    id: the length of [sessions], the ids in their order, every other
    field of every session, every session with another id and
    [currentSessionId] are as before; when the bridge answers [false] or
    throws, the store is as before and the function returns [false]. *)
Theorem renameSession_frame st (id newName : jsstring) (api : Bridge.oracle) :
  let after := Act.run (ChatStore.renameSession id newName api) st in
  let ss := ChatStore.sessions st in
  let ss' := ChatStore.sessions (Act.state after.2) in
  (Bridge.renameSession api id newName = Normal true →
     after.1 = Normal true ∧
     (∀ i s, ChatStore.first_with_id id ss i s →
        ss' = alter (ChatStore.set_name newName) i ss ∧
        ss' !! i = Some (ChatStore.set_name newName s)) ∧
     ((∀ s, s ∈ ss → Bridge.id s ≠ id) → ss' = ss)) ∧
  (Bridge.renameSession api id newName = Normal false →
     after.1 = Normal false ∧ Act.state after.2 = st) ∧
  (∀ e, Bridge.renameSession api id newName = Throw e →
     after.1 = Normal false ∧ Act.state after.2 = st) ∧
  length ss' = length ss ∧
  Bridge.id <$> ss' = Bridge.id <$> ss ∧
  Bridge.session_fields <$> ss' = Bridge.session_fields <$> ss ∧
  (∀ j s, ss !! j = Some s → Bridge.id s ≠ id → ss' !! j = Some s) ∧
  (∀ j s s', ss !! j = Some s → ss' !! j = Some s' → s' ≠ s →
     ChatStore.first_with_id id ss j s ∧ s' = ChatStore.set_name newName s) ∧
  ChatStore.currentSessionId (Act.state after.2) = ChatStore.currentSessionId st ∧
  Act.state after.2 = ChatStore.set_sessions ss' st.
Proof.
  cbv zeta. rewrite renameSession_run.
  destruct (Bridge.renameSession api id newName) as [[|]|e]; cbn [fst snd Act.state].
  2,3: split; [done|]; split; [by intros _ + done|]; split; [done + (by intros ? _)|];
       split; [done|]; split; [done|]; split; [done|]; split; [done|];
       split; [by intros j s s' -> [= ->] |]; split; [done|];
       by rewrite set_sessions_same.
  destruct (list_find _ (ChatStore.sessions st)) as [[i x]|] eqn:Hfind.
  - apply list_find_first_with_id in Hfind as Hfirst.
    destruct Hfirst as (Hi & Hid & Hmin).
    assert (ChatStore.sessions
              (ChatStore.set_sessions
                 (alter (ChatStore.set_name newName) i (ChatStore.sessions st)) st)
            = alter (ChatStore.set_name newName) i (ChatStore.sessions st)) as -> by done.
    split; [|split; [done|split; [done|]]].
    { intros _. split; [done|]. split.
      - intros i' s' Hfirst'. apply list_find_first_with_id in Hfirst'.
        rewrite Hfind in Hfirst'. injection Hfirst' as <- <-.
        split; [done|]. by rewrite list_lookup_alter_eq, Hi.
      - intros Hno. exfalso. apply (Hno x); [|done]. by eapply list_elem_of_lookup_2. }
    split; [apply length_alter|].
    split.
    { rewrite (list_fmap_alter _ _ (λ y, y)); [by apply list_alter_id|].
      by apply Forall_true. }
    split.
    { rewrite (list_fmap_alter _ _ (λ y, y)); [by apply list_alter_id|].
      by apply Forall_true. }
    split.
    { intros j s Hj Hne. rewrite list_lookup_alter_ne; [done|]. intros <-. congruence. }
    split; [|done].
    intros j s s' Hj Hj' Hne. destruct (decide (i = j)) as [<-|Hij].
    + rewrite list_lookup_alter_eq, Hi in Hj'. cbn in Hj'.
      assert (s = x) as -> by congruence.
      split; [by apply list_find_first_with_id | congruence].
    + rewrite list_lookup_alter_ne in Hj' by done. congruence.
  - pose proof (proj1 (list_find_no_id _ _) Hfind) as Hno.
    split; [|split; [done|split; [done|]]].
    { intros _. split; [done|]. split; [|done].
      intros i s (Hi & Hid & _). exfalso. apply (Hno s); [|done].
      by eapply list_elem_of_lookup_2. }
    split; [done|]. split; [done|]. split; [done|]. split; [done|].
    split; [intros j s s' -> [= ->]; done|]. split; [done|].
    by rewrite set_sessions_same.
Qed.

End StoreFacts.

Lemma renameSession_frame_witness :
  (Act.run (ChatStore.renameSession js:"s2" js:"office" Sample.online) Sample.store).1
  = Normal true ∧
  ChatStore.sessions
    (Act.state
       (Act.run (ChatStore.renameSession js:"s2" js:"office" Sample.online)
          Sample.store).2) !! 1%nat
  = Some (Sample.session js:"s2" js:"office" 45) ∧
  Act.state
    (Act.run (ChatStore.renameSession js:"s2" js:"office" Sample.refusing) Sample.store).2
  = Sample.store ∧
  Act.state
    (Act.run (ChatStore.renameSession js:"s2" js:"office" Sample.offline) Sample.store).2
  = Sample.store.
Proof.
  destruct (renameSession_frame Sample.store js:"s2" js:"office" Sample.online)
    as (Htrue & _).
  destruct (renameSession_frame Sample.store js:"s2" js:"office" Sample.refusing)
    as (_ & Hfalse & _).
  destruct (renameSession_frame Sample.store js:"s2" js:"office" Sample.offline)
    as (_ & _ & Hthrow & _).
  destruct (Htrue eq_refl) as (Hret & Hfirst & _).
  split; [exact Hret|]. split; [|split].
  - apply (Hfirst 1%nat (Sample.session js:"s2" js:"work" 45)).
    split; [reflexivity|]. split; [reflexivity|].
    intros [|k] s0 Hk Hlt; [|lia]. injection Hk as <-. vm_compute. discriminate.
  - apply (Hfalse eq_refl).
  - apply (Hthrow (Js.Rejection js:"offline") eq_refl).
Defined.

Section SelectionFacts.
Context `{Bridge.Types}.
Implicit Types (st : ChatStore.state) (ss : list Bridge.AnalysisSession).

(** The computed [currentSession] is consistent in every state. *)
Lemma selection_consistent_always st : ChatStore.selection_consistent st.
Proof.
  unfold ChatStore.selection_consistent, ChatStore.currentSession.
  destruct (ChatStore.truthy (ChatStore.currentSessionId st)) eqn:Htruthy; [|by left].
  cbn [negb]. unfold JsArray.find.
  destruct (list_find _ (ChatStore.sessions st)) as [[i s]|] eqn:Hfind; [|by left].
  right. exists s. apply list_find_Some in Hfind as (Hi & Hid & _).
  split; [done|]. split; [by eapply list_elem_of_lookup_2|].
  unfold ChatStore.has_id in Hid. by apply bool_decide_eq_true in Hid.
Qed.

(** What [loadSessions] comes to when the bridge answers with a list. *)
Lemma loadSessions_run st (api : Bridge.oracle) (list : list Bridge.AnalysisSession) :
  Bridge.getSessions api = Normal list →
  Act.run (ChatStore.loadSessions api) st
  = (Normal tt,
     Act.World
       (ChatStore.set_isInitialized true
          (if ChatStore.truthy (ChatStore.currentSessionId st)
              && negb (bool_decide
                         (is_Some (JsArray.find
                                     (ChatStore.has_id (ChatStore.currentSessionId st))
                                     list)))
           then ChatStore.set_currentSessionId None (ChatStore.set_sessions list st)
           else ChatStore.set_sessions list st))
       [] [Bridge.GetSessions]).
Proof.
  intros Hlist. unfold ChatStore.loadSessions, Act.run. rewrite Hlist.
  cbv [mbind Act_bind Act.bind Act.issue Act.await Act.try_catch Act.gets Act.modify
       mret Act_ret Act.ret].
  cbn [Act.state Act.console Act.calls app ChatStore.currentSessionId
       ChatStore.set_sessions].
  by destruct (_ && _).
Qed.

(** What [deleteSession] comes to when the bridge answers [true]. *)
Lemma deleteSession_run st (id : jsstring) (api : Bridge.oracle) :
  Bridge.deleteSession api id = Normal true →
  Act.run (ChatStore.deleteSession id api) st
  = (Normal true,
     Act.World
       (let st' :=
          match list_find (λ s, ChatStore.has_id (Some id) s = true)
                  (ChatStore.sessions st) with
          | Some (i, _) => ChatStore.set_sessions (delete i (ChatStore.sessions st)) st
          | None => st
          end in
        if bool_decide (ChatStore.currentSessionId st = Some id)
        then ChatStore.set_currentSessionId None st' else st')
       [] [Bridge.DeleteSession id]).
Proof.
  intros Hask. unfold ChatStore.deleteSession, Act.run. rewrite Hask.
  cbv [mbind Act_bind Act.bind Act.issue Act.await Act.try_catch Act.gets Act.modify
       mret Act_ret Act.ret JsArray.findIndex JsArray.splice1].
  cbn [Act.state Act.console Act.calls app].
  destruct (list_find _ (ChatStore.sessions st)) as [[i s]|]; cbn.
  - replace (Z.of_nat i =? -1) with false by (symmetry; apply Z.eqb_neq; lia).
    cbn. rewrite Nat2Z.id. by destruct (bool_decide _).
  - by destruct (bool_decide _).
Qed.

Lemma delete_first_no_dup (id : jsstring) ss i s :
  ChatStore.first_with_id id ss i s →
  NoDup (Bridge.id <$> ss) →
  ∀ s', s' ∈ delete i ss → Bridge.id s' ≠ id.
Proof.
  intros (Hi & Hid & _) Hnodup s' Hin Hid'.
  apply list_elem_of_lookup_1 in Hin as [j Hj].
  rewrite list_lookup_delete in Hj.
  assert ((Bridge.id <$> ss) !! i = Some id) as Hi'.
  { by rewrite list_lookup_fmap, Hi; cbn; rewrite Hid. }
  destruct (decide (j < i)%nat) as [Hlt|Hge].
  - assert ((Bridge.id <$> ss) !! j = Some id) as Hj'.
    { by rewrite list_lookup_fmap, Hj; cbn; rewrite Hid'. }
    pose proof (NoDup_lookup _ _ _ _ Hnodup Hi' Hj'). lia.
  - assert ((Bridge.id <$> ss) !! S j = Some id) as Hj'.
    { by rewrite list_lookup_fmap, Hj; cbn; rewrite Hid'. }
    pose proof (NoDup_lookup _ _ _ _ Hnodup Hi' Hj'). lia.
Qed.

End SelectionFacts.

(** C8, as stated, fails for the empty string: [loadSessions] tests the
    selected id for truthiness before it looks it up, so a selected id
    [''] that is absent from the fetched list stays. *)
Lemma loadSessions_keeps_empty_id :
  Bridge.getSessions Sample.refusing = Normal [] ∧
  ChatStore.currentSessionId
    (Act.state
       (Act.run (ChatStore.loadSessions Sample.refusing)
          (ChatStore.set_currentSessionId (Some []) ChatStore.initial)).2)
  = Some [] ∧
  ChatStore.currentSessionId
    (Act.state
       (Act.run (ChatStore.loadSessions Sample.refusing)
          (ChatStore.set_currentSessionId (Some []) ChatStore.initial)).2)
  ≠ None.
Proof. split; [reflexivity|]. split; [reflexivity|]. discriminate. Qed.

Section SelectionTheorem.
Context `{Bridge.Types}.

(** C8, amended: in every state of the store, so after every action,
    [currentSession] is [null] or a session of [sessions] with the selected
    id. After [loadSessions] has fetched a list, [sessions] is that list,
    and a selected id that is not the empty string and is absent from the
    list is reset to [null] (an empty or present one stays). After a
    successful [deleteSession(id)] the first session with that id is gone
    from [sessions] (no session with that id is left when the ids are
    distinct), and the selected id is reset to [null] if it was [id]. *)
Theorem selection_invariant_and_updates (st : ChatStore.state) (api : Bridge.oracle)
    (list : list Bridge.AnalysisSession) (id : jsstring) :
  Bridge.getSessions api = Normal list →
  Bridge.deleteSession api id = Normal true →
  (∀ st', ChatStore.selection_consistent st') ∧
  (∀ a api' st',
     ChatStore.selection_consistent
       (Act.state (Act.run (ChatStore.dispatch a api') st').2)) ∧
  (∀ q : ImportQueue.state, ChatStore.selection_consistent (ImportQueue.store q)) ∧
  (let cid := ChatStore.currentSessionId st in
   let after := Act.state (Act.run (ChatStore.loadSessions api) st).2 in
   ChatStore.sessions after = list ∧
   ChatStore.isInitialized after = true ∧
   (ChatStore.truthy cid = true →
    (∀ s, s ∈ list → Some (Bridge.id s) ≠ cid) →
    ChatStore.currentSessionId after = None) ∧
   (ChatStore.truthy cid = false → ChatStore.currentSessionId after = cid) ∧
   ((∃ s, s ∈ list ∧ Some (Bridge.id s) = cid) →
    ChatStore.currentSessionId after = cid)) ∧
  (let ss := ChatStore.sessions st in
   let after := Act.state (Act.run (ChatStore.deleteSession id api) st).2 in
   (Act.run (ChatStore.deleteSession id api) st).1 = Normal true ∧
   (∀ i s, ChatStore.first_with_id id ss i s →
      ChatStore.sessions after = delete i ss) ∧
   ((∀ s, s ∈ ss → Bridge.id s ≠ id) → ChatStore.sessions after = ss) ∧
   (NoDup (Bridge.id <$> ss) →
    ∀ s, s ∈ ChatStore.sessions after → Bridge.id s ≠ id) ∧
   (ChatStore.currentSessionId st = Some id →
    ChatStore.currentSessionId after = None) ∧
   (ChatStore.currentSessionId st ≠ Some id →
    ChatStore.currentSessionId after = ChatStore.currentSessionId st)).
Proof.
  intros Hlist Hdelete.
  split; [apply selection_consistent_always|].
  split; [intros; apply selection_consistent_always|].
  split; [intros; apply selection_consistent_always|].
  split.
  - cbv zeta. rewrite (loadSessions_run st api list Hlist). cbn [snd Act.state].
    destruct (ChatStore.truthy (ChatStore.currentSessionId st)) eqn:Htruthy;
      cbn [andb].
    + destruct (bool_decide (is_Some _)) eqn:Hfound; cbn [negb].
      * apply bool_decide_eq_true in Hfound as [s Hs].
        unfold JsArray.find in Hs. apply fmap_Some in Hs as ([i s'] & Hfind & ->).
        apply list_find_Some in Hfind as (Hi & Hid & _).
        unfold ChatStore.has_id in Hid. apply bool_decide_eq_true in Hid.
        split; [done|]. split; [done|]. split; [|done].
        intros _ Habsent. exfalso. eapply Habsent; [|exact Hid].
        by eapply list_elem_of_lookup_2.
      * split; [done|]. split; [done|]. split; [done|]. split; [done|].
        intros (s & Hs & Hid). apply bool_decide_eq_false in Hfound.
        exfalso. apply Hfound. unfold JsArray.find.
        assert (is_Some
                  (list_find
                     (λ x, ChatStore.has_id (ChatStore.currentSessionId st) x = true)
                     list)) as [[i s'] ->]; [|by eexists].
        eapply list_find_elem_of; [exact Hs|].
        unfold ChatStore.has_id. by apply bool_decide_eq_true.
    + done.
  - cbv zeta. rewrite (deleteSession_run st id api Hdelete). cbn [fst snd Act.state].
    split; [done|].
    destruct (list_find _ (ChatStore.sessions st)) as [[i x]|] eqn:Hfind.
    + pose proof (proj1 (list_find_first_with_id _ _ _ _) Hfind) as Hfirst.
      assert (∀ st0 : ChatStore.state,
                ChatStore.sessions
                  (if bool_decide (ChatStore.currentSessionId st = Some id)
                   then ChatStore.set_currentSessionId None st0 else st0)
                = ChatStore.sessions st0) as Hsessions
        by (intros; by destruct (bool_decide _)).
      rewrite Hsessions. cbn [ChatStore.sessions ChatStore.set_sessions].
      split.
      { intros i' s' Hfirst'. apply list_find_first_with_id in Hfirst'.
        rewrite Hfind in Hfirst'. by injection Hfirst' as <- <-. }
      split.
      { intros Hno. exfalso. destruct Hfirst as (Hi & Hid & _).
        apply (Hno x); [|done]. by eapply list_elem_of_lookup_2. }
      split; [intros Hnodup; by eapply delete_first_no_dup|].
      split; [intros Heq; by rewrite (bool_decide_eq_true_2 _ Heq)|].
      intros Hne. by rewrite (bool_decide_eq_false_2 _ Hne).
    + pose proof (proj1 (list_find_no_id _ _) Hfind) as Hno.
      assert (∀ st0 : ChatStore.state,
                ChatStore.sessions
                  (if bool_decide (ChatStore.currentSessionId st = Some id)
                   then ChatStore.set_currentSessionId None st0 else st0)
                = ChatStore.sessions st0) as Hsessions
        by (intros; by destruct (bool_decide _)).
      rewrite Hsessions.
      split.
      { intros i s (Hi & Hid & _). exfalso. apply (Hno s); [|done].
        by eapply list_elem_of_lookup_2. }
      split; [done|]. split; [by intros _|].
      split; [intros Heq; by rewrite (bool_decide_eq_true_2 _ Heq)|].
      intros Hne. by rewrite (bool_decide_eq_false_2 _ Hne).
Qed.

End SelectionTheorem.

Lemma selection_invariant_and_updates_witness :
  ChatStore.currentSessionId
    (Act.state (Act.run (ChatStore.loadSessions Sample.online) Sample.store).2) = None ∧
  ChatStore.sessions
    (Act.state (Act.run (ChatStore.deleteSession js:"s2" Sample.online) Sample.store).2)
  = [Sample.session js:"s1" js:"family" 120] ∧
  ChatStore.currentSessionId
    (Act.state (Act.run (ChatStore.deleteSession js:"s2" Sample.online) Sample.store).2)
  = None.
Proof.
  destruct (selection_invariant_and_updates Sample.store Sample.online
              [Sample.session js:"s1" js:"family" 120] js:"s2" eq_refl eq_refl)
    as (_ & _ & _ & Hload & Hdelete).
  destruct Hload as (_ & _ & Hreset & _).
  destruct Hdelete as (_ & Hfirst & _ & _ & Hcurrent & _).
  split; [|split].
  - apply Hreset; [reflexivity|].
    intros s Hs. apply list_elem_of_singleton in Hs as ->. vm_compute. discriminate.
  - apply (Hfirst 1%nat (Sample.session js:"s2" js:"work" 45)).
    split; [reflexivity|]. split; [reflexivity|].
    intros [|k] s0 Hk Hlt; [|lia]. injection Hk as <-. vm_compute. discriminate.
  - apply Hcurrent. reflexivity.
Defined.

(** ** Nickname histories *)

Section TimelineFacts.
Context `{Bridge.Types}.

Lemma Promise_all_fulfilled {A} (ps : list (completion A)) (vs : list A) :
  Act.Promise_all ps = Normal vs ↔ ps = Normal <$> vs.
Proof.
  revert vs. induction ps as [|[a|e] ps IH]; intros vs; cbn.
  - split; [intros [= <-]; done | by destruct vs].
  - destruct (Act.Promise_all ps) as [l|e] eqn:Hall.
    + split.
      * intros [= <-]. cbn. f_equal. by apply IH.
      * destruct vs as [|v vs]; [done|]. intros [= -> Hps].
        f_equal. f_equal. apply IH in Hps. congruence.
    + split; [done|]. destruct vs as [|v vs]; [done|]. intros [= -> Hps].
      apply IH in Hps. congruence.
  - split; [done|]. by destruct vs.
Qed.

(** Mapping [issue] over a list makes the calls in the order of the list
    and yields the promises in that order. *)
Lemma mapM_issue {St A B} (call : A → Bridge.call) (answer : A → completion B)
    (l : list A) (w : Act.world St) :
  Act.mapM (λ x, Act.issue (call x) (answer x)) l w
  = (Normal (answer <$> l),
     Act.World (Act.state w) (Act.console w) (Act.calls w ++ (call <$> l))).
Proof.
  revert w. induction l as [|x l IH]; intros w.
  - cbn. unfold Act.ret. rewrite app_nil_r. by destruct w.
  - cbn [Act.mapM]. unfold Act.bind at 1. unfold Act.issue at 1.
    unfold Act.bind at 1. rewrite IH. cbn. unfold Act.ret.
    by rewrite <- app_assoc.
Qed.

Lemma members_with_changes_cons m (ms : list Bridge.MemberActivity) h hs :
  TimelineTab.members_with_changes (m :: ms) (h :: hs)
  = (if 1 <? Z.of_nat (length h)
     then [{| TimelineTab.memberId := Bridge.memberId m;
              TimelineTab.name := Bridge.member_name m;
              TimelineTab.history := h |}]
     else [])
    ++ TimelineTab.members_with_changes ms hs.
Proof.
  unfold TimelineTab.members_with_changes. cbn [zip zip_with].
  rewrite filter_cons. cbn [snd].
  destruct (Z.ltb_spec 1 (Z.of_nat (length h))); case_decide; try lia; done.
Qed.

(** The [forEach] over the members, from index [k] on, appends to the
    local array what the specification describes. *)
Lemma forEach_collect (ms : list Bridge.MemberActivity)
    (all : list (list Bridge.MemberNameHistory)) (k : nat)
    (acc : list TimelineTab.MemberWithHistory) (w : Act.world TimelineTab.state) :
  (k + length ms ≤ length all)%nat →
  Act.forEach_from k ms (TimelineTab.collect all) acc w
  = (Normal (acc ++ TimelineTab.members_with_changes ms (drop k all)), w).
Proof.
  revert k acc. induction ms as [|m ms IH]; intros k acc Hlen.
  - cbn. unfold Act.ret. unfold TimelineTab.members_with_changes. cbn.
    by rewrite app_nil_r.
  - cbn [length] in Hlen.
    destruct (lookup_lt_is_Some_2 all k) as [h Hh]; [lia|].
    rewrite (drop_S _ _ _ Hh), members_with_changes_cons.
    cbn [Act.forEach_from]. unfold Act.bind, TimelineTab.collect. rewrite Hh.
    destruct (1 <? Z.of_nat (length h)); cbn; unfold Act.ret.
    + rewrite IH by lia. by rewrite <- app_assoc.
    + by rewrite IH by lia.
Qed.

End TimelineFacts.

Section TimelineTheorem.
Context `{Bridge.Types}.

(** What [loadMembersWithNicknameChanges] comes to once past its guard. *)
Lemma loadMembersWithNicknameChanges_run (props : TimelineTab.Props)
    (api : Bridge.oracle) (st : TimelineTab.state) :
  JsString.truthy (TimelineTab.sessionId props) = true →
  TimelineTab.memberActivity props ≠ [] →
  let ms := TimelineTab.memberActivity props in
  let answers :=
    (λ m, Bridge.getMemberNameHistory api (TimelineTab.sessionId props)
            (Bridge.memberId m)) <$> ms in
  let issued :=
    (λ m, Bridge.GetMemberNameHistory (TimelineTab.sessionId props)
            (Bridge.memberId m)) <$> ms in
  Act.run (TimelineTab.loadMembersWithNicknameChanges props api) st
  = match Act.Promise_all answers with
    | Normal hs =>
        (Normal tt,
         Act.World
           {| TimelineTab.membersWithNicknameChanges :=
                TimelineTab.members_with_changes ms hs;
              TimelineTab.isLoadingHistory := false |} [] issued)
    | Throw e =>
        (Normal tt,
         Act.World
           {| TimelineTab.membersWithNicknameChanges :=
                TimelineTab.membersWithNicknameChanges st;
              TimelineTab.isLoadingHistory := false |}
           [Act.ConsoleError "加载昵称变更记录失败:" e] issued)
    end.
Proof.
  intros Hid Hms. cbv zeta.
  unfold TimelineTab.loadMembersWithNicknameChanges, Act.run. rewrite Hid.
  destruct (TimelineTab.memberActivity props) as [|m ms] eqn:Hactivity; [done|].
  replace (negb true || (Z.of_nat (length (m :: ms)) =? 0)) with false
    by (symmetry; apply orb_false_iff; split; [done|]; apply Z.eqb_neq; cbn; lia).
  cbv [mbind Act_bind]. unfold Act.bind at 1. unfold Act.modify at 1.
  unfold Act.try_finally, Act.try_catch. unfold Act.bind at 1.
  rewrite mapM_issue. cbn [Act.state Act.console Act.calls app].
  unfold Act.bind at 1, Act.await at 1.
  destruct (Act.Promise_all _) as [hs|e] eqn:Hall; [|done].
  unfold Act.bind at 1, Act.forEach. rewrite forEach_collect.
  - by rewrite drop_0.
  - apply Promise_all_fulfilled in Hall.
    apply (f_equal length) in Hall. rewrite !length_fmap in Hall. cbn in *. lia.
Qed.

(** C6, amended: when [sessionId] is not empty and [memberActivity] has
    an entry, [loadMembersWithNicknameChanges] issues one
    [getMemberNameHistory] call per entry of [memberActivity], in order;
    if every call resolves, [membersWithNicknameChanges] is afterwards the
    list of the members whose history has more than one entry, each with
    its own history, in the order of [memberActivity]; if a call rejects,
    the list stays as it was. When [sessionId] is empty or
    [memberActivity] has no entry, no call is issued and nothing changes. *)
Theorem loadMembersWithNicknameChanges_spec (props : TimelineTab.Props)
    (api : Bridge.oracle) (st : TimelineTab.state) :
  let ms := TimelineTab.memberActivity props in
  let answer m :=
    Bridge.getMemberNameHistory api (TimelineTab.sessionId props) (Bridge.memberId m) in
  let after := Act.run (TimelineTab.loadMembersWithNicknameChanges props api) st in
  (JsString.truthy (TimelineTab.sessionId props) = true → ms ≠ [] →
     Act.calls after.2
     = (λ m, Bridge.GetMemberNameHistory (TimelineTab.sessionId props) (Bridge.memberId m))
       <$> ms ∧
     TimelineTab.isLoadingHistory (Act.state after.2) = false ∧
     (∀ hs, answer <$> ms = Normal <$> hs →
        TimelineTab.membersWithNicknameChanges (Act.state after.2)
        = (λ mh, {| TimelineTab.memberId := Bridge.memberId mh.1;
                    TimelineTab.name := Bridge.member_name mh.1;
                    TimelineTab.history := mh.2 |})
          <$> filter (λ mh, (1 < length mh.2)%nat) (zip ms hs)) ∧
     (∀ e, Act.Promise_all (answer <$> ms) = Throw e →
        TimelineTab.membersWithNicknameChanges (Act.state after.2)
        = TimelineTab.membersWithNicknameChanges st)) ∧
  (JsString.truthy (TimelineTab.sessionId props) = false ∨ ms = [] →
     Act.calls after.2 = [] ∧ Act.state after.2 = st).
Proof.
  cbv zeta. split.
  - intros Hid Hms. rewrite loadMembersWithNicknameChanges_run by done. cbv zeta.
    destruct (Act.Promise_all _) as [hs|e] eqn:Hall; cbn [snd Act.calls Act.state].
    + split; [done|]. split; [done|]. split; [|done].
      intros hs' Hhs'. apply Promise_all_fulfilled in Hhs'.
      rewrite Hall in Hhs'. by injection Hhs' as <-.
    + split; [done|]. split; [done|]. split; [|done].
      intros hs Hhs. apply Promise_all_fulfilled in Hhs. congruence.
  - intros Hguard. unfold TimelineTab.loadMembersWithNicknameChanges, Act.run.
    destruct Hguard as [-> | ->]; [done|].
    by destruct (JsString.truthy _).
Qed.

End TimelineTheorem.

(** C6, as stated, fails behind the guard: with an empty [sessionId] the
    function returns before it issues a call, although [memberActivity]
    has an entry whose history has two names. *)
Lemma loadMembersWithNicknameChanges_guarded :
  length [Sample.member 7 js:"ann"] = 1%nat ∧
  Bridge.getMemberNameHistory Sample.online [] 7 = Normal [js:"old"; js:"new"] ∧
  Act.calls
    (Act.run
       (TimelineTab.loadMembersWithNicknameChanges
          {| TimelineTab.sessionId := [];
             TimelineTab.memberActivity := [Sample.member 7 js:"ann"] |}
          Sample.online)
       {| TimelineTab.membersWithNicknameChanges := [];
          TimelineTab.isLoadingHistory := false |}).2
  = [] ∧
  TimelineTab.membersWithNicknameChanges
    (Act.state
       (Act.run
          (TimelineTab.loadMembersWithNicknameChanges
             {| TimelineTab.sessionId := [];
                TimelineTab.memberActivity := [Sample.member 7 js:"ann"] |}
             Sample.online)
          {| TimelineTab.membersWithNicknameChanges := [];
             TimelineTab.isLoadingHistory := false |}).2)
  = [].
Proof. repeat split. Qed.

Lemma loadMembersWithNicknameChanges_spec_witness :
  TimelineTab.membersWithNicknameChanges
    (Act.state
       (Act.run
          (TimelineTab.loadMembersWithNicknameChanges
             {| TimelineTab.sessionId := js:"s1";
                TimelineTab.memberActivity :=
                  [Sample.member 3 js:"bob"; Sample.member 7 js:"ann"] |}
             Sample.online)
          {| TimelineTab.membersWithNicknameChanges := [];
             TimelineTab.isLoadingHistory := false |}).2)
  = [{| TimelineTab.memberId := 7; TimelineTab.name := js:"ann";
        TimelineTab.history := [js:"old"; js:"new"] |}] ∧
  Act.calls
    (Act.run
       (TimelineTab.loadMembersWithNicknameChanges
          {| TimelineTab.sessionId := js:"s1";
             TimelineTab.memberActivity :=
               [Sample.member 3 js:"bob"; Sample.member 7 js:"ann"] |}
          Sample.online)
       {| TimelineTab.membersWithNicknameChanges := [];
          TimelineTab.isLoadingHistory := false |}).2
  = [Bridge.GetMemberNameHistory js:"s1" 3; Bridge.GetMemberNameHistory js:"s1" 7].
Proof.
  destruct (loadMembersWithNicknameChanges_spec
              {| TimelineTab.sessionId := js:"s1";
                 TimelineTab.memberActivity :=
                   [Sample.member 3 js:"bob"; Sample.member 7 js:"ann"] |}
              Sample.online
              {| TimelineTab.membersWithNicknameChanges := [];
                 TimelineTab.isLoadingHistory := false |}) as [Hrun _].
  destruct Hrun as (Hcalls & _ & Hlist & _); [reflexivity | discriminate |].
  split; [|exact Hcalls].
  apply (Hlist [[js:"only"]; [js:"old"; js:"new"]]). reflexivity.
Defined.

(** ** Auto-update events *)

Section UpdaterFacts.
Implicit Types (s : Updater.state) (win : Updater.window).

Lemma listeners_on name l s name' :
  Updater.listeners (Updater.on name l s) !! name'
  = if decide (name = name')
    then Some (default [] (Updater.listeners s !! name) ++ [l])
    else Updater.listeners s !! name'.
Proof. unfold Updater.on. cbn. apply lookup_insert. Qed.

(** The listeners after [checkUpdate], by event name. *)
Lemma listeners_checkUpdate win s name :
  Updater.listeners (Updater.checkUpdate win s) !! name
  = if decide (name = "update-available") then
      Some (default [] (Updater.listeners s !! name)
            ++ [Updater.OnUpdateAvailable (length (Updater.flags s))])
    else if decide (name = "download-progress") then
      Some (default [] (Updater.listeners s !! name) ++ [Updater.OnDownloadProgress win])
    else if decide (name = "update-downloaded") then
      Some (default [] (Updater.listeners s !! name) ++ [Updater.OnUpdateDownloaded win])
    else if decide (name = "update-not-available") then
      Some (default [] (Updater.listeners s !! name) ++ [Updater.OnUpdateNotAvailable win])
    else if decide (name = "error") then
      Some (default [] (Updater.listeners s !! name) ++ [Updater.OnError])
    else Updater.listeners s !! name.
Proof.
  unfold Updater.checkUpdate. cbn [Updater.listeners Updater.perform].
  rewrite !listeners_on. cbn [Updater.listeners Updater.set_flags Updater.set_settings].
  repeat (case_decide; simplify_eq; try done).
Qed.

(** A listener leaves the listeners as they are. *)
Lemma listeners_call l e s :
  Updater.listeners (Updater.call l e s) = Updater.listeners s.
Proof.
  destruct l, e; cbn; try done.
  - by destruct (default false _).
  - by destruct (Updater.isFirstShow s).
Qed.

Lemma listeners_emit e s : Updater.listeners (Updater.emit e s) = Updater.listeners s.
Proof.
  unfold Updater.emit. generalize (default [] (Updater.listeners s !! Updater.event_name e)).
  intros ls. revert s. induction ls as [|l ls IH]; intros s; [done|].
  cbn. rewrite IH. apply listeners_call.
Qed.

End UpdaterFacts.

Section UpdaterTheorem.
Implicit Types (s : Updater.state) (win : Updater.window).

(** Emitting [download-progress] in a state where, as after
    [checkUpdate win] on a fresh updater, the one listener under that name
    is [OnDownloadProgress win]. *)
Lemma emit_progress_single win s (progressObj : Updater.ProgressInfo) :
  Updater.listeners s !! "download-progress" = Some [Updater.OnDownloadProgress win] →
  Updater.listeners (Updater.emit (Updater.download_progress progressObj) s)
  = Updater.listeners s ∧
  Updater.sent (Updater.emit (Updater.download_progress progressObj) s)
  = Updater.sent s
    ++ [(win, "update-download-progress", Updater.Number (Updater.percent progressObj))].
Proof.
  intros Hl. split; [apply listeners_emit|].
  unfold Updater.emit. cbn [Updater.event_name]. rewrite Hl. cbn [default from_option foldl id].
  unfold Updater.sent. cbn. rewrite !omap_app. cbn. by rewrite app_nil_r.
Qed.

(** C7: [checkUpdate] adds a listener under each of the five event names
    (and under no other name), and whenever [download-progress] is emitted
    afterwards, the listener logs the percentage and sends it to the
    window as [update-download-progress]; on a fresh updater, the messages
    sent for a series of progress events are exactly their percentages, in
    order. *)
Theorem checkUpdate_registers_and_forwards win s :
  (∀ name, name ∈ Updater.update_events →
     ∃ l, Updater.listeners (Updater.checkUpdate win s) !! name
          = Some (default [] (Updater.listeners s !! name) ++ [l])) ∧
  Updater.listeners (Updater.checkUpdate win s) !! "download-progress"
  = Some (default [] (Updater.listeners s !! "download-progress")
          ++ [Updater.OnDownloadProgress win]) ∧
  (∀ name, name ∉ Updater.update_events →
     Updater.listeners (Updater.checkUpdate win s) !! name
     = Updater.listeners s !! name) ∧
  (∀ progressObj : Updater.ProgressInfo,
     ∃ before,
       Updater.effects
         (Updater.emit (Updater.download_progress progressObj) (Updater.checkUpdate win s))
       = before
         ++ [Updater.ConsoleLog "更新下载进度: %"
               [Updater.Number (Updater.percent progressObj)];
             Updater.Send win "update-download-progress"
               (Updater.Number (Updater.percent progressObj))]) ∧
  (∀ events : list Updater.ProgressInfo,
     Updater.sent
       (foldl (λ s progressObj, Updater.emit (Updater.download_progress progressObj) s)
          (Updater.checkUpdate win Updater.initial) events)
     = (λ progressObj,
          (win, "update-download-progress", Updater.Number (Updater.percent progressObj)))
       <$> events).
Proof.
  split; [|split; [|split; [|split]]].
  - intros name Hname. rewrite listeners_checkUpdate.
    unfold Updater.update_events in Hname.
    repeat (apply elem_of_cons in Hname as [->|Hname];
            [repeat (case_decide; try done); by eexists|]).
    by apply elem_of_nil in Hname.
  - by rewrite listeners_checkUpdate.
  - intros name Hname. rewrite listeners_checkUpdate.
    unfold Updater.update_events in Hname.
    repeat (case_decide; [exfalso; apply Hname; subst name; set_solver|]).
    done.
  - intros progressObj. unfold Updater.emit. cbn [Updater.event_name].
    rewrite listeners_checkUpdate. cbn [decide_rel].
    repeat (case_decide; [done|]). case_decide; [|done].
    cbn [default from_option id]. rewrite foldl_app. cbn [foldl Updater.call].
    cbn [Updater.effects Updater.perform]. rewrite <- app_assoc. by eexists.
  - intros events.
    assert (∀ s0,
              Updater.listeners s0 !! "download-progress"
              = Some [Updater.OnDownloadProgress win] →
              Updater.sent
                (foldl (λ s p, Updater.emit (Updater.download_progress p) s) s0 events)
              = Updater.sent s0
                ++ ((λ p, (win, "update-download-progress",
                           Updater.Number (Updater.percent p))) <$> events)) as Hgen.
    { induction events as [|p events IH]; intros s0 Hl; cbn [foldl fmap list_fmap].
      - by rewrite app_nil_r.
      - destruct (emit_progress_single win s0 p Hl) as [Hsame Hsent].
        rewrite IH by (by rewrite Hsame). rewrite Hsent. by rewrite <- app_assoc. }
    rewrite Hgen; [done|]. by rewrite listeners_checkUpdate.
Qed.

End UpdaterTheorem.

(** ** The progress queue of [importFileFromPath] *)

Section QueueFacts.
Context `{Bridge.Types}.
Import ImportQueue.
Implicit Types (s : state) (q : list Bridge.ImportProgress) (t : Z).

Lemma queue_writes_assign_queue t v s :
  queue_writes (assign t ByQueue v s) = queue_writes s ++ [v].
Proof.
  unfold queue_writes. cbn. rewrite filter_app, fmap_app. f_equal.
Qed.

Lemma queue_writes_assign_other t who v s :
  who ≠ ByQueue → queue_writes (assign t who v s) = queue_writes s.
Proof.
  intros Hwho. unfold queue_writes. cbn. rewrite filter_app, fmap_app.
  rewrite filter_cons_False by done. cbn. by rewrite app_nil_r.
Qed.

(** The loop of [processQueue], started on the queue [q] with no
    activation suspended: it empties the queue and lowers the flag, or it
    suspends one activation on the head of what is left; what it writes
    are the events it takes off the queue, in order. *)
Lemma loop_spec t q s :
  sleepers s = [] →
  queue_writes s ++ (Some <$> q) = Some <$> enqueued s →
  ((isProcessing (loop t q s) = false ∧ sleepers (loop t q s) = []
    ∧ queue (loop t q s) = []) ∨
   (isProcessing (loop t q s) = isProcessing s ∧
    ∃ sl q', sleepers (loop t q s) = [sl] ∧ queue (loop t q s) = next sl :: q')) ∧
  queue_writes (loop t q s) ++ (Some <$> queue (loop t q s))
  = Some <$> enqueued (loop t q s) ∧
  enqueued (loop t q s) = enqueued s ∧
  (length (queue (loop t q s)) ≤ length q)%nat ∧
  subscribed (loop t q s) = subscribed s ∧
  main (loop t q s) = main s ∧
  now (loop t q s) = now s.
Proof.
  revert s. induction q as [|p q IH]; intros s Hsleep Hwrites.
  - cbn. split; [by left|]. split; [|done].
    cbn in Hwrites. by rewrite app_nil_r in *.
  - cbn [loop].
    destruct (negb (bool_decide (Bridge.stage p = currentStage s))).
    + destruct (t - lastStageTime s <? MIN_STAGE_TIME).
      * cbn. rewrite Hsleep. cbn. split; [right; split; [done|]; by eexists _, _|].
        split; [done|]. split; [done|]. split; [lia|]. done.
      * destruct (IH (assign t ByQueue (Some p) (set_stage (Bridge.stage p) t s)))
          as (Hcase & Hw & Henq & Hlen & Hsub & Hmain & Hnow); [done| |].
        { rewrite queue_writes_assign_queue. cbn [enqueued assign record_write
            set_store set_world set_stage]. rewrite <- app_assoc. exact Hwrites. }
        split; [exact Hcase|]. split; [exact Hw|]. split; [exact Henq|].
        split; [cbn [length]; lia|]. done.
    + destruct (IH (assign t ByQueue (Some p) s))
        as (Hcase & Hw & Henq & Hlen & Hsub & Hmain & Hnow); [done| |].
      { rewrite queue_writes_assign_queue. cbn [enqueued assign record_write
          set_store set_world]. rewrite <- app_assoc. exact Hwrites. }
      split; [exact Hcase|]. split; [exact Hw|]. split; [exact Henq|].
      split; [cbn [length]; lia|]. done.
Qed.

Lemma same_queue_inv s s' : same_queue s s' → queue_inv s → queue_inv s'.
Proof.
  intros (Hq & Hp & Hsl & Henq & Hw) (Hidle & Hbusy & Hwrites).
  unfold queue_inv. by rewrite Hq, Hp, Hsl, Henq, Hw.
Qed.

Lemma same_queue_trans s1 s2 s3 :
  same_queue s1 s2 → same_queue s2 s3 → same_queue s1 s3.
Proof.
  unfold same_queue. intros (-> & -> & -> & -> & ->) (-> & -> & -> & -> & ->). done.
Qed.

Lemma same_queue_set_now t s : same_queue s (set_now t s).
Proof. by unfold same_queue. Qed.

Lemma same_queue_force100 t r s : same_queue s (force100 t r s).
Proof.
  unfold force100, same_queue, store.
  destruct (ChatStore.importProgress _) as [p|]; [|done].
  split; [done|]. split; [done|]. split; [done|]. split; [done|].
  change (queue_writes (assign t Force100 (Some (full p)) s) = queue_writes s).
  by apply queue_writes_assign_other.
Qed.

Lemma same_queue_final_stage t r s : same_queue s (final_stage t r s).
Proof.
  unfold final_stage. destruct (_ <? _); [done|]. apply same_queue_force100.
Qed.

Lemma same_queue_poll t r s : same_queue s (poll t r s).
Proof.
  unfold poll. destruct (_ || _); [done|]. apply same_queue_final_stage.
Qed.

Lemma same_queue_finally_block t r s : same_queue s (finally_block t r s).
Proof. by unfold same_queue. Qed.

Lemma same_queue_finish (api : Bridge.oracle) t r s : same_queue s (finish api t r s).
Proof.
  unfold finish. destruct (_ && _); [|apply same_queue_finally_block].
  eapply same_queue_trans; [|apply same_queue_finally_block]. by unfold same_queue.
Qed.

Lemma same_queue_main_timer (api : Bridge.oracle) t s s' :
  main_timer api t s = Some s' → same_queue s s'.
Proof.
  unfold main_timer. destruct (main s) as [|r w|r w|r w|r]; try done;
    destruct (w <=? t); try done; intros [= <-].
  - apply same_queue_poll.
  - apply same_queue_force100.
  - apply same_queue_finish.
Qed.

End QueueFacts.

Section QueueInvariant.
Context `{Bridge.Types}.
Import ImportQueue.
Implicit Types (s : state) (q : list Bridge.ImportProgress) (t : Z).

(** Projections of updated states. *)
Ltac fields :=
  cbn [world queue isProcessing currentStage lastStageTime sleepers subscribed main
       clear_at now enqueued writes set_world set_store set_queue set_isProcessing
       set_stage set_sleepers set_subscribed set_main set_clear_at set_now
       record_enqueued record_write assign].

Lemma loop_inv t q s :
  sleepers s = [] → isProcessing s = true →
  queue_writes s ++ (Some <$> q) = Some <$> enqueued s →
  queue_inv (loop t q s) ∧ enqueued (loop t q s) = enqueued s ∧
  (length (queue (loop t q s)) ≤ length q)%nat.
Proof.
  intros Hsleep Hbusy Hwrites.
  destruct (loop_spec t q s Hsleep Hwrites) as (Hcase & Hw & Henq & Hlen & _).
  split; [|done]. unfold queue_inv. split; [|split; [|done]].
  - intros Hidle. destruct Hcase as [(_ & ? & ?)|[Hsame _]]; [done|]. congruence.
  - intros Hup. destruct Hcase as [(Hdown & _)|[_ Hsl]]; [congruence|done].
Qed.

Lemma queue_inv_start t (filePath : jsstring) (st : ChatStore.state) :
  queue_inv (start t filePath st).
Proof. unfold queue_inv. cbn. by split. Qed.

Lemma pushed_single t (k : task) :
  pushed [(t, k)]
  = match k with
    | Progress p => if bool_decide (Bridge.stage p = js:"done") then [] else [p]
    | _ => []
    end.
Proof.
  unfold pushed. cbn. destruct k; try done. by destruct (bool_decide _).
Qed.

(** One task keeps the invariant of the queue, and pushes to the queue
    what the listener lets through. *)
Lemma step_inv (api : Bridge.oracle) t (k : task) s s' :
  queue_inv s → step api t k s = Some s' →
  queue_inv s' ∧ enqueued s' = enqueued s ++ pushed [(t, k)].
Proof.
  intros Hinv. rewrite pushed_single. unfold step. destruct (t <? now s); [done|].
  destruct k as [p|i|[r|e]| |].
  - fields. destruct (subscribed s); [|done]. intros [= <-].
    unfold onProgress.
    destruct (bool_decide (Bridge.stage p = js:"done")).
    { split; [|by rewrite app_nil_r].
      eapply same_queue_inv; [apply same_queue_set_now|done]. }
    destruct Hinv as (Hidle & Hbusy & Hw).
    unfold processQueue. fields.
    destruct (isProcessing s) eqn:Hproc.
    + destruct (Hbusy eq_refl) as (sl & q' & Hsl & Hq). split; [|done].
      unfold queue_inv. fields.
      rewrite Hproc. split; [done|]. split.
      * intros _. exists sl, (q' ++ [p]). by rewrite Hsl, Hq.
      * change (queue_writes s ++ (Some <$> queue s ++ [p])
                = Some <$> enqueued s ++ [p]).
        by rewrite !fmap_app, app_assoc, Hw.
    + destruct (Hidle eq_refl) as [Hsl Hq]. rewrite Hq. cbn [app].
      destruct (loop_inv t [p]
                  (set_isProcessing true
                     (record_enqueued p (set_queue [p] (set_now t s)))))
        as (Hinv' & Henq & _); [done|done| |done].
      change (queue_writes s ++ (Some <$> [p]) = Some <$> enqueued s ++ [p]).
      rewrite Hq in Hw. cbn in Hw. rewrite app_nil_r in Hw.
      by rewrite fmap_app, Hw.
  - fields. destruct (sleepers s !! i) as [sl|] eqn:Hi; [|done].
    destruct (wake_at sl <=? t); [|done]. intros [= <-].
    destruct Hinv as (Hidle & Hbusy & Hw).
    destruct (isProcessing s) eqn:Hproc.
    + destruct (Hbusy eq_refl) as (sl0 & q' & Hsl & Hq).
      rewrite Hsl in Hi. destruct i as [|i]; [|done]. injection Hi as ->.
      rewrite Hsl. unfold resume.
      cbn [delete list_delete]. fields. rewrite Hq.
      destruct (loop_inv t q'
                  (assign t ByQueue (Some (next sl))
                     (set_stage (Bridge.stage (next sl)) t
                        (set_sleepers [] (set_now t s)))))
        as (Hinv' & Henq & _); [done|done| |].
      * rewrite queue_writes_assign_queue.
        change (enqueued (assign _ _ _ _)) with (enqueued s).
        change (queue_writes (set_stage _ _ _)) with (queue_writes s).
        rewrite Hq in Hw. cbn in Hw. by rewrite <- app_assoc.
      * split; [done|]. rewrite Henq. cbn. by rewrite app_nil_r.
    + destruct (Hidle eq_refl) as [Hsl _]. by rewrite Hsl in Hi.
  - fields. destruct (main s); try done. intros [= <-].
    split.
    + eapply same_queue_inv; [|done].
      eapply same_queue_trans; [|apply same_queue_poll]. by unfold same_queue.
    + destruct (same_queue_poll t r (set_subscribed false (set_now t s)))
        as (_ & _ & _ & -> & _). cbn. by rewrite app_nil_r.
  - fields. destruct (main s); try done. intros [= <-].
    split; [|cbn; by rewrite app_nil_r].
    eapply same_queue_inv; [|done]. by unfold same_queue.
  - intros Htimer. apply same_queue_main_timer in Htimer as Hsame.
    split.
    + eapply same_queue_inv; [|done].
      eapply same_queue_trans; [apply (same_queue_set_now t)|done].
    + destruct Hsame as (_ & _ & _ & -> & _). cbn. by rewrite app_nil_r.
  - fields. destruct (clear_at s) as [w|]; [|done].
    destruct (w <=? t); [|done]. intros [= <-].
    split; [|cbn; by rewrite app_nil_r].
    eapply same_queue_inv; [|done]. unfold same_queue.
    split; [done|]. split; [done|]. split; [done|]. split; [done|].
    by rewrite queue_writes_assign_other.
Qed.


End QueueInvariant.

Section QueueTheorem.
Context `{Bridge.Types}.
Import ImportQueue.
Implicit Types (s : state) (q : list Bridge.ImportProgress) (t : Z).




End QueueTheorem.


(** ** The minimum display time of a stage *)

(** C1 set against the code: the function shows the stage [detecting] but
    starts with [currentStage = 'reading'], so a first progress event of
    stage [reading] is written at once, 5 ms after [detecting] showed;
    and when the import then ends, the last wait is counted from the start
    of the import, not from the time [reading] showed, so the progress is
    forced to 100 after [reading] has been on display for 100 ms. *)
Theorem reading_first_is_shown_at_once :
  (∃ s,
     ImportQueue.run Sample.online
       [(5, ImportQueue.Progress (Sample.progress js:"reading" 10))]
       (ImportQueue.start 0 js:"chat.txt" ChatStore.initial) = Some s ∧
     ImportQueue.writes s
     = [{| ImportQueue.at_time := 0; ImportQueue.writer_of := ImportQueue.Initial;
           ImportQueue.written :=
             Some {| Bridge.stage := js:"detecting"; Bridge.progress := 0;
                     Bridge.message := ImportQueue.preparing |} |};
        {| ImportQueue.at_time := 5; ImportQueue.writer_of := ImportQueue.ByQueue;
           ImportQueue.written := Some (Sample.progress js:"reading" 10) |}] ∧
     ImportQueue.min_display_time_kept (ImportQueue.writes s) = false) ∧
  (∃ s,
     ImportQueue.run Sample.online
       [(900, ImportQueue.Progress (Sample.progress js:"reading" 10));
        (950, ImportQueue.ImportSettled (Normal Sample.imported));
        (1000, ImportQueue.MainTimer)]
       (ImportQueue.start 0 js:"chat.txt" ChatStore.initial) = Some s ∧
     ImportQueue.writes s
     = [{| ImportQueue.at_time := 0; ImportQueue.writer_of := ImportQueue.Initial;
           ImportQueue.written :=
             Some {| Bridge.stage := js:"detecting"; Bridge.progress := 0;
                     Bridge.message := ImportQueue.preparing |} |};
        {| ImportQueue.at_time := 900; ImportQueue.writer_of := ImportQueue.ByQueue;
           ImportQueue.written := Some (Sample.progress js:"reading" 10) |};
        {| ImportQueue.at_time := 1000; ImportQueue.writer_of := ImportQueue.Force100;
           ImportQueue.written := Some (Sample.progress js:"reading" 100) |}] ∧
     ImportQueue.min_display
       [{| ImportQueue.at_time := 1000; ImportQueue.writer_of := ImportQueue.Force100;
           ImportQueue.written := Some (Sample.progress js:"reading" 100) |}]
       (Some (js:"reading", 900)) = false).
Proof.
  split; (eexists; split; [vm_compute; reflexivity|]); split; reflexivity.
Qed.

Section DisplayFacts.
Context `{Bridge.Types}.
Import ImportQueue.
Implicit Types (s : state) (q : list Bridge.ImportProgress) (t : Z) (ws : list write).






End DisplayFacts.

Section DisplayInvariant.
Context `{Bridge.Types}.
Import ImportQueue.
Implicit Types (s : state) (q : list Bridge.ImportProgress) (t : Z) (ws : list write).





End DisplayInvariant.

Section DisplayStep.
Context `{Bridge.Types}.
Import ImportQueue.
Implicit Types (s : state) (q : list Bridge.ImportProgress) (t : Z) (ws : list write).

Ltac fields :=
  cbn [world queue isProcessing currentStage lastStageTime sleepers subscribed main
       clear_at now enqueued writes set_world set_store set_queue set_isProcessing
       set_stage set_sleepers set_subscribed set_main set_clear_at set_now
       record_enqueued record_write assign].



End DisplayStep.

Section DisplayTheorem.
Context `{Bridge.Types}.
Import ImportQueue.
Implicit Types (s : state) (t : Z).





End DisplayTheorem.


(* ===================================================================== *)
(** * Part III: further properties of the code                             *)
(* ===================================================================== *)

(** ** The chat store: deleting, selecting, templates *)

Section StoreActions.
Context `{Bridge.Types}.
Implicit Types (st : ChatStore.state) (ss : list Bridge.AnalysisSession).

(** What [deleteSession] comes to when the bridge does not answer [true]. *)
Lemma deleteSession_refused st (id : jsstring) (api : Bridge.oracle) :
  Bridge.deleteSession api id ≠ Normal true →
  Act.run (ChatStore.deleteSession id api) st
  = (Normal false,
     Act.World st
       (match Bridge.deleteSession api id with
        | Throw e => [Act.ConsoleError "删除会话失败:" e]
        | Normal _ => []
        end) [Bridge.DeleteSession id]).
Proof.
  intros Hno. unfold ChatStore.deleteSession, Act.run.
  by destruct (Bridge.deleteSession api id) as [[|]|e].
Qed.

(** X2: [deleteSession(id)] changes the store only when the bridge answers
    [true]: on [false] or on a throw it returns [false] and the store is as
    it was (a throw is logged). On [true] it returns [true], at most one
    session goes, every session with another id stays, in the order it had,
    and nothing but [sessions] and [currentSessionId] changes. *)
Theorem deleteSession_frame st (id : jsstring) (api : Bridge.oracle) :
  let after := Act.run (ChatStore.deleteSession id api) st in
  let ss := ChatStore.sessions st in
  let ss' := ChatStore.sessions (Act.state after.2) in
  (Bridge.deleteSession api id = Normal false →
     after.1 = Normal false ∧ Act.state after.2 = st ∧ Act.console after.2 = []) ∧
  (∀ e, Bridge.deleteSession api id = Throw e →
     after.1 = Normal false ∧ Act.state after.2 = st ∧
     Act.console after.2 = [Act.ConsoleError "删除会话失败:" e]) ∧
  (Bridge.deleteSession api id = Normal true → after.1 = Normal true) ∧
  ss' `sublist_of` ss ∧
  (length ss ≤ length ss' + 1)%nat ∧
  filter (λ s, Bridge.id s ≠ id) ss' = filter (λ s, Bridge.id s ≠ id) ss ∧
  Act.state after.2
  = ChatStore.set_currentSessionId (ChatStore.currentSessionId (Act.state after.2))
      (ChatStore.set_sessions ss' st) ∧
  Act.calls after.2 = [Bridge.DeleteSession id].
Proof.
  cbv zeta.
  assert (Bridge.deleteSession api id = Normal true
          ∨ Bridge.deleteSession api id ≠ Normal true) as [Hyes|Hno]
    by (destruct (Bridge.deleteSession api id) as [[|]|e]; by (left + right)).
  - rewrite (deleteSession_run st id api Hyes). cbn [fst snd Act.state Act.console Act.calls].
    split; [congruence|]. split; [congruence|]. split; [done|].
    assert (∀ st0 : ChatStore.state,
              ChatStore.sessions
                (if bool_decide (ChatStore.currentSessionId st = Some id)
                 then ChatStore.set_currentSessionId None st0 else st0)
              = ChatStore.sessions st0) as Hsessions
      by (intros; by destruct (bool_decide _)).
    rewrite Hsessions.
    destruct (list_find _ (ChatStore.sessions st)) as [[i x]|] eqn:Hfind.
    + apply list_find_Some in Hfind as (Hi & Hid & _). apply has_id_true in Hid.
      cbn [ChatStore.sessions ChatStore.set_sessions].
      split; [apply sublist_delete|].
      split; [rewrite length_delete by eauto; lia|].
      split.
      { rewrite <- (take_drop_middle _ _ _ Hi) at 2. rewrite delete_take_drop.
        rewrite !filter_app, filter_cons_False; [done|]. by intros Hne. }
      split; [|done]. destruct st. by destruct (bool_decide _).
    + split; [done|]. split; [lia|]. split; [done|]. split; [|done].
      destruct st. by destruct (bool_decide _).
  - rewrite (deleteSession_refused st id api Hno).
    cbn [fst snd Act.state Act.console Act.calls].
    split; [by intros ->|]. split; [by intros e ->|]. split; [done|].
    split; [done|]. split; [lia|]. split; [done|]. split; [|done]. by destruct st.
Qed.

(** X3: after [selectSession(id)] the list of sessions is as before and
    [currentSession] is the first session with that id, when [id] is not
    the empty string; it is [null] when no session has the id, and also
    when [id] is the empty string, whatever the sessions are. After
    [clearSelection()] it is [null]. *)
Theorem selectSession_currentSession st (id : jsstring) :
  let st' := Act.state (Act.run (ChatStore.selectSession id) st).2 in
  st' = ChatStore.set_currentSessionId (Some id) st ∧
  (∀ i s, id ≠ [] → ChatStore.first_with_id id (ChatStore.sessions st) i s →
     ChatStore.currentSession st' = Some s) ∧
  ((∀ s, s ∈ ChatStore.sessions st → Bridge.id s ≠ id) →
     ChatStore.currentSession st' = None) ∧
  (id = [] → ChatStore.currentSession st' = None) ∧
  ChatStore.currentSession (Act.state (Act.run ChatStore.clearSelection st).2) = None.
Proof.
  cbv zeta. cbn [Act.run ChatStore.selectSession ChatStore.clearSelection
                 Act.modify Act.state snd].
  split; [done|]. unfold ChatStore.currentSession.
  cbn [ChatStore.currentSessionId ChatStore.set_currentSessionId ChatStore.sessions
       ChatStore.truthy].
  split; [|split; [|split; [|done]]].
  - intros i s Hid Hfirst. destruct id as [|c id]; [done|]. cbn [JsString.truthy negb].
    apply list_find_first_with_id in Hfirst. unfold JsArray.find. by rewrite Hfirst.
  - intros Hnone. destruct (negb _); [done|]. unfold JsArray.find.
    by rewrite (proj2 (list_find_no_id id (ChatStore.sessions st)) Hnone).
  - by intros ->.
Qed.

Lemma has_template_id_true (x : jsstring) (t : ChatStore.KeywordTemplate) :
  ChatStore.has_template_id x t = true ↔ ChatStore.template_id t = x.
Proof. unfold ChatStore.has_template_id. by rewrite bool_decide_eq_true. Qed.

(** The template that [findIndex] stops at: the first one with the id. *)
Lemma findIndex_template (x : jsstring) (ts : list ChatStore.KeywordTemplate) :
  (∃ i t, JsArray.findIndex (ChatStore.has_template_id x) ts = Z.of_nat i ∧
          ts !! i = Some t ∧ ChatStore.template_id t = x ∧
          ∀ j u, ts !! j = Some u → (j < i)%nat → ChatStore.template_id u ≠ x)
  ∨ (JsArray.findIndex (ChatStore.has_template_id x) ts = -1 ∧
     ∀ u, u ∈ ts → ChatStore.template_id u ≠ x).
Proof.
  unfold JsArray.findIndex.
  destruct (list_find _ ts) as [[i t]|] eqn:Hfind.
  - left. exists i, t. apply list_find_Some in Hfind as (Hi & Hid & Hmin).
    split; [done|]. split; [done|]. split; [by apply has_template_id_true|].
    intros j u Hj Hlt Hu. by apply (Hmin j u Hj Hlt), has_template_id_true.
  - right. split; [done|]. apply list_find_None in Hfind.
    rewrite Forall_forall in Hfind. intros u Hu Hid.
    by apply (Hfind u Hu), has_template_id_true.
Qed.

Lemma set_customKeywordTemplates_same st :
  ChatStore.set_customKeywordTemplates (ChatStore.customKeywordTemplates st) st = st.
Proof. by destruct st. Qed.

Lemma set_customKeywordTemplates_twice st (ts ts' : list ChatStore.KeywordTemplate) :
  ChatStore.set_customKeywordTemplates ts' (ChatStore.set_customKeywordTemplates ts st)
  = ChatStore.set_customKeywordTemplates ts' st.
Proof. done. Qed.

Lemma removeCustomKeywordTemplate_run (x : jsstring) (w : Act.world ChatStore.state) :
  ChatStore.removeCustomKeywordTemplate x w
  = (Normal (),
     Act.World
       (let ts := ChatStore.customKeywordTemplates (Act.state w) in
        ChatStore.set_customKeywordTemplates
          (match list_find (λ t, ChatStore.has_template_id x t = true) ts with
           | Some (i, _) => delete i ts
           | None => ts
           end) (Act.state w))
       (Act.console w) (Act.calls w)).
Proof.
  unfold ChatStore.removeCustomKeywordTemplate, JsArray.findIndex, JsArray.splice1.
  cbv [mbind Act_bind Act.bind Act.gets mret Act_ret Act.ret].
  destruct (list_find _ _) as [[i t]|].
  - assert ((Z.of_nat i =? -1) = false) as -> by (apply Z.eqb_neq; lia). cbn [negb].
    by rewrite Nat2Z.id.
  - cbn. rewrite set_customKeywordTemplates_same. by destruct w.
Qed.

(** X4: [removeCustomKeywordTemplate] takes out the first template with
    the given id and nothing else. So adding a template and then removing
    its id gives back the store as it was when no template had that id
    before; when one had, it is that older template which goes, and the
    one just added stays at the end. *)
Theorem removeCustomKeywordTemplate_after_add st (t : ChatStore.KeywordTemplate) :
  let ts := ChatStore.customKeywordTemplates st in
  let after :=
    Act.run (ChatStore.addCustomKeywordTemplate t;;
             ChatStore.removeCustomKeywordTemplate (ChatStore.template_id t)) st in
  after.1 = Normal () ∧
  ((∀ u, u ∈ ts → ChatStore.template_id u ≠ ChatStore.template_id t) →
     Act.state after.2 = st) ∧
  (∀ i u, ts !! i = Some u → ChatStore.template_id u = ChatStore.template_id t →
     (∀ j v, ts !! j = Some v → (j < i)%nat →
        ChatStore.template_id v ≠ ChatStore.template_id t) →
     Act.state after.2 = ChatStore.set_customKeywordTemplates (delete i ts ++ [t]) st).
Proof.
  cbv zeta. unfold Act.run, ChatStore.addCustomKeywordTemplate.
  cbv [mbind Act_bind Act.bind Act.modify].
  rewrite removeCustomKeywordTemplate_run.
  cbn [fst snd Act.state Act.console Act.calls ChatStore.customKeywordTemplates
       ChatStore.set_customKeywordTemplates].
  split; [done|]. split.
  - intros Hfresh.
    assert (list_find (λ u, ChatStore.has_template_id (ChatStore.template_id t) u = true)
              (ChatStore.customKeywordTemplates st ++ [t])
            = Some (length (ChatStore.customKeywordTemplates st), t)) as ->.
    { apply list_find_Some. split; [by rewrite lookup_app_r, Nat.sub_diag by lia|].
      split; [by apply has_template_id_true|].
      intros j u Hj Hlt Hu. rewrite lookup_app_l in Hj by done.
      apply has_template_id_true in Hu.
      by apply (Hfresh u (list_elem_of_lookup_2 _ _ _ Hj)). }
    replace (delete (length (ChatStore.customKeywordTemplates st))
               (ChatStore.customKeywordTemplates st ++ [t]))
      with (ChatStore.customKeywordTemplates st).
    + by destruct st.
    + rewrite delete_take_drop, take_app_length', drop_app_ge by lia.
      replace (S _ - _)%nat with 1%nat by lia. by rewrite app_nil_r.
  - intros i u Hi Hid Hmin.
    assert (list_find (λ u, ChatStore.has_template_id (ChatStore.template_id t) u = true)
              (ChatStore.customKeywordTemplates st ++ [t]) = Some (i, u)) as ->.
    { apply list_find_Some. split; [by apply lookup_app_l_Some|].
      split; [by apply has_template_id_true|].
      intros j v Hj Hlt Hv. apply has_template_id_true in Hv.
      rewrite lookup_app_l in Hj by (apply lookup_lt_Some in Hi; lia).
      by apply (Hmin j v Hj Hlt). }
    rewrite set_customKeywordTemplates_twice. f_equal. apply lookup_lt_Some in Hi.
    rewrite !delete_take_drop, take_app_le, drop_app_le by lia.
    by rewrite app_assoc.
Qed.

(** X5: [updateCustomKeywordTemplate] changes the first template with the
    given id, to the spread of its fields and the updates, and nothing
    else: the ids of the templates and their order are as before, every
    other template is as before, also a later one with the same id, and
    nothing happens when no template has the id. *)
Theorem updateCustomKeywordTemplate_frame st (x : jsstring)
    (updates : Bridge.TemplateUpdates) :
  let ts := ChatStore.customKeywordTemplates st in
  let after := Act.run (ChatStore.updateCustomKeywordTemplate x updates) st in
  let ts' := ChatStore.customKeywordTemplates (Act.state after.2) in
  after.1 = Normal () ∧
  Act.state after.2 = ChatStore.set_customKeywordTemplates ts' st ∧
  ChatStore.template_id <$> ts' = ChatStore.template_id <$> ts ∧
  ((∀ u, u ∈ ts → ChatStore.template_id u ≠ x) → ts' = ts) ∧
  (∀ i u, ts !! i = Some u → ChatStore.template_id u = x →
     (∀ j v, ts !! j = Some v → (j < i)%nat → ChatStore.template_id v ≠ x) →
     ts' !! i = Some (ChatStore.apply_updates updates u) ∧
     ∀ j, j ≠ i → ts' !! j = ts !! j).
Proof.
  cbv zeta. unfold Act.run, ChatStore.updateCustomKeywordTemplate.
  cbv [mbind Act_bind Act.bind Act.gets mret Act_ret Act.ret].
  cbn [Act.state].
  destruct (findIndex_template x (ChatStore.customKeywordTemplates st))
    as [(i & t & -> & Hi & Hid & Hmin)|[-> Hnone]].
  - assert ((Z.of_nat i =? -1) = false) as -> by (apply Z.eqb_neq; lia). cbn [negb].
    rewrite Nat2Z.id.
    cbn [Act.modify fst snd Act.state ChatStore.customKeywordTemplates
         ChatStore.set_customKeywordTemplates].
    split; [done|]. split; [done|]. split.
    { apply list_eq. intros j. rewrite !list_lookup_fmap.
      destruct (decide (j = i)) as [->|Hne].
      - by rewrite list_lookup_alter_eq, Hi.
      - by rewrite list_lookup_alter_ne. }
    split.
    { intros Hnone. by destruct (Hnone t (list_elem_of_lookup_2 _ _ _ Hi)). }
    intros i' u Hi' Hid' Hmin'.
    assert (i' = i) as ->.
    { destruct (Nat.lt_trichotomy i' i) as [Hlt|[->|Hlt]]; [|done|].
      - by destruct (Hmin i' u Hi' Hlt).
      - by destruct (Hmin' i t Hi Hlt). }
    split.
    + rewrite list_lookup_alter_eq, Hi. cbn. congruence.
    + intros j Hne. by rewrite list_lookup_alter_ne.
  - cbn [negb Z.eqb fst snd Act.state]. split; [done|].
    split; [by rewrite set_customKeywordTemplates_same|]. split; [done|].
    split; [done|]. intros i u Hi Hid _.
    by destruct (Hnone u (list_elem_of_lookup_2 _ _ _ Hi)).
Qed.

(** X6: [addDeletedPresetTemplateId] keeps the deleted ids a set: the id
    is among them afterwards, the ids that were there are still there, in
    their order, nothing else is added, an id is never entered twice, and
    a second call with the same id changes nothing. *)
Theorem addDeletedPresetTemplateId_set st (x : jsstring) :
  let ids := ChatStore.deletedPresetTemplateIds st in
  let after := Act.run (ChatStore.addDeletedPresetTemplateId x) st in
  let ids' := ChatStore.deletedPresetTemplateIds (Act.state after.2) in
  Act.state after.2 = ChatStore.set_deletedPresetTemplateIds ids' st ∧
  x ∈ ids' ∧
  ids `prefix_of` ids' ∧
  (∀ y, y ∈ ids' ↔ y ∈ ids ∨ y = x) ∧
  (NoDup ids → NoDup ids') ∧
  Act.state (Act.run (ChatStore.addDeletedPresetTemplateId x) (Act.state after.2)).2
  = Act.state after.2.
Proof.
  cbv zeta. unfold Act.run, ChatStore.addDeletedPresetTemplateId, JsArray.includes.
  cbv [mbind Act_bind Act.bind Act.gets mret Act_ret Act.ret].
  cbn [Act.state].
  destruct (bool_decide (x ∈ ChatStore.deletedPresetTemplateIds st)) eqn:Hin.
  - apply bool_decide_eq_true in Hin.
    rewrite (bool_decide_eq_true_2 _ Hin). cbn [negb snd Act.state].
    split; [by destruct st|]. split; [done|]. split; [done|].
    split; [|done]. intros y. split; [by left|]. by intros [?| ->].
  - apply bool_decide_eq_false in Hin.
    cbn [negb Act.modify snd Act.state ChatStore.deletedPresetTemplateIds
         ChatStore.set_deletedPresetTemplateIds].
    assert (x ∈ ChatStore.deletedPresetTemplateIds st ++ [x]) as Hx
      by (apply elem_of_app; right; by apply list_elem_of_singleton).
    rewrite (bool_decide_eq_true_2 _ Hx). cbn [negb snd Act.state].
    split; [done|]. split; [done|]. split; [by apply prefix_app_r|].
    split; [|split; [|done]].
    + intros y. rewrite elem_of_app, list_elem_of_singleton. tauto.
    + intros Hnd. apply NoDup_app. split; [done|].
      split; [|apply NoDup_singleton].
      intros y Hy ->%list_elem_of_singleton. done.
Qed.

End StoreActions.

(** ** Choosing a file to import *)

Section ImportFileFacts.
Context `{Bridge.Types}.

(** X7: [importFile] goes into [importFileFromPath] exactly when the dialog
    resolved to a result with a non-empty [filePath] and without an
    [error] that is truthy. It then has raised [isImporting] and asked the
    bridge for the import of that very path, and nothing else. In every
    other case, a rejected dialog among them, it returns [success: false]
    together with an error, and the store is not touched. *)
Theorem importFile_outcome (t : Z)
    (selected : completion (option ImportFile.SelectResult)) (st : ChatStore.state) :
  let out := ImportFile.importFile t selected st in
  ((∃ result p, selected = Normal (Some result) ∧
                ImportFile.filePath result = Some p ∧ p ≠ [] ∧
                Changelog.truthy (ImportFile.error result) = false)
   ↔ ∃ s, out = ImportFile.Imports s) ∧
  (∀ s, out = ImportFile.Imports s →
     ∃ result p, selected = Normal (Some result) ∧
       ImportFile.filePath result = Some p ∧
       s = ImportQueue.start t p st ∧
       ImportQueue.main s = ImportQueue.AwaitImport ∧
       ChatStore.isImporting (Act.state (ImportQueue.world s)) = true ∧
       ChatStore.sessions (Act.state (ImportQueue.world s)) = ChatStore.sessions st ∧
       ChatStore.currentSessionId (Act.state (ImportQueue.world s))
       = ChatStore.currentSessionId st ∧
       Act.calls (ImportQueue.world s) = [Bridge.Import p]) ∧
  (∀ r, out = ImportFile.Returns r →
     ImportQueue.success r = false ∧ ImportQueue.error r ≠ None ∧
     (∀ e, selected = Throw e → ImportQueue.error r = Some (Js.String_of e)) ∧
     (∀ result, selected = Normal (Some result) →
        Changelog.truthy (ImportFile.filePath result) = true →
        ImportQueue.error r = ImportFile.error result)).
Proof.
  cbv zeta. unfold ImportFile.importFile.
  destruct selected as [[[path err]|]|e]; cbn [ImportFile.filePath ImportFile.error].
  - destruct (Changelog.truthy path) eqn:Hpath; cbn [negb].
    + destruct path as [p|]; [|done]. cbn in Hpath.
      assert (p ≠ []) as Hp by (by intros ->).
      destruct (Changelog.truthy err) eqn:Herr.
      * split.
        { split; [|by intros (s & ?)].
          intros (result & q & [= <-] & _ & _ & Hfalse). cbn in Hfalse. congruence. }
        split; [done|]. intros r [= <-]. cbn.
        split; [done|]. split; [by destruct err|]. split; [done|].
        by intros result [= <-].
      * split.
        { split; [by eexists|]. intros _.
          by exists {| ImportFile.filePath := Some p; ImportFile.error := err |}, p. }
        split; [|done]. intros s [= <-].
        by exists {| ImportFile.filePath := Some p; ImportFile.error := err |}, p.
    + split.
      { split; [|by intros (s & ?)].
        intros (result & q & [= <-] & Hq & Hne & _). cbn in Hq. subst path.
        cbn in Hpath. by destruct q. }
      split; [done|]. intros r [= <-]. cbn.
      split; [done|]. split; [done|]. split; [done|].
      intros result [= <-]. cbn. congruence.
  - split; [split; [by intros (? & ? & ? & _)|by intros (? & ?)]|].
    split; [done|]. intros r [= <-]. by cbn.
  - split; [split; [by intros (? & ? & ? & _)|by intros (? & ?)]|].
    split; [done|]. intros r [= <-]. cbn.
    split; [done|]. split; [done|]. split; [|done]. by intros ? [= <-].
Qed.

End ImportFileFacts.

(** ** The ranking list *)

Lemma JsArray_slice_range {A} (a : list A) (i j : Z) :
  0 ≤ i ≤ j →
  JsArray.slice a i j = take (Z.to_nat (j - i)) (drop (Z.to_nat i) a).
Proof.
  intros Hij. unfold JsArray.slice, JsString.rel_index. cbv zeta.
  rewrite (proj2 (Z.ltb_ge i 0)), (proj2 (Z.ltb_ge j 0)) by lia.
  destruct (Z.le_gt_cases i (Z.of_nat (length a))) as [Hi|Hi].
  - rewrite (Z.min_l i) by lia.
    destruct (Z.le_gt_cases j (Z.of_nat (length a))) as [Hj|Hj].
    + rewrite (Z.min_l j), Z.max_l by lia. done.
    + rewrite (Z.min_r j), Z.max_l by lia.
      rewrite !take_ge; [done| |]; rewrite length_drop; lia.
  - rewrite (Z.min_r i) by lia. rewrite Nat2Z.id, drop_all.
    rewrite (drop_ge a (Z.to_nat i)) by lia. by rewrite !take_nil.
Qed.

(** X8: the members displayed are the first ones of [members], in their
    order: as many as [rankLimit] says when it is positive and there are
    that many, all of them otherwise. *)
Theorem displayMembers_prefix (props : RankList.Props) :
  RankList.displayMembers props `prefix_of` RankList.members props ∧
  (0 < RankList.rankLimit props →
     RankList.displayMembers props
     = take (Z.to_nat (RankList.rankLimit props)) (RankList.members props) ∧
     Z.of_nat (length (RankList.displayMembers props))
     = Z.min (RankList.rankLimit props) (Z.of_nat (length (RankList.members props)))) ∧
  (RankList.rankLimit props ≤ 0 →
     RankList.displayMembers props = RankList.members props) ∧
  head (RankList.displayMembers props) = head (RankList.members props).
Proof.
  unfold RankList.displayMembers.
  destruct (Z.ltb_spec 0 (RankList.rankLimit props)) as [Hpos|Hneg].
  - rewrite JsArray_slice_range by lia. rewrite Z.sub_0_r.
    change (drop (Z.to_nat 0) (RankList.members props)) with (RankList.members props).
    split; [apply prefix_take|]. split; [|split; [lia|]].
    + intros _. split; [done|]. rewrite length_take. lia.
    + destruct (Z.to_nat (RankList.rankLimit props)) as [|n] eqn:Hn; [lia|].
      by destruct (RankList.members props).
  - split; [done|]. split; [lia|]. by split.
Qed.

Lemma Math_round_le (x y : Q) : (x <= y)%Q → Js.Math_round x ≤ Js.Math_round y.
Proof.
  intros Hxy. unfold Js.Math_round. apply Qfloor_resp_le.
  by apply Qplus_le_l.
Qed.

Lemma Math_round_integer (n : Z) : Js.Math_round (inject_Z n) = n.
Proof.
  unfold Js.Math_round. apply Z.le_antisymm.
  - apply Z.lt_succ_r. rewrite Zlt_Qlt.
    eapply Qle_lt_trans; [apply Qfloor_le|].
    unfold Z.succ. rewrite inject_Z_plus. apply Qplus_lt_r. reflexivity.
  - rewrite <- (Qfloor_Z n) at 1. apply Qfloor_resp_le.
    rewrite <- (Qplus_0_r (inject_Z n)) at 1. apply Qplus_le_r. discriminate.
Qed.



(** ** The statistics of the timeline tab *)

Section TimelineStatsFacts.
Context `{TimelineStats.Dayjs}.
Implicit Types (props : TimelineStats.Props) (d : TimelineStats.DailyActivity).

Lemma Math_floor_half (c : Z) :
  TimelineStats.Math_floor (inject_Z c / 2) = c / 2.
Proof.
  unfold TimelineStats.Math_floor, Qfloor, Qdiv, Qmult, Qinv, inject_Z.
  cbn. by rewrite Z.mul_1_r.
Qed.

Lemma Math_ceil_50 (len : Z) :
  TimelineStats.Math_ceil (inject_Z len / inject_Z TimelineStats.maxPoints)
  = - (- len / 50).
Proof.
  unfold TimelineStats.Math_ceil, Qceiling, Qfloor, Qdiv, Qmult, Qinv, Qopp, inject_Z,
    TimelineStats.maxPoints.
  cbn. by rewrite Z.mul_1_r.
Qed.

(** The sum of a chunk lies between the bounds of its entries. *)
Lemma total_between (chunk : list TimelineStats.DailyActivity) (lo hi : Z) :
  (∀ d, d ∈ chunk →
     (inject_Z lo <= TimelineStats.messageCount d <= inject_Z hi)%Q) →
  (inject_Z lo * inject_Z (Z.of_nat (length chunk)) <= TimelineStats.total chunk
   <= inject_Z hi * inject_Z (Z.of_nat (length chunk)))%Q.
Proof.
  unfold TimelineStats.total. intros Hall.
  induction chunk as [|d chunk IH] using rev_ind.
  - cbn. rewrite !Qmult_0_r. split; apply Qle_refl.
  - rewrite foldl_app, length_app. cbn [foldl length].
    rewrite Nat2Z.inj_add, inject_Z_plus. change (inject_Z (Z.of_nat 1)) with 1%Q.
    rewrite !Qmult_plus_distr_r, !Qmult_1_r.
    destruct IH as [IHlo IHhi].
    { intros x Hx. apply Hall, elem_of_app. by left. }
    destruct (Hall d) as [Hlo Hhi].
    { apply elem_of_app. right. by apply list_elem_of_singleton. }
    split; by apply Qplus_le_compat.
Qed.

(** So does the rounded mean. *)
Lemma mean_between (chunk : list TimelineStats.DailyActivity) (lo hi : Z) :
  chunk ≠ [] →
  (∀ d, d ∈ chunk →
     (inject_Z lo <= TimelineStats.messageCount d <= inject_Z hi)%Q) →
  lo ≤ Js.Math_round (TimelineStats.total chunk / inject_Z (Z.of_nat (length chunk))) ≤ hi.
Proof.
  intros Hne Hall. destruct (total_between chunk lo hi Hall) as [Hlo Hhi].
  assert (0 < inject_Z (Z.of_nat (length chunk)))%Q as Hpos.
  { change 0%Q with (inject_Z 0). rewrite <- Zlt_Qlt. destruct chunk; [done|]. cbn [length]. lia. }
  split.
  - etransitivity; [apply Z.eq_le_incl; symmetry; apply (Math_round_integer lo)|].
    apply Math_round_le.
    by apply Qle_shift_div_l.
  - etransitivity; [|apply Z.eq_le_incl, (Math_round_integer hi)]. apply Math_round_le.
    by apply Qle_shift_div_r.
Qed.

(** What the loop of [dailyChartData] adds to the two arrays. *)
Lemma aggregate_spec props (g lo hi : Z) (fuel : nat) :
  0 < g →
  ∀ (i : Z) (acc : TimelineStats.LineChartData),
    0 ≤ i →
    Z.of_nat (length (TimelineStats.dailyActivity props)) - i ≤ Z.of_nat fuel * g →
    ∃ acc',
      TimelineStats.aggregate fuel props g i acc = Some (Normal acc') ∧
      ∃ (ls : list jsstring) (vs : list Q),
        TimelineStats.labels acc' = TimelineStats.labels acc ++ ls ∧
        TimelineStats.values acc' = TimelineStats.values acc ++ vs ∧
        length ls = length vs ∧
        Z.of_nat (length (TimelineStats.dailyActivity props)) - i
          ≤ Z.of_nat (length ls) * g ∧
        Z.of_nat (length ls) * g
          < Z.max (Z.of_nat (length (TimelineStats.dailyActivity props)) - i) 0 + g ∧
        (∀ l, l ∈ ls →
           ∃ d, d ∈ TimelineStats.dailyActivity props ∧
                l = TimelineStats.format (TimelineStats.date d)
                      (TimelineStats.dateFormat props)) ∧
        ((∀ d, d ∈ TimelineStats.dailyActivity props →
            (inject_Z lo <= TimelineStats.messageCount d <= inject_Z hi)%Q) →
         ∀ v, v ∈ vs → ∃ n, v = inject_Z n ∧ lo ≤ n ≤ hi).
Proof.
  intros Hg. induction fuel as [|fuel IH]; intros i acc Hi Hfuel.
  - cbn [TimelineStats.aggregate].
    rewrite (proj2 (Z.ltb_ge i _)) by lia.
    exists acc. split; [done|]. exists [], [].
    rewrite !app_nil_r. cbn [length]. repeat (split; [done || lia|]).
    split; [by intros l Hl%elem_of_nil|]. by intros _ v Hv%elem_of_nil.
  - cbn [TimelineStats.aggregate].
    destruct (Z.ltb_spec i (Z.of_nat (length (TimelineStats.dailyActivity props))))
      as [Hlt|Hge].
    + rewrite JsArray_slice_range by lia. replace (i + g - i) with g by lia.
      set (chunk := take (Z.to_nat g) (drop (Z.to_nat i) (TimelineStats.dailyActivity props))).
      assert (Z.of_nat (length chunk)
              = Z.min g (Z.of_nat (length (TimelineStats.dailyActivity props)) - i))
        as Hlen by (unfold chunk; rewrite length_take, length_drop; lia).
      assert (chunk ≠ []) as Hne by (intros Hnil; rewrite Hnil in Hlen; cbn in Hlen; lia).
      assert (∀ d, d ∈ chunk → d ∈ TimelineStats.dailyActivity props) as Hsub.
      { intros d Hd. unfold chunk in Hd.
        by apply subseteq_take, subseteq_drop in Hd. }
      assert ((Z.of_nat (length chunk) =? 0) = false) as -> by (apply Z.eqb_neq; lia).
      rewrite Math_floor_half.
      destruct (RankList.element chunk (Z.of_nat (length chunk) / 2)) as [mid|] eqn:Hmid.
      * destruct (IH (i + g)
                    {| TimelineStats.labels :=
                         TimelineStats.labels acc
                         ++ [TimelineStats.format (TimelineStats.date mid)
                               (TimelineStats.dateFormat props)];
                       TimelineStats.values :=
                         TimelineStats.values acc
                         ++ [inject_Z (Js.Math_round
                                         (TimelineStats.total chunk
                                          / inject_Z (Z.of_nat (length chunk))))] |})
          as (acc' & -> & ls & vs & Hls & Hvs & Hsame & Hlow & Hhigh & Hlabels & Hvalues);
          [lia|lia|].
        cbn [TimelineStats.labels TimelineStats.values] in Hls, Hvs.
        exists acc'. split; [done|].
        eexists (_ :: ls), (_ :: vs).
        split; [by rewrite Hls, <- app_assoc|].
        split; [by rewrite Hvs, <- app_assoc|].
        cbn [length]. split; [by rewrite Hsame|].
        split; [lia|]. split.
        { destruct (Z.max_spec
                      (Z.of_nat (length (TimelineStats.dailyActivity props)) - (i + g)) 0)
            as [[Hcase Hmax]|[Hcase Hmax]]; rewrite Hmax in Hhigh.
          - assert (Z.of_nat (length ls) = 0) as Hnone by nia.
            rewrite Nat2Z.inj_succ, Hnone. lia.
          - lia. }
        split.
        { intros l [->|Hl]%elem_of_cons; [|by apply Hlabels].
          exists mid. split; [|done]. apply Hsub.
          unfold RankList.element in Hmid. destruct (_ <? 0); [done|].
          by eapply list_elem_of_lookup_2. }
        intros Hall v [->|Hv]%elem_of_cons; [|by apply Hvalues].
        eexists. split; [done|]. apply mean_between; [done|].
        intros d Hd. by apply Hall, Hsub.
      * exfalso. unfold RankList.element in Hmid.
        destruct (Z.ltb_spec (Z.of_nat (length chunk) / 2) 0) as [Hneg|_].
        { assert (0 ≤ Z.of_nat (length chunk) / 2) by (apply Z.div_pos; lia). lia. }
        apply lookup_ge_None in Hmid.
        assert (Z.of_nat (length chunk) / 2 < Z.of_nat (length chunk))
          by (apply Z.div_lt; lia).
        lia.
    + exists acc. split; [done|]. exists [], [].
      rewrite !app_nil_r. cbn [length]. repeat (split; [done || lia|]).
      split; [by intros l Hl%elem_of_nil|]. by intros _ v Hv%elem_of_nil.
Qed.

(** X10: [dailyChartData] always gives a chart, with as many labels as
    values and never more than 50 of them. With at most 50 days the chart
    has the days as they are. With more, the days are put in groups of
    [⌈days / 50⌉] and the chart has one point for each group; every label
    is the formatted date of one of the days, and every value is a whole
    number that lies between any two whole numbers that bound the daily
    counts. *)
Theorem dailyChartData_points props (lo hi : Z) :
  let rawData := TimelineStats.dailyActivity props in
  let len := Z.of_nat (length rawData) in
  ∃ chart,
    TimelineStats.dailyChartData props = Some (Normal chart) ∧
    length (TimelineStats.labels chart) = length (TimelineStats.values chart) ∧
    Z.of_nat (length (TimelineStats.labels chart)) ≤ 50 ∧
    (len ≤ 50 →
       TimelineStats.labels chart
       = (λ d, TimelineStats.format (TimelineStats.date d)
                 (TimelineStats.dateFormat props)) <$> rawData ∧
       TimelineStats.values chart = TimelineStats.messageCount <$> rawData) ∧
    (50 < len →
       let groupSize := (len + 49) / 50 in
       let points := Z.of_nat (length (TimelineStats.labels chart)) in
       (points - 1) * groupSize < len ≤ points * groupSize ∧
       (∀ l, l ∈ TimelineStats.labels chart →
          ∃ d, d ∈ rawData ∧
               l = TimelineStats.format (TimelineStats.date d)
                     (TimelineStats.dateFormat props)) ∧
       ((∀ d, d ∈ rawData →
           (inject_Z lo <= TimelineStats.messageCount d <= inject_Z hi)%Q) →
        ∀ v, v ∈ TimelineStats.values chart → ∃ n, v = inject_Z n ∧ lo ≤ n ≤ hi)).
Proof.
  cbv zeta. unfold TimelineStats.dailyChartData.
  destruct (Z.leb_spec (Z.of_nat (length (TimelineStats.dailyActivity props)))
              TimelineStats.maxPoints) as [Hle|Hgt]; unfold TimelineStats.maxPoints in *.
  - eexists. split; [done|]. cbn [TimelineStats.labels TimelineStats.values].
    rewrite !length_fmap. split; [done|]. split; [done|]. split; [done|]. lia.
  - rewrite Math_ceil_50.
    set (len := Z.of_nat (length (TimelineStats.dailyActivity props))) in *.
    assert (- (- len / 50) = (len + 49) / 50) as -> by (Z.div_mod_to_equations; lia).
    assert (len ≤ 50 * ((len + 49) / 50)) as Hgroup by (Z.div_mod_to_equations; lia).
    assert (0 < (len + 49) / 50) as Hpos by (Z.div_mod_to_equations; lia).
    destruct (aggregate_spec props ((len + 49) / 50) lo hi
                (length (TimelineStats.dailyActivity props)) Hpos 0
                {| TimelineStats.labels := []; TimelineStats.values := [] |})
      as (chart & -> & ls & vs & Hls & Hvs & Hsame & Hlow & Hhigh & Hlabels & Hvalues);
      [done|fold len; nia|].
    cbn [TimelineStats.labels TimelineStats.values app] in Hls, Hvs.
    fold len in Hlow, Hhigh. rewrite Z.sub_0_r in Hlow, Hhigh.
    rewrite Z.max_l in Hhigh by lia.
    exists chart. split; [done|]. rewrite Hls, Hvs.
    split; [done|]. split; [nia|]. split; [lia|].
    intros _. split; [lia|]. by split.
Qed.

Lemma more_messages_true d max :
  TimelineStats.more_messages d max = true
  ↔ (TimelineStats.messageCount max < TimelineStats.messageCount d)%Q.
Proof.
  unfold TimelineStats.more_messages. rewrite negb_true_iff.
  split.
  - intros Hle. apply Qnot_le_lt. intros Hle'%Qle_bool_iff. congruence.
  - intros Hlt. apply not_true_is_false. intros Hle%Qle_bool_iff.
    by apply (Qlt_not_le _ _ Hlt).
Qed.

(** The [reduce] of [peakDay], started after a part [pre] of the array of
    which [max] is the first entry with the largest count. *)
Lemma peak_fold (l pre : list TimelineStats.DailyActivity) max (i : nat) :
  pre !! i = Some max →
  (∀ x, x ∈ pre → (TimelineStats.messageCount x <= TimelineStats.messageCount max)%Q) →
  (∀ j x, (j < i)%nat → pre !! j = Some x →
     (TimelineStats.messageCount x < TimelineStats.messageCount max)%Q) →
  let peak := foldl (λ max d, if TimelineStats.more_messages d max then d else max) max l in
  ∃ k, (pre ++ l) !! k = Some peak ∧
    (∀ x, x ∈ pre ++ l →
       (TimelineStats.messageCount x <= TimelineStats.messageCount peak)%Q) ∧
    (∀ j x, (j < k)%nat → (pre ++ l) !! j = Some x →
       (TimelineStats.messageCount x < TimelineStats.messageCount peak)%Q).
Proof.
  cbv zeta. revert pre max i. induction l as [|d l IH]; intros pre max i Hi Hmax Hfirst.
  - exists i. rewrite app_nil_r. by cbn.
  - cbn [foldl]. replace (pre ++ d :: l) with ((pre ++ [d]) ++ l) by by rewrite <- app_assoc.
    destruct (TimelineStats.more_messages d max) eqn:Hmore.
    + apply more_messages_true in Hmore.
      apply (IH (pre ++ [d]) d (length pre)).
      * by rewrite lookup_app_r, Nat.sub_diag by lia.
      * intros x [Hx| ->%list_elem_of_singleton]%elem_of_app; [|apply Qle_refl].
        apply Qlt_le_weak. eapply Qle_lt_trans; [by apply Hmax|done].
      * intros j x Hj Hx. rewrite lookup_app_l in Hx by done.
        eapply Qle_lt_trans; [|done]. apply Hmax. by eapply list_elem_of_lookup_2.
    + apply (IH (pre ++ [d]) max i).
      * by apply lookup_app_l_Some.
      * intros x [Hx| ->%list_elem_of_singleton]%elem_of_app; [by apply Hmax|].
        apply Qnot_lt_le. intros Hlt%more_messages_true. congruence.
      * intros j x Hj Hx. apply (Hfirst j x Hj).
        rewrite lookup_app_l in Hx; [done|]. apply lookup_lt_Some in Hi. lia.
Qed.

(** X11: [peakDay] is [null] exactly when there is no day. Otherwise it
    is one of the days, no day has more messages, and among the days with
    that many messages it is the earliest one. *)
Theorem peakDay_first_maximum props :
  (TimelineStats.peakDay props = None ↔ TimelineStats.dailyActivity props = []) ∧
  ∀ peak, TimelineStats.peakDay props = Some peak →
    ∃ k, TimelineStats.dailyActivity props !! k = Some peak ∧
      (∀ x, x ∈ TimelineStats.dailyActivity props →
         (TimelineStats.messageCount x <= TimelineStats.messageCount peak)%Q) ∧
      (∀ j x, (j < k)%nat → TimelineStats.dailyActivity props !! j = Some x →
         (TimelineStats.messageCount x < TimelineStats.messageCount peak)%Q).
Proof.
  unfold TimelineStats.peakDay.
  destruct (TimelineStats.dailyActivity props) as [|first rest]; [done|].
  split; [done|]. intros peak [= <-]. cbn [foldl].
  assert (TimelineStats.more_messages first first = false) as ->.
  { apply not_true_is_false. intros Hlt%more_messages_true.
    by apply Qlt_irrefl in Hlt. }
  apply (peak_fold rest [first] first 0).
  - done.
  - intros x ->%list_elem_of_singleton. apply Qle_refl.
  - intros j x Hj. lia.
Qed.

(** X12: with no day, [avgDailyMessages] is 0. Otherwise it is a whole
    number between any two whole numbers that bound the daily counts, and
    it is within one half of the mean of the counts. *)
Theorem avgDailyMessages_between props (lo hi : Z) :
  TimelineStats.dailyActivity props ≠ [] →
  (∀ d, d ∈ TimelineStats.dailyActivity props →
     (inject_Z lo <= TimelineStats.messageCount d <= inject_Z hi)%Q) →
  let mean := (TimelineStats.total (TimelineStats.dailyActivity props)
               / inject_Z (Z.of_nat (length (TimelineStats.dailyActivity props))))%Q in
  lo ≤ TimelineStats.avgDailyMessages props ≤ hi ∧
  (mean - (1 # 2) < inject_Z (TimelineStats.avgDailyMessages props) <= mean + (1 # 2))%Q.
Proof.
  intros Hne Hall. cbv zeta. unfold TimelineStats.avgDailyMessages.
  destruct (TimelineStats.dailyActivity props) as [|d l] eqn:Hdays; [done|].
  split; [by apply mean_between|].
  unfold Js.Math_round.
  set (mean := (TimelineStats.total (d :: l) / inject_Z (Z.of_nat (length (d :: l))))%Q).
  pose proof (Qlt_floor (mean + (1 # 2))) as Hlt.
  pose proof (Qfloor_le (mean + (1 # 2))) as Hle.
  rewrite inject_Z_plus in Hlt. change (inject_Z 1) with 1%Q in Hlt.
  split; [lra|done].
Qed.


(** A finite set has more than one element exactly when it has two
    different ones. *)
Lemma gset_size_two (X : gset Z) :
  (1 <? Z.of_nat (size X)) = true ↔ ∃ y1 y2, y1 ∈ X ∧ y2 ∈ X ∧ y1 ≠ y2.
Proof.
  rewrite Z.ltb_lt. split.
  - intros Hgt. destruct (set_choose_or_empty X) as [[y1 Hy1]|Hempty].
    + destruct (set_choose_or_empty (X ∖ {[y1]})) as [[y2 Hy2]|Hempty].
      * apply elem_of_difference in Hy2 as [Hy2 Hne].
        exists y1, y2. split; [done|]. split; [done|].
        intros ->. by apply Hne, elem_of_singleton.
      * assert (size X = 1%nat); [|lia].
        assert (X = {[y1]}) as ->; [|apply size_singleton].
        apply set_eq. intros y. rewrite elem_of_singleton.
        split; [|by intros ->]. intros Hy.
        destruct (decide (y = y1)) as [|Hne]; [done|]. exfalso.
        apply (not_elem_of_empty (C := gset Z) y). rewrite <- Hempty.
        apply elem_of_difference. split; [done|]. by rewrite elem_of_singleton.
    + apply size_empty_iff in Hempty. lia.
  - intros (y1 & y2 & Hy1 & Hy2 & Hne).
    assert (size ({[y1; y2]} : gset Z) ≤ size X)%nat as Hsub.
    { apply subseteq_size. intros y [->%elem_of_singleton| ->%elem_of_singleton]%elem_of_union;
        done. }
    rewrite size_union, !size_singleton in Hsub; [lia|].
    intros y ->%elem_of_singleton ->%elem_of_singleton. done.
Qed.

(** X14: [isMultiYear] holds exactly when two of the days fall in
    different years. *)
Theorem isMultiYear_iff props :
  TimelineStats.isMultiYear props = true
  ↔ ∃ d1 d2, d1 ∈ TimelineStats.dailyActivity props ∧
             d2 ∈ TimelineStats.dailyActivity props ∧
             TimelineStats.year (TimelineStats.date d1)
             ≠ TimelineStats.year (TimelineStats.date d2).
Proof.
  unfold TimelineStats.isMultiYear.
  set (years := list_to_set _ : gset Z).
  assert (∀ y, y ∈ years
               ↔ ∃ d, d ∈ TimelineStats.dailyActivity props ∧
                      y = TimelineStats.year (TimelineStats.date d)) as Hyears.
  { intros y. unfold years. rewrite elem_of_list_to_set, list_elem_of_fmap.
    split; intros (d & ? & ?); by exists d. }
  pose proof (gset_size_two years) as Hsize. clearbody years.
  destruct (Z.ltb_spec (Z.of_nat (length (TimelineStats.dailyActivity props))) 2)
    as [Hshort|Hlong].
  - split; [done|]. intros (d1 & d2 & Hd1 & Hd2 & Hne). exfalso.
    destruct (TimelineStats.dailyActivity props) as [|x [|x' l]];
      [by apply elem_of_nil in Hd1| |cbn in Hshort; lia].
    apply list_elem_of_singleton in Hd1, Hd2. congruence.
  - rewrite Hsize. split.
    + intros (y1 & y2 & (d1 & Hd1 & ->)%Hyears & (d2 & Hd2 & ->)%Hyears & Hne).
      by exists d1, d2.
    + intros (d1 & d2 & Hd1 & Hd2 & Hne).
      exists (TimelineStats.year (TimelineStats.date d1)),
             (TimelineStats.year (TimelineStats.date d2)).
      split; [apply Hyears; by exists d1|]. split; [apply Hyears; by exists d2|done].
Qed.

End TimelineStatsFacts.

Lemma avgDailyMessages_between_witness :
  0 ≤ TimelineStats.avgDailyMessages SampleDays.new_year ≤ 40 ∧
  (TimelineStats.total (TimelineStats.dailyActivity SampleDays.new_year) / inject_Z 4
   - (1 # 2) < inject_Z (TimelineStats.avgDailyMessages SampleDays.new_year)
   <= TimelineStats.total (TimelineStats.dailyActivity SampleDays.new_year) / inject_Z 4
      + (1 # 2))%Q.
Proof.
  apply (avgDailyMessages_between SampleDays.new_year 0 40); [done|].
  intros d Hd. unfold SampleDays.new_year in Hd. cbn [TimelineStats.dailyActivity] in Hd.
  repeat (apply elem_of_cons in Hd as [->|Hd]; [by vm_compute|]).
  by apply elem_of_nil in Hd.
Defined.

(** ** The changelog modal *)

Section ChangelogFacts.
Variable locale : jsstring.
Variable t : string → jsstring.
Implicit Types (s : ChangelogModal.state) (api : ChangelogModal.app_api).

(** X15: [toggleVersion] turns the entry of one version over, whatever
    made it expanded or collapsed before, and touches no other version
    and nothing else of the component; toggling twice gives back what was
    displayed. Once toggled, the entry no longer follows its index or the
    version of the application. *)
Theorem toggleVersion_flips s (version : jsstring) (index : Z) :
  let s' := ChangelogModal.toggleVersion version index s in
  (∀ i, ChangelogModal.isExpanded s' version i
        = negb (ChangelogModal.isExpanded s version index)) ∧
  (∀ v i, v ≠ version →
     ChangelogModal.isExpanded s' v i = ChangelogModal.isExpanded s v i) ∧
  (∀ i j, ChangelogModal.isExpanded (ChangelogModal.toggleVersion version i s') version j
          = ChangelogModal.isExpanded s version index) ∧
  s' = ChangelogModal.set_expandedState (ChangelogModal.expandedState s') s.
Proof.
  cbv zeta.
  assert (∀ i, ChangelogModal.isExpanded
                 (ChangelogModal.toggleVersion version index s) version i
               = negb (ChangelogModal.isExpanded s version index)) as Hflip.
  { intros i. unfold ChangelogModal.toggleVersion.
    unfold ChangelogModal.isExpanded at 1.
    cbn [ChangelogModal.expandedState ChangelogModal.set_expandedState].
    by rewrite lookup_insert_eq. }
  split; [done|]. split; [|split; [|done]].
  - intros v i Hne. unfold ChangelogModal.toggleVersion, ChangelogModal.isExpanded.
    cbn [ChangelogModal.expandedState ChangelogModal.set_expandedState
         ChangelogModal.currentAppVersion].
    rewrite lookup_insert_ne by done.
    unfold ChangelogModal.isCurrentVersion.
    by cbn [ChangelogModal.currentAppVersion ChangelogModal.set_expandedState].
  - intros i j. unfold ChangelogModal.toggleVersion at 1.
    unfold ChangelogModal.isExpanded at 1.
    cbn [ChangelogModal.expandedState ChangelogModal.set_expandedState].
    rewrite lookup_insert_eq. rewrite Hflip. apply negb_involutive.
Qed.

Lemma fetchChangelogs_run api (w : Act.world ChangelogModal.state) :
  ChangelogModal.fetchChangelogs locale t api w
  = let url := ChangelogModal.getChangelogUrl locale in
    let s0 :=
      ChangelogModal.set_requests
        (ChangelogModal.requests (Act.state w) ++ [ChangelogModal.FetchRemoteConfig url])
        (ChangelogModal.set_loadError None
           (ChangelogModal.set_isLoading true (Act.state w))) in
    let failed e :=
      (Normal (),
       Act.World
         (ChangelogModal.set_isLoading false
            (ChangelogModal.set_loadError (Some (t "home.changelog.loadError")) s0))
         (Act.console w ++ [Act.ConsoleError "Failed to fetch changelogs:" e])
         (Act.calls w)) in
    match ChangelogModal.fetchRemoteConfig api url with
    | Normal result =>
        match ChangelogModal.success result, ChangelogModal.data result with
        | true, Some items =>
            (Normal (),
             Act.World
               (ChangelogModal.set_isLoading false (ChangelogModal.set_changelogs items s0))
               (Act.console w) (Act.calls w))
        | _, _ => failed (ChangelogModal.Error (ChangelogModal.failure_message result))
        end
    | Throw e => failed e
    end.
Proof.
  unfold ChangelogModal.fetchChangelogs, ChangelogModal.call.
  cbv [mbind Act_bind Act.bind Act.modify Act.await Act.try_catch Act.try_finally
       Act.throw Act.console_error mret Act_ret Act.ret].
  cbn [Act.state Act.console Act.calls].
  destruct (ChangelogModal.fetchRemoteConfig api _) as [[[|] [items|] err]|e];
    by cbn.
Qed.

(** X16: [fetchChangelogs] never throws and never leaves [isLoading]
    raised, whatever the main process answers; it asks once, for the file
    of the locale. An answer that has succeeded and carries data replaces
    the changelogs and clears the error; any other answer, a rejection
    among them, keeps the changelogs that were there, logs the error and
    sets the translated message. What is shown, expanded or stored is not
    touched. *)
Theorem fetchChangelogs_settles api s :
  let url := ChangelogModal.getChangelogUrl locale in
  let after := Act.run (ChangelogModal.fetchChangelogs locale t api) s in
  let s' := Act.state after.2 in
  after.1 = Normal () ∧
  ChangelogModal.isLoading s' = false ∧
  ChangelogModal.requests s'
  = ChangelogModal.requests s ++ [ChangelogModal.FetchRemoteConfig url] ∧
  (∀ result items,
     ChangelogModal.fetchRemoteConfig api url = Normal result →
     ChangelogModal.success result = true →
     ChangelogModal.data result = Some items →
     ChangelogModal.changelogs s' = items ∧ ChangelogModal.loadError s' = None ∧
     Act.console after.2 = []) ∧
  ((∀ result, ChangelogModal.fetchRemoteConfig api url = Normal result →
      ChangelogModal.success result = false ∨ ChangelogModal.data result = None) →
   ChangelogModal.changelogs s' = ChangelogModal.changelogs s ∧
   ChangelogModal.loadError s' = Some (t "home.changelog.loadError") ∧
   ∃ e, Act.console after.2 = [Act.ConsoleError "Failed to fetch changelogs:" e] ∧
        ∀ e', ChangelogModal.fetchRemoteConfig api url = Throw e' → e = e') ∧
  s' = ChangelogModal.set_requests (ChangelogModal.requests s')
         (ChangelogModal.set_changelogs (ChangelogModal.changelogs s')
            (ChangelogModal.set_loadError (ChangelogModal.loadError s')
               (ChangelogModal.set_isLoading false s))).
Proof.
  cbv zeta. unfold Act.run. rewrite fetchChangelogs_run. cbv zeta.
  cbn [Act.state Act.console Act.calls].
  destruct (ChangelogModal.fetchRemoteConfig api _) as [[[|] [items|] err]|e];
    cbn [ChangelogModal.success ChangelogModal.data fst snd Act.state Act.console
         ChangelogModal.isLoading ChangelogModal.requests ChangelogModal.changelogs
         ChangelogModal.loadError ChangelogModal.set_isLoading
         ChangelogModal.set_requests ChangelogModal.set_changelogs
         ChangelogModal.set_loadError app].
  - split; [done|]. split; [done|]. split; [done|]. split.
    { by intros result items' [= <-] _ [= <-]. }
    split; [|done]. intros Hfail. by destruct (Hfail _ eq_refl).
  - split; [done|]. split; [done|]. split; [done|]. split.
    { by intros result items' [= <-] _ [=]. }
    split; [|done]. intros _. split; [done|]. split; [done|].
    eexists. split; [done|]. by intros e' [=].
  - split; [done|]. split; [done|]. split; [done|]. split.
    { by intros result items' [= <-] [=]. }
    split; [|done]. intros _. split; [done|]. split; [done|].
    eexists. split; [done|]. by intros e' [=].
  - split; [done|]. split; [done|]. split; [done|]. split.
    { by intros result items' [= <-] [=]. }
    split; [|done]. intros _. split; [done|]. split; [done|].
    eexists. split; [done|]. by intros e' [=].
  - split; [done|]. split; [done|]. split; [done|]. split.
    { by intros result items' [=]. }
    split; [|done]. intros _. split; [done|]. split; [done|].
    eexists. split; [done|]. by intros e' [= <-].
Qed.

Local Ltac modal_fields :=
  cbn [fst snd Act.state Act.console Act.calls app negb
       ChangelogModal.showModal ChangelogModal.isLoading ChangelogModal.loadError
       ChangelogModal.expandedState ChangelogModal.currentAppVersion
       ChangelogModal.changelogs ChangelogModal.localStorage ChangelogModal.timers
       ChangelogModal.requests ChangelogModal.set_showModal
       ChangelogModal.set_isLoading ChangelogModal.set_loadError
       ChangelogModal.set_expandedState ChangelogModal.set_currentAppVersion
       ChangelogModal.set_changelogs ChangelogModal.set_localStorage
       ChangelogModal.set_timers ChangelogModal.set_requests
       ChangelogModal.success ChangelogModal.data ChangelogModal.error
       ChangelogModal.timer_data ChangelogModal.timer_version].

(** What [checkNewVersion] comes to: it never throws, it changes nothing
    but the calls made and the timers set, it sets a timer exactly when
    the changelog is due, and it fetches only for a version that is not
    read. *)
Lemma checkNewVersion_cases api s :
  let url := ChangelogModal.getChangelogUrl locale in
  let storage := ChangelogModal.localStorage s in
  let unread :=
    ∃ raw v, ChangelogModal.getVersion api = Normal raw ∧
             Changelog.normalizeVersion (Some raw) = Some v ∧ v ≠ [] ∧
             Changelog.normalizeVersion (storage !! ChangelogModal.CHANGELOG_READ_KEY)
             ≠ Some v in
  let after := Act.run (ChangelogModal.checkNewVersion locale api) s in
  let s' := Act.state after.2 in
  after.1 = Normal () ∧
  s' = ChangelogModal.set_timers (ChangelogModal.timers s')
         (ChangelogModal.set_requests (ChangelogModal.requests s') s) ∧
  ((∃ tm, ChangelogModal.due locale api storage tm ∧
          ChangelogModal.timers s' = ChangelogModal.timers s ++ [tm]) ∨
   ((∀ tm, ¬ ChangelogModal.due locale api storage tm) ∧
    ChangelogModal.timers s' = ChangelogModal.timers s)) ∧
  ((Changelog.truthy (storage !! ChangelogModal.AGREEMENT_KEY) = false ∧
    ChangelogModal.requests s' = ChangelogModal.requests s ∧ Act.console after.2 = []) ∨
   (Changelog.truthy (storage !! ChangelogModal.AGREEMENT_KEY) = true ∧ ¬ unread ∧
    ChangelogModal.requests s' = ChangelogModal.requests s ++ [ChangelogModal.GetVersion]) ∨
   (Changelog.truthy (storage !! ChangelogModal.AGREEMENT_KEY) = true ∧ unread ∧
    ChangelogModal.requests s'
    = ChangelogModal.requests s
      ++ [ChangelogModal.GetVersion; ChangelogModal.FetchRemoteConfig url])) ∧
  (Act.console after.2 = [] ∨
   ∃ e, Act.console after.2 = [Act.ConsoleError "Failed to check new version:" e] ∧
        (ChangelogModal.getVersion api = Throw e ∨
         ChangelogModal.fetchRemoteConfig api url = Throw e)).
Proof.
  cbv zeta. unfold Act.run, ChangelogModal.checkNewVersion, ChangelogModal.call,
    ChangelogModal.due.
  cbv [mbind Act_bind Act.bind Act.modify Act.await Act.try_catch Act.gets
       Act.console_error mret Act_ret Act.ret].
  cbn [Act.state Act.console Act.calls].
  destruct (Changelog.truthy (ChangelogModal.localStorage s !! ChangelogModal.AGREEMENT_KEY))
    eqn:Hagree; modal_fields.
  2: { split; [done|]. split; [by destruct s|]. split; [|split; [by left|by left]].
       right. split; [|done]. intros tm (Ha & _). congruence. }
  destruct (ChangelogModal.getVersion api) as [raw|e] eqn:Hraw; modal_fields.
  2: { split; [done|]. split; [done|]. split; [|split].
       - right. split; [|done]. intros tm (_ & (raw' & Hraw' & _) & _). congruence.
       - right. left. split; [done|]. split; [|done]. by intros (raw' & v & [=] & _).
       - right. exists e. split; [done|]. by left. }
  destruct (Changelog.truthy (Changelog.normalizeVersion (Some raw))) eqn:Hcurrent;
    modal_fields.
  2: { split; [done|]. split; [done|]. split; [|split; [|by left]].
       - right. split; [|done].
         intros tm (_ & (raw' & [= <-] & Hv) & Hne & _).
         rewrite Hv in Hcurrent. cbn in Hcurrent.
         by destruct (ChangelogModal.timer_version tm).
       - right. left. split; [done|]. split; [|done].
         intros (raw' & v & [= <-] & Hv & Hne & _).
         rewrite Hv in Hcurrent. cbn in Hcurrent. by destruct v. }
  destruct (Changelog.normalizeVersion (Some raw)) as [v|] eqn:Hv; [|done].
  assert (v ≠ []) as Hne by (intros ->; done).
  destruct (Changelog.truthy _ && bool_decide _) eqn:Hread; modal_fields.
  { apply andb_true_iff in Hread as [_ Hread%bool_decide_eq_true].
    split; [done|]. split; [done|]. split; [|split; [|by left]].
    - right. split; [|done].
      intros tm (_ & (raw' & [= <-] & Hv') & _ & Hunread & _). congruence.
    - right. left. split; [done|]. split; [|done].
      intros (raw' & v' & [= <-] & Hv' & _ & Hunread). congruence. }
  assert (Changelog.normalizeVersion
            (ChangelogModal.localStorage s !! ChangelogModal.CHANGELOG_READ_KEY) ≠ Some v)
    as Hunread.
  { intros Hsame. rewrite Hsame in Hread. cbn in Hread.
    rewrite bool_decide_eq_true_2 in Hread by done. by destruct v. }
  assert (∃ raw0 v0, Normal raw = Normal raw0 ∧
            Changelog.normalizeVersion (Some raw0) = Some v0 ∧ v0 ≠ [] ∧
            Changelog.normalizeVersion
              (ChangelogModal.localStorage s !! ChangelogModal.CHANGELOG_READ_KEY)
            ≠ Some v0) as Hyes by (by exists raw, v).
  destruct (ChangelogModal.fetchRemoteConfig api _) as [[[|] [data|] err]|e] eqn:Hfetch;
    modal_fields.
  5: { split; [done|]. split; [done|]. split; [|split].
       - right. split; [|done]. intros tm (_ & _ & _ & _ & (r & Hr & _) & _). congruence.
       - right. right. split; [done|]. split; [done|]. by rewrite <- app_assoc.
       - right. exists e. split; [done|]. by right. }
  2,3,4: split; [done|]; (split; [done|]);
         (split; [|split; [right; right; split; [done|]; split; [done|]; by rewrite <- app_assoc|by left]]);
         right; (split; [|done]);
         intros tm (_ & _ & _ & _ & (r & [= <-] & Hs & Hd) & _); done.
  destruct (Changelog.truthy (ChangelogModal.version <$> head data)) eqn:Hlatest;
    modal_fields.
  2: { split; [done|]. split; [done|].
       split; [|split; [right; right; split; [done|]; split; [done|]; by rewrite <- app_assoc|by left]].
       right. split; [|done].
       intros tm (_ & _ & _ & _ & (r & [= <-] & _ & [= <-]) & (latest & Hhead & Hl) & _).
       rewrite Hhead in Hlatest. cbn in Hlatest. by destruct (ChangelogModal.version latest). }
  destruct (existsb _ data) eqn:Hexists; modal_fields.
  - split; [done|]. split; [done|].
    split; [|split; [right; right; split; [done|]; split; [done|]; by rewrite <- app_assoc|by left]].
    left.
    exists {| ChangelogModal.timer_data := data; ChangelogModal.timer_version := v |}.
    split; [|done]. modal_fields.
    split; [done|]. split; [by exists raw|]. split; [done|]. split; [done|].
    split; [by eexists|]. split.
    { destruct data as [|latest data']; [done|]. exists latest. split; [done|].
      cbn in Hlatest. by intros Heq; rewrite Heq in Hlatest. }
    apply existsb_exists in Hexists as (log & Hlog%list_elem_of_In & Hsame'%bool_decide_eq_true).
    by exists log.
  - split; [done|]. split; [done|].
    split; [|split; [right; right; split; [done|]; split; [done|]; by rewrite <- app_assoc|by left]].
    right. split; [|done].
    intros tm (_ & (raw' & [= <-] & Hv') & _ & _ & (r & [= <-] & _ & [= <-])
               & _ & (log & Hlog & Hlogv)).
    assert (existsb (λ log, bool_decide
                      (Changelog.normalizeVersion (Some (ChangelogModal.version log))
                       = Some v)) data = true) as Hfound.
    { apply existsb_exists. exists log. split; [by apply list_elem_of_In|].
      apply bool_decide_eq_true. congruence. }
    congruence.
Qed.

(** The changelog that is due is determined by the main process. *)
Lemma due_unique api (storage storage' : gmap string jsstring)
    (tm tm' : ChangelogModal.timer) :
  ChangelogModal.due locale api storage tm →
  ChangelogModal.due locale api storage' tm' →
  tm = tm'.
Proof.
  intros (_ & (raw & Hraw & Hv) & _ & _ & (r & Hr & _ & Hd) & _)
         (_ & (raw' & Hraw' & Hv') & _ & _ & (r' & Hr' & _ & Hd') & _).
  rewrite Hraw in Hraw'. injection Hraw' as <-.
  rewrite Hr in Hr'. injection Hr' as <-.
  rewrite Hv in Hv'. rewrite Hd in Hd'.
  destruct tm, tm'. cbn [ChangelogModal.timer_data ChangelogModal.timer_version] in *.
  congruence.
Qed.


(** X18: when the changelog is due and no timer is set, [checkNewVersion]
    sets one, and when it fires the modal shows the changelog fetched,
    with the expanded entries chosen by the version of the application,
    and that version is stored as read. At the next start, with what is
    stored then, nothing is fetched and nothing is shown if normalizing
    the stored version gives it back, and the entry of that version is
    the expanded one; if normalizing changes it (a version that keeps a
    leading v after one is removed), the changelog is due again. *)
Theorem changelog_shown_until_read api s (tm : ChangelogModal.timer) :
  ChangelogModal.timers s = [] →
  ChangelogModal.due locale api (ChangelogModal.localStorage s) tm →
  let v := ChangelogModal.timer_version tm in
  let s1 := Act.state (Act.run (ChangelogModal.checkNewVersion locale api) s).2 in
  ∃ s2,
    ChangelogModal.fire_timer s1 = Some s2 ∧
    ChangelogModal.showModal s2 = true ∧
    ChangelogModal.changelogs s2 = ChangelogModal.timer_data tm ∧
    ChangelogModal.currentAppVersion s2 = Some v ∧
    ChangelogModal.timers s2 = [] ∧
    ChangelogModal.localStorage s2
    = <[ChangelogModal.CHANGELOG_READ_KEY := v]> (ChangelogModal.localStorage s) ∧
    (∀ version i,
       ChangelogModal.isExpanded s2 version i = Changelog.isCurrentVersion (Some v) version) ∧
    let next :=
      Act.state (Act.run (ChangelogModal.checkNewVersion locale api)
                   (ChangelogModal.initial (ChangelogModal.localStorage s2))).2 in
    (Changelog.normalizeVersion (Some v) = Some v →
       ChangelogModal.timers next = [] ∧
       ChangelogModal.requests next = [ChangelogModal.GetVersion] ∧
       ∃ log, log ∈ ChangelogModal.changelogs s2 ∧
              ∀ i, ChangelogModal.isExpanded s2 (ChangelogModal.version log) i = true) ∧
    (Changelog.normalizeVersion (Some v) ≠ Some v →
       ChangelogModal.timers next = [tm]).
Proof.
  intros Hnone Hdue. cbv zeta.
  destruct (checkNewVersion_cases api s)
    as (_ & Hframe & [(tm' & Hdue' & Htimers)|[Hnot _]] & _); [|by destruct (Hnot tm)].
  cbv zeta in Hframe, Htimers.
  rewrite (due_unique _ _ _ _ _ Hdue' Hdue) in Htimers. clear tm' Hdue'.
  rewrite Hnone in Htimers. cbn [app] in Htimers.
  set (s1 := Act.state (Act.run (ChangelogModal.checkNewVersion locale api) s).2) in *.
  unfold ChangelogModal.fire_timer. rewrite Htimers. eexists. split; [done|].
  rewrite Hframe.
  unfold ChangelogModal.timer_fires, ChangelogModal.markVersionAsRead,
    ChangelogModal.openWithData.
  destruct Hdue as (Hagree & (raw & Hraw & Hv) & Hne & Hunread & Hfetch & Hlatest
                    & (log & Hlog & Hlogv)).
  assert (Changelog.truthy (Some (ChangelogModal.timer_version tm)) = true) as Htruthy
    by (cbn; by destruct (ChangelogModal.timer_version tm)).
  rewrite Htruthy. modal_fields.
  split; [done|]. split; [done|]. split; [done|]. split; [done|]. split; [done|].
  assert (∀ version i,
            ChangelogModal.isExpanded
              (ChangelogModal.set_localStorage
                 (<[ChangelogModal.CHANGELOG_READ_KEY := ChangelogModal.timer_version tm]>
                    (ChangelogModal.localStorage s))
                 (ChangelogModal.set_showModal true
                    (ChangelogModal.set_expandedState ∅
                       (ChangelogModal.set_currentAppVersion
                          (Some (ChangelogModal.timer_version tm))
                          (ChangelogModal.set_changelogs (ChangelogModal.timer_data tm)
                             (ChangelogModal.set_timers []
                                (ChangelogModal.set_timers [tm]
                                   (ChangelogModal.set_requests
                                      (ChangelogModal.requests s1) s))))))))
              version i
            = Changelog.isCurrentVersion (Some (ChangelogModal.timer_version tm)) version)
    as Hexpanded.
  { intros version i. unfold ChangelogModal.isExpanded, ChangelogModal.isCurrentVersion.
    modal_fields. by rewrite lookup_empty, Htruthy. }
  split; [done|].
  set (storage2 := <[ChangelogModal.CHANGELOG_READ_KEY := ChangelogModal.timer_version tm]>
                     (ChangelogModal.localStorage s)).
  assert (storage2 !! ChangelogModal.AGREEMENT_KEY
          = ChangelogModal.localStorage s !! ChangelogModal.AGREEMENT_KEY) as Hkeep
    by (unfold storage2; by rewrite lookup_insert_ne).
  assert (storage2 !! ChangelogModal.CHANGELOG_READ_KEY
          = Some (ChangelogModal.timer_version tm)) as Hstored
    by (unfold storage2; by rewrite lookup_insert_eq).
  destruct (checkNewVersion_cases api (ChangelogModal.initial storage2))
    as (_ & _ & Hnext & Hrequests & _).
  cbv zeta in Hnext, Hrequests.
  change (ChangelogModal.localStorage (ChangelogModal.initial storage2))
    with storage2 in Hnext, Hrequests.
  change (ChangelogModal.timers (ChangelogModal.initial storage2))
    with (@nil ChangelogModal.timer) in Hnext.
  change (ChangelogModal.requests (ChangelogModal.initial storage2))
    with (@nil ChangelogModal.request) in Hrequests.
  rewrite Hkeep, Hstored in Hrequests. split.
  - intros Hfixed.
    assert (∀ tm', ¬ ChangelogModal.due locale api storage2 tm') as Hread.
    { intros tm' (_ & (raw' & Hraw' & Hv') & _ & Hunread' & _).
      rewrite Hstored in Hunread'. congruence. }
    split; [|split].
    + destruct Hnext as [(tm' & Hdue' & _)|[_ ?]]; [by destruct (Hread tm')|done].
    + destruct Hrequests as [[Hfalse _]|[(_ & _ & ?)|(_ & Hyes & _)]]; [congruence|done|].
      destruct Hyes as (raw' & v' & Hraw' & Hv' & _ & Hunread'). congruence.
    + exists log. split; [done|]. intros i. rewrite Hexpanded.
      unfold Changelog.isCurrentVersion. rewrite Hfixed, Htruthy, Hlogv.
      by apply bool_decide_eq_true.
  - intros Hmoved.
    assert (ChangelogModal.due locale api storage2 tm) as Hagain.
    { split; [by rewrite Hkeep|]. split; [by exists raw|]. split; [done|].
      split; [by rewrite Hstored|]. split; [done|]. split; [done|]. by exists log. }
    destruct Hnext as [(tm' & Hdue' & ->)|[Hnot _]]; [|by destruct (Hnot tm)].
    by rewrite (due_unique _ _ _ _ _ Hdue' Hagain).
Qed.

(** X19: [open] always shows the modal, with no entry toggled, also when
    the calls to the main process fail: the version of the application is
    then [null] and nothing about it is logged. It fetches the changelog
    when none is held, and only then. It never marks a version as read
    and sets no timer. *)
Theorem open_shows api s :
  let url := ChangelogModal.getChangelogUrl locale in
  let after := Act.run (ChangelogModal.open locale t api) s in
  let s' := Act.state after.2 in
  after.1 = Normal () ∧
  ChangelogModal.showModal s' = true ∧
  ChangelogModal.expandedState s' = ∅ ∧
  ChangelogModal.currentAppVersion s'
  = match ChangelogModal.getVersion api with
    | Normal raw => Changelog.normalizeVersion (Some raw)
    | Throw _ => None
    end ∧
  ChangelogModal.localStorage s' = ChangelogModal.localStorage s ∧
  ChangelogModal.timers s' = ChangelogModal.timers s ∧
  (ChangelogModal.changelogs s ≠ [] →
     ChangelogModal.changelogs s' = ChangelogModal.changelogs s ∧
     ChangelogModal.loadError s' = ChangelogModal.loadError s ∧
     ChangelogModal.requests s' = ChangelogModal.requests s ++ [ChangelogModal.GetVersion] ∧
     Act.console after.2 = []) ∧
  (ChangelogModal.changelogs s = [] →
     ChangelogModal.isLoading s' = false ∧
     ChangelogModal.requests s'
     = ChangelogModal.requests s
       ++ [ChangelogModal.GetVersion; ChangelogModal.FetchRemoteConfig url]).
Proof.
  cbv zeta. unfold Act.run, ChangelogModal.open, ChangelogModal.call.
  cbv [mbind Act_bind Act.bind Act.modify Act.await Act.try_catch Act.gets
       mret Act_ret Act.ret].
  cbn [Act.state Act.console Act.calls].
  destruct (ChangelogModal.getVersion api) as [raw|e]; modal_fields.
  - destruct (ChangelogModal.changelogs s) as [|log logs] eqn:Hlogs.
    + assert ((Z.of_nat (length (@nil ChangelogModal.ChangelogItem)) =? 0) = true) as ->
        by reflexivity.
      rewrite fetchChangelogs_run. cbv zeta. modal_fields.
      destruct (ChangelogModal.fetchRemoteConfig api _) as [[[|] [items|] err]|e'];
        modal_fields; rewrite <- ?app_assoc; by repeat (split; [done|]).
    + assert ((Z.of_nat (length (log :: logs)) =? 0) = false) as ->
        by (apply Z.eqb_neq; cbn [length]; lia).
      modal_fields. by repeat (split; [done|]).
  - destruct (ChangelogModal.changelogs s) as [|log logs] eqn:Hlogs.
    + assert ((Z.of_nat (length (@nil ChangelogModal.ChangelogItem)) =? 0) = true) as ->
        by reflexivity.
      rewrite fetchChangelogs_run. cbv zeta. modal_fields.
      destruct (ChangelogModal.fetchRemoteConfig api _) as [[[|] [items|] err]|e'];
        modal_fields; rewrite <- ?app_assoc; by repeat (split; [done|]).
    + assert ((Z.of_nat (length (log :: logs)) =? 0) = false) as ->
        by (apply Z.eqb_neq; cbn [length]; lia).
      modal_fields. by repeat (split; [done|]).
Qed.

End ChangelogFacts.

Lemma changelog_shown_until_read_witness :
  let s := ChangelogModal.initial SampleChangelog.storage in
  let s1 := Act.state (Act.run (ChangelogModal.checkNewVersion js:"en" SampleChangelog.api) s).2 in
  ∃ s2,
    ChangelogModal.fire_timer s1 = Some s2 ∧
    ChangelogModal.showModal s2 = true ∧
    ChangelogModal.changelogs s2 = SampleChangelog.entries ∧
    ChangelogModal.currentAppVersion s2 = Some js:"1.2.0" ∧
    ChangelogModal.timers s2 = [] ∧
    ChangelogModal.localStorage s2
    = <[ChangelogModal.CHANGELOG_READ_KEY := js:"1.2.0"]> SampleChangelog.storage ∧
    (∀ version i,
       ChangelogModal.isExpanded s2 version i
       = Changelog.isCurrentVersion (Some js:"1.2.0") version) ∧
    let next :=
      Act.state (Act.run (ChangelogModal.checkNewVersion js:"en" SampleChangelog.api)
                   (ChangelogModal.initial (ChangelogModal.localStorage s2))).2 in
    (Changelog.normalizeVersion (Some js:"1.2.0") = Some js:"1.2.0" →
       ChangelogModal.timers next = [] ∧
       ChangelogModal.requests next = [ChangelogModal.GetVersion] ∧
       ∃ log, log ∈ ChangelogModal.changelogs s2 ∧
              ∀ i, ChangelogModal.isExpanded s2 (ChangelogModal.version log) i = true) ∧
    (Changelog.normalizeVersion (Some js:"1.2.0") ≠ Some js:"1.2.0" →
       ChangelogModal.timers next = [SampleChangelog.shown]).
Proof.
  apply (changelog_shown_until_read js:"en" SampleChangelog.api
           (ChangelogModal.initial SampleChangelog.storage) SampleChangelog.shown).
  - reflexivity.
  - split; [reflexivity|]. split; [exists js:"v1.2.0"; split; reflexivity|].
    split; [discriminate|]. split; [discriminate|].
    split; [eexists; split; [reflexivity|split; reflexivity]|].
    split; [eexists; split; [reflexivity|discriminate]|].
    exists (SampleChangelog.entry js:"1.2.0"). split; [|reflexivity].
    apply elem_of_cons. by left.
Defined.

(** ** The updater: release notes and dialogs *)

Section UpdaterDialogs.
Implicit Types (s : Updater.state) (win : Updater.window) (text : jsstring).

Lemma strip_tags_from_sublist (inside : bool) text :
  Updater.strip_tags_from inside text `sublist_of` text.
Proof.
  revert inside. induction text as [|c text IH]; intros inside; [done|].
  cbn [Updater.strip_tags_from]. destruct inside.
  - destruct (c =? 62)%N; by apply sublist_cons.
  - destruct ((c =? 60)%N && bool_decide (62%N ∈ text)).
    + by apply sublist_cons.
    + by apply sublist_skip.
Qed.

Lemma strip_tags_from_no_tag (inside : bool) text (before after : jsstring) :
  Updater.strip_tags_from inside text = before ++ 60%N :: after → 62%N ∉ after.
Proof.
  revert inside before. induction text as [|c text IH]; intros inside before.
  - cbn. by destruct before.
  - cbn [Updater.strip_tags_from]. destruct inside.
    + destruct (c =? 62)%N; apply IH.
    + destruct ((c =? 60)%N && bool_decide (62%N ∈ text)) eqn:Hopen; [apply IH|].
      destruct before as [|c' before]; cbn [app].
      * intros [= -> <-]. cbn in Hopen. apply bool_decide_eq_false in Hopen.
        intros Hin. apply Hopen.
        eapply elem_of_sublist; [done|apply strip_tags_from_sublist].
      * intros [= _ Hrest]. by apply (IH false before).
Qed.

Lemma strip_tags_from_fixed text :
  (∀ before after, text = before ++ 60%N :: after → 62%N ∉ after) →
  Updater.strip_tags_from false text = text.
Proof.
  induction text as [|c text IH]; intros Hnone; [done|].
  cbn [Updater.strip_tags_from].
  destruct ((c =? 60)%N && bool_decide (62%N ∈ text)) eqn:Hopen.
  - apply andb_true_iff in Hopen as [->%N.eqb_eq Hin%bool_decide_eq_true].
    by destruct (Hnone [] text).
  - f_equal. apply IH. intros before after ->. by apply (Hnone (c :: before) after).
Qed.

(** X20: cleaning the release notes never adds a code unit, and leaves no
    [<] with a [>] after it. A text in which no [>] follows a [<] is left
    as it is, so cleaning twice is cleaning once. A tag that follows a
    text without [<] is taken out whole, up to its first [>]. *)
Theorem strip_tags_removes_tags text :
  Updater.strip_tags text `sublist_of` text ∧
  (∀ before after, Updater.strip_tags text = before ++ 60%N :: after → 62%N ∉ after) ∧
  (60%N ∉ text ∨ 62%N ∉ text → Updater.strip_tags text = text) ∧
  Updater.strip_tags (Updater.strip_tags text) = Updater.strip_tags text ∧
  (∀ a tag b, text = a ++ 60%N :: tag ++ 62%N :: b → 60%N ∉ a → 62%N ∉ tag →
     Updater.strip_tags text = a ++ Updater.strip_tags b).
Proof.
  unfold Updater.strip_tags.
  split; [apply strip_tags_from_sublist|].
  split; [apply strip_tags_from_no_tag|].
  split; [|split].
  - intros Hnone. apply strip_tags_from_fixed. intros before after -> Hin.
    destruct Hnone as [Hnone|Hnone]; apply Hnone; set_solver.
  - apply strip_tags_from_fixed. intros before after. apply strip_tags_from_no_tag.
  - intros a tag b -> Ha Htag. induction a as [|c a IH]; cbn [app Updater.strip_tags_from].
    + rewrite bool_decide_eq_true_2 by set_solver.
      cbn [N.eqb Pos.eqb andb]. clear Ha.
      induction tag as [|c tag IH]; cbn [app Updater.strip_tags_from]; [done|].
      assert ((c =? 62)%N = false) as -> by (apply N.eqb_neq; set_solver).
      apply IH. set_solver.
    + assert ((c =? 60)%N = false) as -> by (apply N.eqb_neq; set_solver).
      cbn [andb]. f_equal. apply IH. set_solver.
Qed.

(** Emitting [update-not-available] to the one listener of a window, once
    the first emission is past. *)
Lemma emit_not_available_later win s (info : Updater.UpdateInfo) :
  Updater.listeners s !! "update-not-available" = Some [Updater.OnUpdateNotAvailable win] →
  Updater.isFirstShow s = false →
  let s' := Updater.emit (Updater.update_not_available info) s in
  Updater.listeners s' = Updater.listeners s ∧
  Updater.isFirstShow s' = false ∧
  Updater.sent s'
  = Updater.sent s ++ [(win, "show-message", Updater.Message "success" "已是最新版本")].
Proof.
  intros Hl Hfirst. cbv zeta. split; [apply listeners_emit|].
  unfold Updater.emit. cbn [Updater.event_name]. rewrite Hl.
  cbn [default from_option foldl id Updater.call]. rewrite Hfirst.
  split; [done|]. unfold Updater.sent. cbn. rewrite omap_app. done.
Qed.

(** X21: on a fresh updater, the first [update-not-available] after
    [checkUpdate] is silent and every later one tells the window that the
    application is up to date: [n] emissions send [n - 1] messages. *)
Theorem update_not_available_first_silent win (infos : list Updater.UpdateInfo) :
  Updater.sent
    (foldl (λ s info, Updater.emit (Updater.update_not_available info) s)
       (Updater.checkUpdate win Updater.initial) infos)
  = replicate (length infos - 1)
      (win, "show-message", Updater.Message "success" "已是最新版本").
Proof.
  destruct infos as [|info infos]; [done|]. cbn [foldl length].
  replace (S (length infos) - 1)%nat with (length infos) by lia.
  set (s1 := Updater.emit (Updater.update_not_available info)
               (Updater.checkUpdate win Updater.initial)).
  assert (Updater.listeners s1 !! "update-not-available"
          = Some [Updater.OnUpdateNotAvailable win]) as Hl.
  { unfold s1. rewrite listeners_emit, listeners_checkUpdate. done. }
  assert (Updater.isFirstShow s1 = false) as Hfirst by done.
  assert (Updater.sent s1 = []) as Hsent by done.
  change (replicate (length infos) (win, "show-message", Updater.Message "success" "已是最新版本"))
    with ([] ++ replicate (length infos)
                  (win, "show-message", Updater.Message "success" "已是最新版本")).
  rewrite <- Hsent. clearbody s1. clear Hsent.
  revert s1 Hl Hfirst. induction infos as [|info' infos IH]; intros s1 Hl Hfirst.
  - cbn. by rewrite app_nil_r.
  - cbn [foldl length replicate].
    destruct (emit_not_available_later win s1 info' Hl Hfirst) as (Hl' & Hfirst' & Hsent').
    rewrite IH; [|by rewrite Hl'|done]. rewrite Hsent', <- app_assoc. done.
Qed.

(** Emitting an event that has one listener, or two. *)
Lemma emit_single (e : Updater.event) (l : Updater.listener) s :
  Updater.listeners s !! Updater.event_name e = Some [l] →
  Updater.emit e s = Updater.call l e s.
Proof. intros Hl. unfold Updater.emit. by rewrite Hl. Qed.

Lemma emit_pair (e : Updater.event) (l l' : Updater.listener) s :
  Updater.listeners s !! Updater.event_name e = Some [l; l'] →
  Updater.emit e s = Updater.call l' e (Updater.call l e s).
Proof. intros Hl. unfold Updater.emit. by rewrite Hl. Qed.

(** The [update-available] listener, by the value of its flag. *)
Lemma call_update_available (flag : nat) (info : Updater.UpdateInfo) s :
  (Updater.flags s !! flag = Some true →
   Updater.call (Updater.OnUpdateAvailable flag) (Updater.update_available info) s = s) ∧
  (Updater.flags s !! flag = Some false →
   Updater.call (Updater.OnUpdateAvailable flag) (Updater.update_available info) s
   = Updater.perform
       (Updater.UpdateDialog (Updater.version info)
          (Updater.detail_of (Updater.parse_release_notes info))
          (Updater.AfterUpdateAvailable flag))
       (Updater.set_flags (<[flag := true]> (Updater.flags s)) s)).
Proof. cbn [Updater.call]. split; by intros ->. Qed.

Local Ltac updater_fields :=
  cbn [Updater.listeners Updater.autoDownload Updater.autoInstallOnAppQuit
       Updater.isFirstShow Updater.flags Updater.isQuiting Updater.effects
       Updater.set_listeners Updater.set_settings Updater.set_isFirstShow
       Updater.set_flags Updater.set_isQuiting Updater.perform].

(** X22: on a fresh updater, an update that is announced opens one dialog,
    with the version and the cleaned release notes, and announcements that
    come while it is open are dropped. When the dialog is closed, the
    download starts if the first button was chosen and nothing happens
    otherwise, and the next announcement opens a dialog again. Each call
    of [checkUpdate] adds a listener of its own: after two calls one
    announcement opens two dialogs. *)
Theorem update_dialog_one_at_a_time win (win' : Updater.window)
    (info : Updater.UpdateInfo) (infos : list Updater.UpdateInfo) (response : Z) :
  let dialog_for info flag :=
    Updater.UpdateDialog (Updater.version info)
      (Updater.detail_of (Updater.parse_release_notes info))
      (Updater.AfterUpdateAvailable flag) in
  let s0 := Updater.checkUpdate win Updater.initial in
  let s1 := Updater.emit (Updater.update_available info) s0 in
  let s2 := Updater.dialog_closed (Updater.AfterUpdateAvailable 0) response s1 in
  Updater.effects s1 = [Updater.CheckForUpdatesIn 3000; dialog_for info 0%nat] ∧
  foldl (λ s info', Updater.emit (Updater.update_available info') s) s1 infos = s1 ∧
  Updater.effects s2
  = Updater.effects s1 ++ (if response =? 0 then [Updater.DownloadUpdate] else []) ∧
  (∀ info', Updater.effects (Updater.emit (Updater.update_available info') s2)
            = Updater.effects s2 ++ [dialog_for info' 0%nat]) ∧
  Updater.effects
    (Updater.emit (Updater.update_available info) (Updater.checkUpdate win' s0))
  = [Updater.CheckForUpdatesIn 3000; Updater.CheckForUpdatesIn 3000;
     dialog_for info 0%nat; dialog_for info 1%nat].
Proof.
  cbv zeta. set (s0 := Updater.checkUpdate win Updater.initial).
  assert (Updater.listeners s0 !! "update-available" = Some [Updater.OnUpdateAvailable 0])
    as Hl0 by (unfold s0; by rewrite listeners_checkUpdate).
  assert (Updater.flags s0 = [false]) as Hf0 by done.
  assert (Updater.effects s0 = [Updater.CheckForUpdatesIn 3000]) as He0 by done.
  assert (Updater.emit (Updater.update_available info) s0
          = Updater.perform
              (Updater.UpdateDialog (Updater.version info)
                 (Updater.detail_of (Updater.parse_release_notes info))
                 (Updater.AfterUpdateAvailable 0))
              (Updater.set_flags [true] s0)) as ->.
  { rewrite (emit_single (Updater.update_available info) _ _ Hl0).
    rewrite (proj2 (call_update_available 0 info s0)) by (by rewrite Hf0).
    by rewrite Hf0. }
  set (s1 := Updater.perform _ (Updater.set_flags [true] s0)).
  assert (Updater.listeners s1 !! "update-available" = Some [Updater.OnUpdateAvailable 0])
    as Hl1 by exact Hl0.
  assert (∀ info', Updater.emit (Updater.update_available info') s1 = s1) as Hdropped.
  { intros info'. rewrite (emit_single (Updater.update_available info') _ _ Hl1).
    by apply (proj1 (call_update_available 0 info' s1)). }
  split; [unfold s1; updater_fields; by rewrite He0|].
  split; [|split; [|split]].
  - induction infos as [|info' infos IH]; [done|]. cbn [foldl]. by rewrite Hdropped.
  - unfold Updater.dialog_closed. destruct (response =? 0); updater_fields; [done|].
    by rewrite app_nil_r.
  - intros info'.
    set (s2 := Updater.dialog_closed (Updater.AfterUpdateAvailable 0) response s1).
    assert (Updater.listeners s2 !! "update-available" = Some [Updater.OnUpdateAvailable 0])
      as Hl2 by (unfold s2, Updater.dialog_closed; by destruct (response =? 0)).
    assert (Updater.flags s2 !! 0%nat = Some false) as Hf2
      by (unfold s2, Updater.dialog_closed; by destruct (response =? 0)).
    rewrite (emit_single (Updater.update_available info') _ _ Hl2).
    by rewrite (proj2 (call_update_available 0 info' s2) Hf2).
  - set (s0' := Updater.checkUpdate win' s0).
    assert (Updater.listeners s0' !! "update-available"
            = Some [Updater.OnUpdateAvailable 0; Updater.OnUpdateAvailable 1]) as Hl0'
      by (unfold s0'; by rewrite listeners_checkUpdate, Hl0, Hf0).
    assert (Updater.flags s0' = [false; false]) as Hf0' by done.
    assert (Updater.effects s0'
            = [Updater.CheckForUpdatesIn 3000; Updater.CheckForUpdatesIn 3000]) as He0'
      by done.
    rewrite (emit_pair (Updater.update_available info) _ _ _ Hl0').
    rewrite (proj2 (call_update_available 0 info s0')) by (by rewrite Hf0').
    rewrite (proj2 (call_update_available 1 info _)) by (updater_fields; by rewrite Hf0').
    updater_fields. by rewrite He0'.
Qed.

End UpdaterDialogs.

(** ** The course of an import *)

Section FlowFacts.
Context `{Bridge.Types}.
Import ImportQueue ImportFlow.
Implicit Types (s : state) (q : list Bridge.ImportProgress) (t : Z).

Ltac flow_fields :=
  cbn [world queue isProcessing currentStage lastStageTime sleepers subscribed main
       clear_at now enqueued writes set_world set_store set_queue set_isProcessing
       set_stage set_sleepers set_subscribed set_main set_clear_at set_now
       record_enqueued record_write assign store
       Act.state Act.console Act.calls
       ChatStore.sessions ChatStore.currentSessionId ChatStore.isImporting
       ChatStore.importProgress ChatStore.set_importProgress ChatStore.set_isImporting
       ChatStore.set_currentSessionId].

Lemma same_flow_refl s : same_flow s s.
Proof. by unfold same_flow. Qed.

Lemma same_flow_trans s1 s2 s3 : same_flow s1 s2 → same_flow s2 s3 → same_flow s1 s3.
Proof.
  unfold same_flow. intros (-> & -> & -> & -> & -> & -> & ->) (-> & -> & -> & -> & -> & -> & ->).
  done.
Qed.

Lemma writers_assign t (who : writer) (v : option Bridge.ImportProgress) s :
  writers (assign t who v s) = writers s ++ [who].
Proof. unfold writers. flow_fields. by rewrite fmap_app. Qed.

(** The loop of the queue sets nothing outside the queue, writes as the
    queue, and leaves a progress on display if there was one. *)
Lemma loop_flow t q s :
  same_flow s (loop t q s) ∧
  (∃ n, writers (loop t q s) = writers s ++ replicate n ByQueue) ∧
  (ChatStore.importProgress (store s) ≠ None →
   ChatStore.importProgress (store (loop t q s)) ≠ None).
Proof.
  revert s. induction q as [|p q IH]; intros s.
  - cbn [loop]. split; [by unfold same_flow|]. split; [|done].
    exists 0%nat. cbn. by rewrite app_nil_r.
  - cbn [loop].
    assert (∀ s0, same_flow s s0 → writers s0 = writers s →
              same_flow s (loop t q (assign t ByQueue (Some p) s0)) ∧
              (∃ n, writers (loop t q (assign t ByQueue (Some p) s0))
                    = writers s ++ replicate n ByQueue) ∧
              (ChatStore.importProgress (store s) ≠ None →
               ChatStore.importProgress (store (loop t q (assign t ByQueue (Some p) s0)))
               ≠ None)) as Hwrite.
    { intros s0 Hsame Hwriters.
      destruct (IH (assign t ByQueue (Some p) s0)) as (Hflow & (n & Hn) & Hshown).
      split; [|split].
      - eapply same_flow_trans; [|exact Hflow].
        eapply same_flow_trans; [exact Hsame|]. by unfold same_flow.
      - exists (S n). rewrite Hn, writers_assign, Hwriters, <- app_assoc. done.
      - intros _. apply Hshown. by flow_fields. }
    destruct (negb (bool_decide (Bridge.stage p = currentStage s))).
    + destruct (t - lastStageTime s <? MIN_STAGE_TIME).
      * split; [by unfold same_flow|]. split; [|done].
        exists 0%nat. cbn. by rewrite app_nil_r.
      * apply Hwrite; by unfold same_flow.
    + apply Hwrite; [apply same_flow_refl|done].
Qed.

Lemma onProgress_flow t (p : Bridge.ImportProgress) s :
  same_flow s (onProgress t p s) ∧
  (∃ n, writers (onProgress t p s) = writers s ++ replicate n ByQueue) ∧
  (ChatStore.importProgress (store s) ≠ None →
   ChatStore.importProgress (store (onProgress t p s)) ≠ None).
Proof.
  assert (∀ s0, same_flow s0 s0 ∧ (∃ n, writers s0 = writers s0 ++ replicate n ByQueue))
    as Hnone.
  { intros s0. split; [apply same_flow_refl|]. exists 0%nat. cbn. by rewrite app_nil_r. }
  unfold onProgress. destruct (bool_decide (Bridge.stage p = js:"done")).
  { destruct (Hnone s) as [? ?]. by split. }
  unfold processQueue. flow_fields. destruct (isProcessing s).
  - split; [by unfold same_flow|]. split; [|done].
    exists 0%nat. cbn. by rewrite app_nil_r.
  - set (s0 := set_isProcessing true (record_enqueued p (set_queue (queue s ++ [p]) s))).
    destruct (loop_flow t (queue s ++ [p]) s0) as (Hflow & Hn & Hshown).
    split; [|split; [done|]].
    + eapply same_flow_trans; [|exact Hflow]. by unfold same_flow.
    + exact Hshown.
Qed.

Lemma resume_flow t (sl : sleeper) s :
  same_flow s (resume t sl s) ∧
  (∃ n, writers (resume t sl s) = writers s ++ replicate n ByQueue) ∧
  (queue s ≠ [] → ChatStore.importProgress (store (resume t sl s)) ≠ None).
Proof.
  unfold resume. flow_fields. destruct (queue s) as [|x q'].
  - set (s0 := assign t ByQueue None (set_stage (Bridge.stage (next sl)) t s)).
    destruct (loop_flow t [] s0) as (Hflow & (n & Hn) & _).
    split; [|split; [|done]].
    + eapply same_flow_trans; [|exact Hflow]. by unfold same_flow.
    + exists (S n). rewrite Hn. unfold s0. by rewrite writers_assign, <- app_assoc.
  - set (s0 := assign t ByQueue (Some x) (set_stage (Bridge.stage (next sl)) t s)).
    destruct (loop_flow t q' s0) as (Hflow & (n & Hn) & Hshown).
    split; [|split].
    + eapply same_flow_trans; [|exact Hflow]. by unfold same_flow.
    + exists (S n). rewrite Hn. unfold s0. by rewrite writers_assign, <- app_assoc.
    + intros _. by apply Hshown.
Qed.

Lemma loadSessions_calls (api : Bridge.oracle) (w : Act.world ChatStore.state) :
  Act.calls (ChatStore.loadSessions api w).2 = Act.calls w ++ [Bridge.GetSessions] ∧
  ChatStore.isImporting (Act.state (ChatStore.loadSessions api w).2)
  = ChatStore.isImporting (Act.state w).
Proof.
  unfold ChatStore.loadSessions.
  cbv [mbind Act_bind Act.bind Act.issue Act.await Act.try_catch Act.gets Act.modify
       Act.console_error mret Act_ret Act.ret].
  cbn [Act.state Act.console Act.calls].
  destruct (Bridge.getSessions api) as [list|e]; [|done].
  cbn [Act.state Act.console Act.calls ChatStore.currentSessionId ChatStore.set_sessions].
  by destruct (_ && _).
Qed.

(** The three ways the test of the polling loop can go. *)
Lemma poll_cases t (r : Bridge.ImportResult) s :
  poll t r s = set_main (Polling r (t + 100)) s ∨
  isProcessing s = false ∧
  ((∃ w, poll t r s = set_main (FinalStage r w) s) ∨ poll t r s = force100 t r s).
Proof.
  unfold poll, final_stage. destruct (isProcessing s).
  - left. by rewrite orb_true_r.
  - rewrite orb_false_r. destruct (negb _); [by left|]. right. split; [done|].
    destruct (_ <? _); [left; by eexists|by right].
Qed.

Lemma force100_main t (r : Bridge.ImportResult) s :
  main (force100 t r s) = Show100 r (t + 300) ∧
  subscribed (force100 t r s) = subscribed s ∧
  ChatStore.currentSessionId (store (force100 t r s)) = ChatStore.currentSessionId (store s).
Proof. unfold force100, store. by destruct (ChatStore.importProgress _). Qed.

Lemma finish_main (api : Bridge.oracle) t (ir : Bridge.ImportResult) s :
  ∃ r, main (finish api t ir s) = Returned r ∧ returns_for ir r ∧
       subscribed (finish api t ir s) = subscribed s ∧
       (success r = true →
        ChatStore.currentSessionId (store (finish api t ir s)) = Bridge.sessionId ir).
Proof.
  unfold finish, returns_for.
  destruct (Bridge.success ir && ChatStore.truthy (Bridge.sessionId ir)) eqn:Hok;
    eexists; (split; [by flow_fields|]); flow_fields; cbn [success error]; done.
Qed.

(** A task keeps what the fulfilled import has come to. *)
Lemma step_carries (api : Bridge.oracle) t (k : task) (ir : Bridge.ImportResult) s s' :
  carries ir s → step api t k s = Some s' → carries ir s'.
Proof.
  intros [Hsub Hmain]. unfold step. destruct (t <? now s); [done|].
  destruct k as [p|i|[r|e]| |]; flow_fields.
  - by rewrite Hsub.
  - destruct (sleepers s !! i) as [sl|]; [|done]. destruct (wake_at sl <=? t); [|done].
    intros [= <-].
    destruct (resume_flow t sl (set_sleepers (delete i (sleepers s)) (set_now t s)))
      as ((Hm & Hs & _ & _ & _ & Hcur & _) & _).
    unfold carries. rewrite Hm, Hs. flow_fields. split; [done|].
    destruct (main s); try done. by rewrite Hcur.
  - by destruct (main s).
  - by destruct (main s).
  - unfold main_timer. flow_fields.
    destruct (main s) as [|r w|r w|r w|r] eqn:Hphase; try done;
      (destruct (w <=? t); [|done]); intros [= <-]; subst r.
    + unfold carries.
      destruct (poll_cases t ir (set_now t s)) as [->|[_ [[w' ->]| ->]]]; flow_fields;
        try done.
      destruct (force100_main t ir (set_now t s)) as (-> & -> & _). done.
    + unfold carries. destruct (force100_main t ir (set_now t s)) as (-> & -> & _). done.
    + unfold carries.
      destruct (finish_main api t ir (set_now t s)) as (r & -> & Hr & -> & Hcur). done.
  - destruct (clear_at s) as [w|]; [|done]. destruct (w <=? t); [|done].
    intros [= <-]. unfold carries. flow_fields. split; [done|]. by destruct (main s).
Qed.

(** A task keeps the function returned on a rejection, with the listener
    still there. *)
Lemma step_failed (api : Bridge.oracle) t (k : task) (e : Js.exn) s s' :
  failed e s → step api t k s = Some s' → failed e s'.
Proof.
  intros [Hsub Hmain]. unfold step. destruct (t <? now s); [done|].
  destruct k as [p|i|[r|e']| |]; flow_fields.
  - rewrite Hsub. intros [= <-].
    destruct (onProgress_flow t p (set_now t s)) as ((Hm & Hs & _) & _).
    unfold failed. by rewrite Hm, Hs.
  - destruct (sleepers s !! i) as [sl|]; [|done]. destruct (wake_at sl <=? t); [|done].
    intros [= <-].
    destruct (resume_flow t sl (set_sleepers (delete i (sleepers s)) (set_now t s)))
      as ((Hm & Hs & _) & _).
    unfold failed. by rewrite Hm, Hs.
  - by rewrite Hmain.
  - by rewrite Hmain.
  - unfold main_timer. flow_fields. by rewrite Hmain.
  - destruct (clear_at s) as [w|]; [|done]. destruct (w <=? t); [|done].
    by intros [= <-].
Qed.

(** Once the import has settled, no task settles it again. *)
Lemma step_settled_once (api : Bridge.oracle) t (c : completion Bridge.ImportResult) s :
  main s ≠ AwaitImport → step api t (ImportSettled c) s = None.
Proof.
  intros Hpast. unfold step. destruct (t <? now s); [done|]. flow_fields.
  destruct c; by destruct (main s).
Qed.

(** While the import is awaited, a task leaves it awaited, or settles
    it. *)
Lemma step_awaited (api : Bridge.oracle) t (k : task) s s' :
  main s = AwaitImport → subscribed s = true →
  step api t k s = Some s' →
  match k with
  | ImportSettled (Normal ir) => carries ir s'
  | ImportSettled (Throw e) => failed e s'
  | _ => main s' = AwaitImport ∧ subscribed s' = true
  end.
Proof.
  intros Hmain Hsub. unfold step. destruct (t <? now s); [done|].
  destruct k as [p|i|[r|e]| |]; flow_fields.
  - rewrite Hsub. intros [= <-].
    destruct (onProgress_flow t p (set_now t s)) as ((Hm & Hs & _) & _).
    by rewrite Hm, Hs.
  - destruct (sleepers s !! i) as [sl|]; [|done]. destruct (wake_at sl <=? t); [|done].
    intros [= <-].
    destruct (resume_flow t sl (set_sleepers (delete i (sleepers s)) (set_now t s)))
      as ((Hm & Hs & _) & _).
    by rewrite Hm, Hs.
  - rewrite Hmain. intros [= <-]. unfold carries.
    destruct (poll_cases t r (set_subscribed false (set_now t s)))
      as [->|[_ [[w' ->]| ->]]]; flow_fields; try done.
    by destruct (force100_main t r (set_subscribed false (set_now t s))) as (-> & -> & _).
  - rewrite Hmain. by intros [= <-].
  - unfold main_timer. flow_fields. by rewrite Hmain.
  - destruct (clear_at s) as [w|]; [|done]. destruct (w <=? t); [|done].
    by intros [= <-].
Qed.

Lemma run_carries (api : Bridge.oracle) (sched : list (Z * task))
    (ir : Bridge.ImportResult) s s' :
  carries ir s → run api sched s = Some s' →
  carries ir s' ∧ ∀ t c, (t, ImportSettled c) ∉ sched.
Proof.
  revert s. induction sched as [|[t k] sched IH]; intros s Hs.
  - intros [= <-]. split; [done|]. intros t c. apply not_elem_of_nil.
  - cbn [run]. destruct (step api t k s) as [s1|] eqn:Hstep; [|done]. intros Hrun.
    destruct (IH s1 (step_carries api t k ir s s1 Hs Hstep) Hrun) as [Hs' Hnone].
    split; [done|]. intros t' c [[= <- <-]|Hin]%elem_of_cons; [|by apply (Hnone t' c)].
    rewrite step_settled_once in Hstep; [done|]. destruct Hs as [_ Hmain].
    by destruct (main s).
Qed.

Lemma run_failed (api : Bridge.oracle) (sched : list (Z * task)) (e : Js.exn) s s' :
  failed e s → run api sched s = Some s' →
  failed e s' ∧ ∀ t c, (t, ImportSettled c) ∉ sched.
Proof.
  revert s. induction sched as [|[t k] sched IH]; intros s Hs.
  - intros [= <-]. split; [done|]. intros t c. apply not_elem_of_nil.
  - cbn [run]. destruct (step api t k s) as [s1|] eqn:Hstep; [|done]. intros Hrun.
    destruct (IH s1 (step_failed api t k e s s1 Hs Hstep) Hrun) as [Hs' Hnone].
    split; [done|]. intros t' c [[= <- <-]|Hin]%elem_of_cons; [|by apply (Hnone t' c)].
    rewrite step_settled_once in Hstep; [done|]. destruct Hs as [_ Hmain].
    by rewrite Hmain.
Qed.

(** The three courses of an import: still awaited, fulfilled once, or
    rejected once. *)
Lemma run_course (api : Bridge.oracle) (sched : list (Z * task)) s s' :
  main s = AwaitImport → subscribed s = true →
  run api sched s = Some s' →
  (main s' = AwaitImport ∧ subscribed s' = true ∧
   ∀ t c, (t, ImportSettled c) ∉ sched) ∨
  (∃ ir, carries ir s' ∧ (∀ ir', resolved sched ir' ↔ ir' = ir) ∧
         ∀ e, ¬ rejected sched e) ∨
  (∃ e, failed e s' ∧ (∀ e', rejected sched e' ↔ e' = e) ∧
        ∀ ir, ¬ resolved sched ir).
Proof.
  revert s. induction sched as [|[t k] sched IH]; intros s Hmain Hsub.
  - intros [= <-]. left. split; [done|]. split; [done|]. intros t c. apply not_elem_of_nil.
  - cbn [run]. destruct (step api t k s) as [s1|] eqn:Hstep; [|done]. intros Hrun.
    pose proof (step_awaited api t k s s1 Hmain Hsub Hstep) as Hk.
    destruct k as [p|i|[ir|e]| |].
    3: { right. left. exists ir.
         destruct (run_carries api sched ir s1 s' Hk Hrun) as [Hs' Hnone].
         split; [done|]. split.
         - intros ir'. split; [|intros ->; exists t; by left].
           intros [t' [[= _ ->]|Hin]%elem_of_cons]; [done|]. by destruct (Hnone t' _ Hin).
         - intros e [t' [[=]|Hin]%elem_of_cons]. by destruct (Hnone t' _ Hin). }
    3: { right. right. exists e.
         destruct (run_failed api sched e s1 s' Hk Hrun) as [Hs' Hnone].
         split; [done|]. split.
         - intros e'. split; [|intros ->; exists t; by left].
           intros [t' [[= _ ->]|Hin]%elem_of_cons]; [done|]. by destruct (Hnone t' _ Hin).
         - intros ir [t' [[=]|Hin]%elem_of_cons]. by destruct (Hnone t' _ Hin). }
    all: destruct Hk as [Hmain1 Hsub1];
      destruct (IH s1 Hmain1 Hsub1 Hrun)
        as [(? & ? & Hnone)|[(ir & ? & Hres & Hrej)|(e & ? & Hrej & Hres)]];
      [left; split; [done|]; split; [done|];
       intros t' c [[=]|Hin]%elem_of_cons; by apply (Hnone t' c)
      |right; left; exists ir; split; [done|]; split;
       [intros ir'; rewrite <- Hres; unfold resolved; split;
        [intros [t' [[=]|Hin]%elem_of_cons]; by exists t'
        |intros [t' Hin]; exists t'; by right]
       |intros e [t' [[=]|Hin]%elem_of_cons]; apply (Hrej e); by exists t']
      |right; right; exists e; split; [done|]; split;
       [intros e'; rewrite <- Hrej; unfold rejected; split;
        [intros [t' [[=]|Hin]%elem_of_cons]; by exists t'
        |intros [t' Hin]; exists t'; by right]
       |intros ir [t' [[=]|Hin]%elem_of_cons]; apply (Hres ir); by exists t']].
Qed.

Lemma before_100_queue s s' (n : nat) :
  writers s' = writers s ++ replicate n ByQueue → before_100 s → before_100 s'.
Proof.
  unfold before_100. intros -> Hs. apply Forall_app. split; [done|].
  apply Forall_replicate. by right.
Qed.

Lemma not_forced_queue s s' (n : nat) :
  writers s' = writers s ++ replicate n ByQueue → Force100 ∉ writers s → Force100 ∉ writers s'.
Proof.
  intros -> Hs [?|[? _]%elem_of_replicate]%elem_of_app; done.
Qed.

Lemma untouched_same_flow (filePath : jsstring) (st : ChatStore.state) s s' :
  same_flow s s' → untouched filePath st s → untouched filePath st s'.
Proof.
  unfold untouched. intros (_ & _ & _ & _ & -> & -> & ->). done.
Qed.

Lemma running_same_flow (filePath : jsstring) (st : ChatStore.state) s s' (n : nat) :
  same_flow s s' → writers s' = writers s ++ replicate n ByQueue →
  ChatStore.importProgress (store s') ≠ None →
  running filePath st s → running filePath st s'.
Proof.
  intros Hsame Hn Hshown (Hclear & Hflag & Huntouched & Hbefore & _).
  pose proof Hsame as (_ & _ & Hc & Hi & _).
  unfold running. rewrite Hc, Hi. split; [done|]. split; [done|].
  split; [by eapply untouched_same_flow|]. split; [by eapply before_100_queue|done].
Qed.

Lemma force100_flow (filePath : jsstring) (st : ChatStore.state) t
    (r : Bridge.ImportResult) s :
  running filePath st s → subscribed s = false → isProcessing s = false →
  flow_inv filePath st (force100 t r s).
Proof.
  intros (Hclear & Hflag & Huntouched & Hbefore & Hshown) Hsub Hidle.
  unfold force100. destruct (ChatStore.importProgress (store s)) as [p|]; [|done].
  unfold flow_inv. cbn [main set_main].
  split; [done|]. split; [done|]. split; [done|]. split; [done|]. split; [|done].
  exists (writers s), []. split; [|done]. apply (writers_assign t Force100 (Some (full p)) s).
Qed.

Lemma poll_flow (filePath : jsstring) (st : ChatStore.state) t
    (r : Bridge.ImportResult) s :
  running filePath st s → subscribed s = false →
  flow_inv filePath st (poll t r s).
Proof.
  intros Hrunning Hsub.
  destruct (poll_cases t r s) as [->|[Hidle [[w ->]| ->]]].
  - by unfold flow_inv.
  - by unfold flow_inv.
  - by apply force100_flow.
Qed.

Lemma finish_flow (api : Bridge.oracle) (filePath : jsstring) (st : ChatStore.state) t
    (r : Bridge.ImportResult) s :
  subscribed s = false → untouched filePath st s → at_100 s → isProcessing s = false →
  flow_inv filePath st (finish api t r s).
Proof.
  intros Hsub (Hsessions & Hcurrent & Hcalls) Hfull Hidle. unfold finish.
  destruct (Bridge.success r && ChatStore.truthy (Bridge.sessionId r)).
  - unfold flow_inv, finally_block. flow_fields. rewrite Hsub. cbn [success].
    split; [done|]. split; [done|]. split; [exact Hfull|].
    destruct (loadSessions_calls api (world s)) as [-> _]. by rewrite Hcalls.
  - unfold flow_inv, finally_block. flow_fields. rewrite Hsub. cbn [success].
    split; [done|]. split; [done|]. split; [exact Hfull|]. by split.
Qed.

(** One task keeps the invariant of the course of the import. *)
Lemma step_flow (api : Bridge.oracle) (filePath : jsstring) (st : ChatStore.state)
    t (k : task) s s' :
  queue_inv s → flow_inv filePath st s →
  step api t k s = Some s' → flow_inv filePath st s'.
Proof.
  intros (Hidle & Hbusy & _) Hflow. unfold step. destruct (t <? now s); [done|].
  destruct k as [p|i|[r|e]| |]; flow_fields.
  - destruct (subscribed s) eqn:Hsub; [|done]. intros [= <-].
    destruct (onProgress_flow t p (set_now t s)) as (Hsame & (n & Hn) & Hshown).
    pose proof Hsame as (Hm & Hs & _ & Hi & _).
    unfold flow_inv in *. rewrite Hm, Hs. flow_fields.
    destruct (main s) as [|r w|r w|r w|r]; rewrite Hsub in *; try (by destruct Hflow).
    + destruct Hflow as [_ Hrunning]. split; [done|].
      eapply (running_same_flow filePath st (set_now t s)); [done|done| |done].
      apply Hshown. by destruct Hrunning as (_ & _ & _ & _ & ?).
    + destruct Hflow as (Hflag & Hfail & Huntouched & Hnot). rewrite Hi.
      split; [done|]. split; [done|].
      split; [by eapply (untouched_same_flow filePath st (set_now t s))|].
      by eapply (not_forced_queue (set_now t s)).
  - destruct (sleepers s !! i) as [sl|] eqn:Hsl; [|done].
    destruct (wake_at sl <=? t); [|done]. intros [= <-].
    assert (isProcessing s = true ∧ queue s ≠ []) as [Hup Hqueue].
    { destruct (isProcessing s) eqn:Hp.
      - destruct (Hbusy eq_refl) as (sl' & q' & _ & ->). done.
      - destruct (Hidle eq_refl) as [Hnone _]. by rewrite Hnone in Hsl. }
    set (s0 := set_sleepers (delete i (sleepers s)) (set_now t s)).
    destruct (resume_flow t sl s0) as (Hsame & (n & Hn) & Hshown).
    pose proof Hsame as (Hm & Hs & _ & Hi & _).
    change (main s0) with (main s) in Hm. change (subscribed s0) with (subscribed s) in Hs.
    change (ChatStore.isImporting (store s0)) with (ChatStore.isImporting (store s)) in Hi.
    assert (running filePath st s → running filePath st s0) as Hrun0 by done.
    assert (untouched filePath st s → untouched filePath st s0) as Hkeep0 by done.
    change (writers s0) with (writers s) in Hn.
    unfold flow_inv in *. rewrite Hm, Hs.
    destruct (main s) as [|r w|r w|r w|r].
    + destruct Hflow as [Hsub Hrunning]. split; [done|].
      eapply (running_same_flow filePath st s0); [done|exact Hn|by apply Hshown|].
      by apply Hrun0.
    + destruct Hflow as [Hsub Hrunning]. split; [done|].
      eapply (running_same_flow filePath st s0); [done|exact Hn|by apply Hshown|].
      by apply Hrun0.
    + destruct Hflow as (_ & _ & ?). congruence.
    + destruct Hflow as (_ & _ & _ & _ & _ & ?). congruence.
    + destruct Hflow as [Hflag Hflow]. rewrite Hi. split; [done|].
      destruct (subscribed s); [|destruct Hflow; congruence].
      destruct Hflow as (Hfail & Huntouched & Hnot). split; [done|].
      split; [eapply (untouched_same_flow filePath st s0); [done|by apply Hkeep0]|].
      by eapply (not_forced_queue s).
  - destruct (main s) eqn:Hmain; try done. intros [= <-].
    unfold flow_inv in Hflow. rewrite Hmain in Hflow. destruct Hflow as [_ Hrunning].
    by apply poll_flow.
  - destruct (main s) eqn:Hmain; try done. intros [= <-].
    unfold flow_inv in Hflow. rewrite Hmain in Hflow.
    destruct Hflow as (Hsub & Hclear & Hflag & Huntouched & Hbefore & Hshown).
    unfold flow_inv, finally_block. flow_fields. rewrite Hsub. cbn [success].
    split; [done|]. split; [done|]. split; [done|].
    unfold before_100 in Hbefore. rewrite Forall_forall in Hbefore.
    intros Hin. by destruct (Hbefore _ Hin).
  - unfold main_timer. flow_fields. unfold flow_inv in Hflow.
    destruct (main s) as [|r w|r w|r w|r] eqn:Hmain; try done;
      (destruct (w <=? t); [|done]); intros [= <-].
    + destruct Hflow as [Hsub Hrunning]. by apply poll_flow.
    + destruct Hflow as (Hsub & Hrunning & Hdown). by apply force100_flow.
    + destruct Hflow as (Hsub & Hclear & Hflag & Huntouched & Hfull & Hdown).
      by apply finish_flow.
  - destruct (clear_at s) as [w|] eqn:Hclear; [|done]. destruct (w <=? t); [|done].
    intros [= <-].
    pose proof (writers_assign t Cleared None (set_clear_at None (set_now t s))) as Hwriters.
    change (writers (set_clear_at None (set_now t s))) with (writers s) in Hwriters.
    set (s1 := assign t Cleared None (set_clear_at None (set_now t s))) in *.
    unfold flow_inv in *.
    change (main s1) with (main s). change (subscribed s1) with (subscribed s).
    change (isProcessing s1) with (isProcessing s).
    change (ChatStore.isImporting (store s1)) with (ChatStore.isImporting (store s)).
    change (Act.calls (world s1)) with (Act.calls (world s)).
    assert (untouched filePath st s → untouched filePath st s1) as Hkeep by done.
    destruct (main s) as [|r w'|r w'|r w'|r];
      try (destruct Hflow as (_ & Hnone & _); try destruct Hnone as (Hnone & _); congruence).
    destruct Hflow as [Hflag Hflow]. split; [done|].
    destruct (subscribed s).
    + destruct Hflow as (Hfail & Huntouched & Hnot). split; [done|]. split; [by apply Hkeep|].
      rewrite Hwriters. by intros [?|?%list_elem_of_singleton]%elem_of_app.
    + destruct Hflow as (Hdown & (ws & cs & Hw & Hws & Hcs) & Hresult).
      split; [done|]. split; [|destruct (success r); [done|by apply Hkeep]].
      exists ws, (cs ++ [Cleared]). rewrite Hwriters, Hw, <- app_assoc.
      split; [done|]. split; [done|]. apply Forall_app. split; [done|]. by constructor.
Qed.

Lemma flow_inv_start t (filePath : jsstring) (st : ChatStore.state) :
  flow_inv filePath st (start t filePath st).
Proof.
  unfold flow_inv, running, untouched, before_100. cbn.
  split; [done|]. split; [done|]. split; [done|]. split; [done|]. split; [|done].
  constructor; [by left|constructor].
Qed.

(** A schedule keeps the two invariants. *)
Lemma run_flow (api : Bridge.oracle) (filePath : jsstring) (st : ChatStore.state)
    (sched : list (Z * task)) s s' :
  queue_inv s → flow_inv filePath st s →
  run api sched s = Some s' → flow_inv filePath st s'.
Proof.
  revert s. induction sched as [|[t k] sched IH]; intros s Hq Hflow; [by intros [= <-]|].
  cbn [run]. destruct (step api t k s) as [s1|] eqn:Hstep; [|done].
  destruct (step_inv api t k s s1 Hq Hstep) as [Hq1 _].
  apply (IH s1 Hq1). exact (step_flow api filePath st t k s s1 Hq Hflow Hstep).
Qed.

End FlowFacts.

Section FlowTheorems.
Context `{Bridge.Types}.
Import ImportQueue ImportFlow.
Implicit Types (s : state) (t : Z).

(** X23: the listener of the progress events is removed exactly when the
    promise of the import is fulfilled. When the promise is rejected, the
    function returns the failure with the text of the error and lowers
    [isImporting], the sessions and the selection are as before, the
    progress is never forced to 100, and the listener stays: a progress
    event that comes later is still taken. *)
Theorem import_listener_removed_iff_resolved (api : Bridge.oracle) (t0 : Z)
    (filePath : jsstring) (st : ChatStore.state) (sched : list (Z * task)) s :
  run api sched (start t0 filePath st) = Some s →
  (subscribed s = false ↔ ∃ ir, resolved sched ir) ∧
  (∀ e, rejected sched e →
     main s = Returned {| success := false; error := Some (Js.String_of e) |} ∧
     subscribed s = true ∧
     ChatStore.isImporting (store s) = false ∧
     untouched filePath st s ∧
     (Force100 ∉ writers s) ∧
     ∀ t p, now s ≤ t → ∃ s', step api t (Progress p) s = Some s').
Proof.
  intros Hrun.
  pose proof (run_flow api filePath st sched _ s (queue_inv_start t0 filePath st)
                (flow_inv_start t0 filePath st) Hrun) as Hflow.
  destruct (run_course api sched (start t0 filePath st) s eq_refl eq_refl Hrun)
    as [(Hmain & Hsub & Hnone)|[(ir & [Hsub Hphase] & Hres & Hrej)|(e & [Hsub Hmain] & Hrej & Hres)]].
  - split.
    + split; [congruence|]. intros (ir & t & Hin). by destruct (Hnone t _ Hin).
    + intros e [t Hin]. by destruct (Hnone t _ Hin).
  - split.
    + split; [|done]. intros _. exists ir. by apply Hres.
    + intros e Hin. by destruct (Hrej e).
  - split.
    + split; [congruence|]. intros (ir & Hin). by destruct (Hres ir).
    + intros e' ->%Hrej. unfold flow_inv in Hflow. rewrite Hmain, Hsub in Hflow.
      destruct Hflow as (Hflag & _ & Huntouched & Hnot).
      split; [done|]. split; [done|]. split; [done|]. split; [done|]. split; [done|].
      intros t p Hlater. unfold step.
      rewrite (proj2 (Z.ltb_ge t (now s))) by lia.
      cbn [subscribed set_now]. rewrite Hsub. by eexists.
Qed.



End FlowTheorems.

Lemma import_listener_removed_iff_resolved_witness :
  ∃ s,
    ImportQueue.run Sample.online
      [(5, ImportQueue.Progress (Sample.progress js:"detecting" 5));
       (100, ImportQueue.ImportSettled (Throw (Js.Rejection js:"unreadable")));
       (700, ImportQueue.ClearTimer);
       (800, ImportQueue.Progress (Sample.progress js:"reading" 40))]
      (ImportQueue.start 0 js:"chat.txt" ChatStore.initial) = Some s ∧
    (ImportQueue.subscribed s = false
     ↔ ∃ ir, ImportFlow.resolved
               [(5, ImportQueue.Progress (Sample.progress js:"detecting" 5));
                (100, ImportQueue.ImportSettled (Throw (Js.Rejection js:"unreadable")));
                (700, ImportQueue.ClearTimer);
                (800, ImportQueue.Progress (Sample.progress js:"reading" 40))] ir) ∧
    (∀ e, ImportFlow.rejected
            [(5, ImportQueue.Progress (Sample.progress js:"detecting" 5));
             (100, ImportQueue.ImportSettled (Throw (Js.Rejection js:"unreadable")));
             (700, ImportQueue.ClearTimer);
             (800, ImportQueue.Progress (Sample.progress js:"reading" 40))] e →
       ImportQueue.main s
       = ImportQueue.Returned {| ImportQueue.success := false;
                                 ImportQueue.error := Some (Js.String_of e) |} ∧
       ImportQueue.subscribed s = true ∧
       ChatStore.isImporting (ImportQueue.store s) = false ∧
       ImportFlow.untouched js:"chat.txt" ChatStore.initial s ∧
       (ImportQueue.Force100 ∉ ImportFlow.writers s) ∧
       ∀ t p, ImportQueue.now s ≤ t →
         ∃ s', ImportQueue.step Sample.online t (ImportQueue.Progress p) s = Some s').
Proof.
  eexists. split; [vm_compute; reflexivity|].
  eapply (import_listener_removed_iff_resolved Sample.online 0 js:"chat.txt" ChatStore.initial).
  vm_compute. reflexivity.
Defined.



(** ** The loaders of the two tabs, and the truncation *)

Section LoaderSuccess.
Context `{Bridge.Types}.

(** X26: the loaders of the repeat tab and of the quotes tab never throw.
    Without a session id they do nothing: no call is made and the flag is
    not touched. With one, they call the bridge once, with the session id
    and the time filter, and end with their flag down; a fulfilled call
    replaces the analysis and logs nothing. In the quotes tab each loader
    leaves the analysis and the flag of the other alone. *)
Theorem loaders_load_once :
  (∀ (props : RepeatTab.Props) api (st : RepeatTab.state),
     let after := Act.run (RepeatTab.loadRepeatAnalysis props api) st in
     after.1 = Normal tt ∧
     (RepeatTab.sessionId props = [] → after.2 = Act.World st [] []) ∧
     (RepeatTab.sessionId props ≠ [] →
        RepeatTab.isLoading (Act.state after.2) = false ∧
        Act.calls after.2
        = [Bridge.GetRepeatAnalysis (RepeatTab.sessionId props) (RepeatTab.timeFilter props)] ∧
        ∀ r, Bridge.getRepeatAnalysis api (RepeatTab.sessionId props)
               (RepeatTab.timeFilter props) = Normal r →
             RepeatTab.repeatAnalysis (Act.state after.2) = Some r ∧
             Act.console after.2 = [])) ∧
  (∀ (props : QuotesTab.Props) api (st : QuotesTab.state),
     let after := Act.run (QuotesTab.loadRepeatAnalysis props api) st in
     after.1 = Normal tt ∧
     (QuotesTab.sessionId props = [] → after.2 = Act.World st [] []) ∧
     QuotesTab.catchphraseAnalysis (Act.state after.2) = QuotesTab.catchphraseAnalysis st ∧
     QuotesTab.isLoadingCatchphrase (Act.state after.2) = QuotesTab.isLoadingCatchphrase st ∧
     (QuotesTab.sessionId props ≠ [] →
        QuotesTab.isLoadingRepeat (Act.state after.2) = false ∧
        Act.calls after.2
        = [Bridge.GetRepeatAnalysis (QuotesTab.sessionId props) (QuotesTab.timeFilter props)] ∧
        ∀ r, Bridge.getRepeatAnalysis api (QuotesTab.sessionId props)
               (QuotesTab.timeFilter props) = Normal r →
             QuotesTab.repeatAnalysis (Act.state after.2) = Some r ∧
             Act.console after.2 = [])) ∧
  (∀ (props : QuotesTab.Props) api (st : QuotesTab.state),
     let after := Act.run (QuotesTab.loadCatchphraseAnalysis props api) st in
     after.1 = Normal tt ∧
     (QuotesTab.sessionId props = [] → after.2 = Act.World st [] []) ∧
     QuotesTab.repeatAnalysis (Act.state after.2) = QuotesTab.repeatAnalysis st ∧
     QuotesTab.isLoadingRepeat (Act.state after.2) = QuotesTab.isLoadingRepeat st ∧
     (QuotesTab.sessionId props ≠ [] →
        QuotesTab.isLoadingCatchphrase (Act.state after.2) = false ∧
        Act.calls after.2
        = [Bridge.GetCatchphraseAnalysis (QuotesTab.sessionId props)
             (QuotesTab.timeFilter props)] ∧
        ∀ r, Bridge.getCatchphraseAnalysis api (QuotesTab.sessionId props)
               (QuotesTab.timeFilter props) = Normal r →
             QuotesTab.catchphraseAnalysis (Act.state after.2) = Some r ∧
             Act.console after.2 = [])).
Proof.
  split; [|split].
  - intros props api st. cbv zeta. unfold RepeatTab.loadRepeatAnalysis, Act.run.
    destruct (RepeatTab.sessionId props) as [|c id] eqn:Hid; [done|].
    cbn [JsString.truthy negb].
    cbv [mbind Act_bind Act.bind Act.issue Act.await Act.try_catch Act.try_finally
         Act.modify Act.console_error].
    cbn [Act.state Act.console Act.calls].
    destruct (Bridge.getRepeatAnalysis api _ _) as [r|e]; cbn.
    + split; [done|]. split; [done|]. intros _. split; [done|]. split; [done|].
      by intros r' [= <-].
    + split; [done|]. split; [done|]. intros _. split; [done|]. split; [done|].
      by intros r' [=].
  - intros props api st. cbv zeta. unfold QuotesTab.loadRepeatAnalysis, Act.run.
    destruct (QuotesTab.sessionId props) as [|c id] eqn:Hid; [done|].
    cbn [JsString.truthy negb].
    cbv [mbind Act_bind Act.bind Act.issue Act.await Act.try_catch Act.try_finally
         Act.modify Act.console_error].
    cbn [Act.state Act.console Act.calls].
    destruct (Bridge.getRepeatAnalysis api _ _) as [r|e]; cbn.
    + split; [done|]. split; [done|]. split; [done|]. split; [done|].
      intros _. split; [done|]. split; [done|]. by intros r' [= <-].
    + split; [done|]. split; [done|]. split; [done|]. split; [done|].
      intros _. split; [done|]. split; [done|]. by intros r' [=].
  - intros props api st. cbv zeta. unfold QuotesTab.loadCatchphraseAnalysis, Act.run.
    destruct (QuotesTab.sessionId props) as [|c id] eqn:Hid; [done|].
    cbn [JsString.truthy negb].
    cbv [mbind Act_bind Act.bind Act.issue Act.await Act.try_catch Act.try_finally
         Act.modify Act.console_error].
    cbn [Act.state Act.console Act.calls].
    destruct (Bridge.getCatchphraseAnalysis api _ _) as [r|e]; cbn.
    + split; [done|]. split; [done|]. split; [done|]. split; [done|].
      intros _. split; [done|]. split; [done|]. by intros r' [= <-].
    + split; [done|]. split; [done|]. split; [done|]. split; [done|].
      intros _. split; [done|]. split; [done|]. by intros r' [=].
Qed.

(** X27: with a negative [maxLength] nothing is short enough to be kept:
    [truncateContent] drops the last [-maxLength] code units of the
    content (all of them when there are fewer) and adds the dots, also to
    the empty string, so that the result is longer than [maxLength + 3]
    whatever the content. *)
Theorem truncateContent_below_zero (content : jsstring) (maxLength : Z) :
  maxLength < 0 →
  RepeatTab.truncateContent content (Some maxLength)
  = take (Z.to_nat (JsString.length content + maxLength)) content ++ js:"..." ∧
  JsString.length (RepeatTab.truncateContent content (Some maxLength))
  = Z.max (JsString.length content + maxLength) 0 + 3 ∧
  maxLength + 3 < JsString.length (RepeatTab.truncateContent content (Some maxLength)) ∧
  QuotesTab.truncateContent content (Some maxLength)
  = RepeatTab.truncateContent content (Some maxLength).
Proof.
  intros Hneg.
  assert (RepeatTab.truncateContent content (Some maxLength)
          = take (Z.to_nat (JsString.length content + maxLength)) content ++ js:"...")
    as Hresult.
  { unfold RepeatTab.truncateContent. cbv [default from_option id].
    unfold JsString.length in *.
    rewrite (proj2 (Z.leb_gt _ _)) by lia.
    unfold JsString.concat, JsString.slice, JsString.rel_index, JsString.length.
    cbv zeta. rewrite Z.ltb_irrefl, (proj2 (Z.ltb_lt maxLength 0)) by done.
    rewrite (Z.min_l 0) by lia. rewrite Z.sub_0_r.
    change (drop (Z.to_nat 0) content) with content.
    f_equal. f_equal. lia. }
  split; [done|]. rewrite Hresult. unfold JsString.length in *.
  rewrite length_app, length_take. cbn [length JsString.lit].
  split; [|split; [|done]].
  - change (length (JsString.lit "...")) with 3%nat. lia.
  - change (length (JsString.lit "...")) with 3%nat. lia.
Qed.

End LoaderSuccess.

Lemma truncateContent_below_zero_witness :
  RepeatTab.truncateContent js:"hello" (Some (-2)) = js:"hel..." ∧
  JsString.length (RepeatTab.truncateContent js:"hello" (Some (-2))) = 6 ∧
  -2 + 3 < JsString.length (RepeatTab.truncateContent js:"hello" (Some (-2))) ∧
  QuotesTab.truncateContent js:"hello" (Some (-2))
  = RepeatTab.truncateContent js:"hello" (Some (-2)).
Proof. apply (truncateContent_below_zero js:"hello" (-2)). lia. Defined.
